(** * tcn_spike: feature/label pipeline and causal TCN, verified against the source

    Shallow embedding of the Python package [tcn_spike]:
    - [data/ha.py]                      -> Module [HeikinAshi]
    - [labels/labeler.py]               -> Module [Labeler]
    - [features/ha_external.py]         -> Module [RollingMetrics]
    - [preprocessing/normalization.py]  -> Module [Scaler]
    - [preprocessing/window.py]         -> Module [Windower]
    - [models/tcn.py]                   -> Module [TCN]

    Numbers.  The program computes on float64.  Here a defined number is an
    exact rational ([Q]); rounding, overflow and infinities are outside the
    model.  The not-a-number value that pandas uses for "undefined" is [None]
    of [option Q] in the columns where the code itself produces or tests it
    (rolling warm-up, [diff], the label extrema, the scaler's statistics).
    The TCN is stated over an arbitrary scalar type, so its causality theorem
    needs no law of arithmetic at all. *)

From Stdlib Require Import QArith Qminmax Qabs ZArith Lia Lqa String.
From stdpp Require Import base list.

(** ** data/ha.py *)
Module HeikinAshi.
Local Open Scope Q_scope.

(** One row of the raw OHLCV table.  A table is a [list Bar]: all columns have
    the same length and the required columns are present by typing. *)
Record Bar := { open : Q; high : Q; low : Q; close : Q; volume : Q }.

(** The returned frame, column by column, in the order the code fills it. *)
Record HAFrame := {
  ha_close : list Q;
  ha_open : list Q;
  ha_high : list Q;
  ha_low : list Q
}.

(** [ohlcv[["open","high","low","close"]].sum(axis=1) / 4.0] *)
Definition ha_close_col (ohlcv : list Bar) : list Q :=
  map (fun b => (open b + high b + low b + close b) / 4) ohlcv.

(** Body of the loop [for i in range(1, n)]:
    [ha_open[i] = (ha_open[i-1] + ha_close.iloc[i-1]) / 2.0]. *)
Definition ha_open_step (hc : list Q) (arr : list Q) (i : nat) : list Q :=
  <[ i := (nth (i - 1) arr 0 + nth (i - 1) hc 0) / 2 ]> arr.

(** [ha_open = np.zeros(n)], then row 0, then the sequential loop.
    On an empty table the assignment to [ha_open[0]] raises IndexError. *)
Definition ha_open_col (ohlcv : list Bar) (hc : list Q) : option (list Q) :=
  match ohlcv with
  | [] => None
  | b0 :: _ =>
      let zeros := repeat 0 (length ohlcv) in
      let arr0 := <[ 0%nat := (open b0 + close b0) / 2 ]> zeros in
      Some (fold_left (ha_open_step hc) (seq 1 (length ohlcv - 1)) arr0)
  end.

(** [np.maximum.reduce([a, b, c])] and [np.minimum.reduce([a, b, c])]:
    a left fold of the element-wise binary operation. *)
Fixpoint zip3 (f : Q -> Q -> Q -> Q) (a b c : list Q) : list Q :=
  match a, b, c with
  | x :: a', y :: b', z :: c' => f x y z :: zip3 f a' b' c'
  | _, _, _ => []
  end.

Definition maximum_reduce3 (a b c : list Q) : list Q :=
  zip3 (fun x y z => Qmax (Qmax x y) z) a b c.

Definition minimum_reduce3 (a b c : list Q) : list Q :=
  zip3 (fun x y z => Qmin (Qmin x y) z) a b c.

Definition compute_heikin_ashi (ohlcv : list Bar) : option HAFrame :=
  let hc := ha_close_col ohlcv in
  match ha_open_col ohlcv hc with
  | None => None
  | Some ho =>
      Some {| ha_close := hc;
              ha_open := ho;
              ha_high := maximum_reduce3 (map high ohlcv) ho hc;
              ha_low := minimum_reduce3 (map low ohlcv) ho hc |}
  end.

Definition bar (o h l c : Q) : Bar :=
  {| open := o; high := h; low := l; close := c; volume := 0 |}.

Definition fixture3 : list Bar :=
  [bar 10 12 9 11; bar 11 13 10 12; bar 12 14 11 13].

End HeikinAshi.

(** ** labels/labeler.py *)
Module Labeler.
Local Open Scope Q_scope.

(** A float column: [None] is not-a-number. *)
Abbreviation column := (list (option Q)).

(** [values[a:b]] for [0 <= a] and [0 <= b]. *)
Definition slice_ {A} (l : list A) (a b : nat) : list A := take (b - a) (drop a l).

(** [np.max] and [np.min] of an array; numpy raises on an empty one, which
    the guard [j - i <= 1] of the loop excludes. *)
Definition np_max (l : list Q) : Q :=
  match l with [] => 0 | r :: rs => fold_left Qmax rs r end.
Definition np_min (l : list Q) : Q :=
  match l with [] => 0 | r :: rs => fold_left Qmin rs r end.

(** The forward window [values[i+1 : j]] with [j = min(n, i + horizon + 1)],
    or [None] where the loop takes [continue]. *)
Definition forward_window (values : list Q) (horizon : Z) (i : nat) : option (list Q) :=
  let n := Z.of_nat (length values) in
  let j := Z.min n (Z.of_nat i + horizon + 1) in
  if (j - Z.of_nat i <=? 1)%Z then None
  else Some (slice_ values (i + 1) (Z.to_nat j)).

(** [rets = window / base - 1.0] with [base = values[i]].  (A zero base gives
    infinities in numpy; [Q] division by zero gives 0.  No statement below
    rests on the value of a quotient by zero.) *)
Definition forward_returns (values : list Q) (horizon : Z) (i : nat) : option (list Q) :=
  match forward_window values horizon i with
  | None => None
  | Some window =>
      let base := nth i values 0 in
      Some (map (fun v => v / base - 1) window)
  end.

(** One iteration of [for i in range(n)] on the pair
    [(forward_max, forward_min)]. *)
Definition label_step (values : list Q) (horizon : Z)
    (st : column * column) (i : nat) : column * column :=
  match forward_returns values horizon i with
  | None => st
  | Some rets =>
      (<[ i := Some (np_max rets) ]> (fst st), <[ i := Some (np_min rets) ]> (snd st))
  end.

Definition forward_extrema (values : list Q) (horizon : Z) : column * column :=
  let n := length values in
  fold_left (label_step values horizon) (seq 0 n)
    (repeat None n, repeat None n).

(** [(col >= thr).astype(float)] and [(col <= thr).astype(float)]: a
    comparison with not-a-number is False. *)
Definition ge_astype_float (col : column) (thr : Q) : column :=
  map (fun m => match m with
                | Some v => Some (if Qle_bool thr v then 1 else 0)
                | None => Some 0
                end) col.
Definition le_astype_float (col : column) (thr : Q) : column :=
  map (fun m => match m with
                | Some v => Some (if Qle_bool v thr then 1 else 0)
                | None => Some 0
                end) col.

Definition fillna (d : Q) (col : column) : column :=
  map (fun m => match m with None => Some d | Some v => Some v end) col.

Record Labels := { entry : column; exit : column }.

Definition generate_entry_exit_labels (close : list Q) (horizon : Z)
    (entry_threshold exit_threshold : Q) : Labels :=
  let '(forward_max, forward_min) := forward_extrema close horizon in
  let entry := ge_astype_float forward_max entry_threshold in
  let exit := le_astype_float forward_min (- exit_threshold) in
  {| entry := fillna 0 entry; exit := fillna 0 exit |}.

(** The label pair of row [i]. *)
Definition label_at (l : Labels) (i : nat) : option (option Q * option Q) :=
  match entry l !! i, exit l !! i with
  | Some a, Some b => Some (a, b)
  | _, _ => None
  end.

Definition fixture_close : list Q := [100; 101; 103; 99; 98].

End Labeler.

(** ** features/ha_external.py *)
Module RollingMetrics.
Local Open Scope Q_scope.

(** A float column: [None] is not-a-number. *)
Abbreviation column := (list (option Q)).

Definition np_sum (l : list Q) : Q := fold_left Qplus l 0.
Definition np_mean (l : list Q) : Q := np_sum l / inject_Z (Z.of_nat (length l)).

(** [np.arange(window)] *)
Definition arange (window : nat) : list Q :=
  map (fun i => inject_Z (Z.of_nat i)) (seq 0 window).

(** The closure [slope_calc] of [_rolling_slope], with [x], [x_mean] and
    [denom] computed from [window] as in the enclosing function. *)
Definition slope_calc (window : nat) (values : list Q) : Q :=
  let x := arange window in
  let x_mean := np_mean x in
  let denom := np_sum (map (fun xi => (xi - x_mean) ^ 2) x) in
  let y := values in
  let y_mean := np_mean y in
  let num := np_sum (zip_with (fun xi yi => (xi - x_mean) * (yi - y_mean)) x y) in
  if Qeq_bool denom 0 then 0 else num / denom.

(** The rows [i - window + 1 .. i] of the series (fewer at the start). *)
Definition window_rows (series : column) (window i : nat) : column :=
  take (i + 1 - (i + 1 - window)) (drop (i + 1 - window) series).

(** The defined observations of a window, in order. *)
Definition observations (win : column) : list Q := omap id win.

(** [series.rolling(window, min_periods=window).apply(f, raw=True)]: row [i]
    is not-a-number unless its window holds [window] defined observations. *)
Definition rolling_apply (window : nat) (f : list Q -> Q) (series : column) : column :=
  map (fun i =>
         let obs := observations (window_rows series window i) in
         if (length obs <? window)%nat then None else Some (f obs))
      (seq 0 (length series)).

Definition _rolling_slope (series : column) (window : nat) : column :=
  rolling_apply window (slope_calc window) series.

(** Not-a-number propagates through arithmetic. *)
Definition nan_sub (a b : option Q) : option Q :=
  match a, b with Some u, Some v => Some (u - v) | _, _ => None end.

(** [Series.diff()]: row 0 is not-a-number, row [i] is [s[i] - s[i-1]]. *)
Definition diff (s : column) : column := zip_with nan_sub s (None :: s).

Definition _rolling_acceleration (series : column) (window : nat) : column :=
  diff (_rolling_slope series window).

Section Angle.
(** [np.degrees(np.arctan(x))] on a defined number; numpy's function is taken
    as a parameter, it maps not-a-number to not-a-number. *)
Variable arctan_degrees : Q -> Q.

Definition _angle_from_slope (slope : column) : column :=
  map (option_map arctan_degrees) slope.

Inductive metric := Slope | Angle | Accel.

(** The three columns one iteration of [for w in windows] adds, keyed by
    metric and window as the code names them ([haext_slope_w{w}], ...). *)
Definition metrics_for_window (ha_close : column) (w : nat)
    : list (metric * nat * column) :=
  let slope := _rolling_slope ha_close w in
  let angle := _angle_from_slope slope in
  let accel := diff slope in
  [(Slope, w, slope); (Angle, w, angle); (Accel, w, accel)].

Definition compute_ha_external_metrics (ha_close : column) (windows : list nat)
    : list (metric * nat * column) :=
  flat_map (metrics_for_window ha_close) windows.

End Angle.

(** The series has exactly its first [k] rows undefined. *)
Definition undefined_exactly_first (k : nat) (s : column) : Prop :=
  forall i, (i < length s)%nat -> (s !! i = Some None <-> (i < k)%nat).

Definition undefined_exactly_firstb (k : nat) (s : column) : bool :=
  forallb (fun i => match s !! i with
                    | Some None => (i <? k)%nat
                    | _ => negb (i <? k)%nat
                    end) (seq 0 (length s)).

End RollingMetrics.

(** ** preprocessing/normalization.py *)
Module Scaler.
Local Open Scope Q_scope.

(** A column label: a name, or the position pandas assigns when a frame is
    built without column names. *)
Inductive label := Name (s : string) | Pos (i : nat).

(** A frame as its column labels and its rows; the row index is positional. *)
Record DataFrame (A : Type) := { columns : list label; values : list (list A) }.
Arguments columns {A} _.
Arguments values {A} _.

(** A Python [slice(start, stop)] (step 1); [None] bounds and negative bounds
    as in [slice.indices]. *)
Record pyslice := { start : option Z; stop : option Z }.

Definition slice_bound (n : Z) (default : Z) (b : option Z) : Z :=
  match b with
  | None => default
  | Some k => if (k <? 0)%Z then Z.max 0 (k + n) else Z.min k n
  end.

(** [frame.iloc[train_slice]], on the rows. *)
Definition iloc {A} (sl : pyslice) (rows : list A) : list A :=
  let n := Z.of_nat (length rows) in
  let a := slice_bound n 0 (start sl) in
  let b := slice_bound n n (stop sl) in
  take (Z.to_nat (b - a)) (drop (Z.to_nat a) rows).

Definition np_sum (l : list Q) : Q := fold_left Qplus l 0.

Definition column_values (j : nat) (rows : list (list Q)) : list Q :=
  map (fun r => nth j r 0) rows.

(** [Series.mean()]: not-a-number on no rows. *)
Definition pd_mean (xs : list Q) : option Q :=
  match xs with
  | [] => None
  | _ => Some (np_sum xs / inject_Z (Z.of_nat (length xs)))
  end.

Definition nan_sub (a b : option Q) : option Q :=
  match a, b with Some u, Some v => Some (u - v) | _, _ => None end.
Definition nan_div (a b : option Q) : option Q :=
  match a, b with Some u, Some v => Some (u / v) | _, _ => None end.

(** The three attributes of the scaler object. *)
Record StandardScalerTimeSeries := {
  mean_ : option (list (option Q));
  std_ : option (list (option Q));
  feature_names_ : option (list label)
}.

Definition __init__ : StandardScalerTimeSeries :=
  {| mean_ := None; std_ := None; feature_names_ := None |}.

Inductive exn := RuntimeError (msg : string) | ValueError.
Inductive result (A : Type) := Ok (a : A) | Raise (e : exn).
Arguments Ok {A} _.
Arguments Raise {A} _.

(** A method: it reads and writes [self] and returns or raises. *)
Definition M (A : Type) : Type := StandardScalerTimeSeries -> result A * StandardScalerTimeSeries.
Definition ret {A} (a : A) : M A := fun self => (Ok a, self).
Definition raise {A} (e : exn) : M A := fun self => (Raise e, self).
Definition bind {A B} (m : M A) (k : A -> M B) : M B :=
  fun self =>
    match m self with
    | (Ok a, self') => k a self'
    | (Raise e, self') => (Raise e, self')
    end.
Notation "m >>= k" := (bind m k) (at level 50, left associativity).

(** numpy broadcasting of a [(n, k)] array against a [(m,)] vector: the
    resulting width, or [None] where numpy raises. *)
Definition broadcast_width (k m : nat) : option nat :=
  if (k =? m)%nat then Some k
  else if (k =? 1)%nat then Some m
  else if (m =? 1)%nat then Some k
  else None.

Definition broadcast_row {A B C} (f : A -> B -> C) (row : list A) (v : list B) : list C :=
  if (length row =? length v)%nat then zip_with f row v
  else match row, v with
       | [x], _ => map (f x) v
       | _, [y] => map (fun x => f x y) row
       | _, _ => []
       end.

Section WithSqrt.
(** [np.sqrt] inside pandas' [std], taken as a parameter. *)
Variable sqrt : Q -> Q.

(** [Series.std()] with pandas' default [ddof=1]: not-a-number on fewer than
    two rows. *)
Definition pd_std (xs : list Q) : option Q :=
  if (length xs <=? 1)%nat then None
  else
    let n := inject_Z (Z.of_nat (length xs)) in
    let m := np_sum xs / n in
    Some (sqrt (np_sum (map (fun x => (x - m) ^ 2) xs) / (n - 1))).

(** [std[std == 0.0] = 1.0]; not-a-number compares unequal and stays. *)
Definition replace_zero_std (std : list (option Q)) : list (option Q) :=
  map (fun s => match s with
                | Some v => if Qeq_bool v 0 then Some 1 else Some v
                | None => None
                end) std.

Definition fit (features : DataFrame Q) (train_slice : pyslice) : M unit :=
  fun self =>
    let train_data := iloc train_slice (values features) in
    let cols := seq 0 (length (columns features)) in
    let self1 := {| mean_ := mean_ self; std_ := std_ self;
                    feature_names_ := Some (columns features) |} in
    let self2 := {| mean_ := Some (map (fun j => pd_mean (column_values j train_data)) cols);
                    std_ := std_ self1;
                    feature_names_ := feature_names_ self1 |} in
    let std := map (fun j => pd_std (column_values j train_data)) cols in
    let std := replace_zero_std std in
    (Ok tt, {| mean_ := mean_ self2; std_ := Some std;
               feature_names_ := feature_names_ self2 |}).

Definition not_fitted : string := "Scaler is not fitted".

Definition transform (features : DataFrame Q) : M (DataFrame (option Q)) :=
  fun self =>
    match mean_ self, std_ self with
    | Some mean, Some std =>
        let arr := map (map Some) (values features) in
        let k := length (columns features) in
        match broadcast_width k (length mean) with
        | None => (Raise ValueError, self)
        | Some k1 =>
            match broadcast_width k1 (length std) with
            | None => (Raise ValueError, self)
            | Some k2 =>
                let scaled :=
                  map (fun row => broadcast_row nan_div (broadcast_row nan_sub row mean) std)
                      arr in
                let names :=
                  match feature_names_ self with
                  | Some names => names
                  | None => map Pos (seq 0 k2)
                  end in
                if (length names =? k2)%nat
                then (Ok {| columns := names; values := scaled |}, self)
                else (Raise ValueError, self)
            end
        end
    | _, _ => (Raise (RuntimeError not_fitted), self)
    end.

Definition fit_transform (features : DataFrame Q) (train_slice : pyslice)
    : M (DataFrame (option Q)) :=
  fit features train_slice >>= fun _ => transform features.

Definition get_params
    : M (list (option Q) * list (option Q) * list label) :=
  fun self =>
    match mean_ self, std_ self, feature_names_ self with
    | Some m, Some s, Some names => (Ok (m, s, names), self)
    | _, _, _ => (Raise (RuntimeError not_fitted), self)
    end.

(** A caller's use of one scaler object: a sequence of method calls, each
    leaving the object in some state whether it returned or raised. *)
Inductive call :=
| CallFit (features : DataFrame Q) (train_slice : pyslice)
| CallTransform (features : DataFrame Q)
| CallFitTransform (features : DataFrame Q) (train_slice : pyslice)
| CallGetParams.

Definition exec (self : StandardScalerTimeSeries) (c : call) : StandardScalerTimeSeries :=
  match c with
  | CallFit f sl => snd (fit f sl self)
  | CallTransform f => snd (transform f self)
  | CallFitTransform f sl => snd (fit_transform f sl self)
  | CallGetParams => snd (get_params self)
  end.

Definition run (history : list call) : StandardScalerTimeSeries :=
  fold_left exec history __init__.

Definition is_fit (c : call) : bool :=
  match c with
  | CallFit _ _ | CallFitTransform _ _ => true
  | _ => false
  end.

Definition fit_called (history : list call) : bool := existsb is_fit history.

End WithSqrt.

Definition is_state_error {A} (r : result A) : bool :=
  match r with Raise (RuntimeError _) => true | _ => false end.
Definition is_ok {A} (r : result A) : bool :=
  match r with Ok _ => true | _ => false end.

(** A square root on [Q] that is exact on squares of rationals (and rounds
    numerator and denominator down elsewhere); it instantiates [sqrt] in the
    worked examples. *)
Definition rational_sqrt (q : Q) : Q :=
  let r := Qred q in Z.sqrt (Qnum r) # Pos.sqrt (Qden r).

Definition frame1 (xs : list Q) : DataFrame Q :=
  {| columns := [Name "x"%string]; values := map (fun x => [x]) xs |}.

Definition fixture_features : DataFrame Q := frame1 [1; 2; 3; 10].
Definition rows_0_3 : pyslice := {| start := Some 0%Z; stop := Some 3%Z |}.

End Scaler.

(** ** preprocessing/window.py *)
Module Windower.

Inductive outcome (R : Type) :=
| Returned (r : R)
| IndexError
| OutOfFuel.
Arguments Returned {R} _.
Arguments IndexError {R}.
Arguments OutOfFuel {R}.

Record SequenceWindowGenerator := { seq_len : nat; stride : nat }.

Section Arrays.
Context {A : Type} (zero : A).

(** A 2-D array of shape [(length rows, ncols)]. *)
Record ndarray2 := { ncols : nat; rows : list (list A) }.

(** The [labels] argument when it is not [None]: 1-D or 2-D. *)
Inductive label_array := Labels1D (l : list A) | Labels2D (a : ndarray2).

(** [labels[:, None]] for a 1-D array. *)
Definition as_2d (l : label_array) : ndarray2 :=
  match l with
  | Labels1D v => {| ncols := 1; rows := map (fun x => [x]) v |}
  | Labels2D a => a
  end.

(** The loop [while start + seq_len <= num_timesteps]; [None] when the fuel
    runs out (a zero stride never leaves the loop). *)
Fixpoint window_indices (fuel : nat) (g : SequenceWindowGenerator)
    (num_timesteps start : nat) (indices : list (nat * nat))
    : option (list (nat * nat)) :=
  match fuel with
  | O => None
  | S fuel' =>
      if start + seq_len g <=? num_timesteps
      then window_indices fuel' g num_timesteps (start + stride g)
             (indices ++ [(start, start + seq_len g)])
      else Some indices
  end.

(** [a[s:e]] on rows, and [.T] of a slab with [n] columns. *)
Definition row_slice (l : list (list A)) (s e : nat) : list (list A) :=
  take (e - s) (drop s l).
Definition transpose (n : nat) (slab : list (list A)) : list (list A) :=
  map (fun j => map (fun r => nth j r zero) slab) (seq 0 n).

(** [a[k]] for a Python integer [k]: negative indices count from the end. *)
Definition py_index {B} (l : list B) (k : Z) : option B :=
  if (k <? 0)%Z
  then (if (k + Z.of_nat (length l) <? 0)%Z then None
        else l !! Z.to_nat (k + Z.of_nat (length l)))
  else l !! Z.to_nat k.

Definition tensors : Type := list (list (list A)) * option (list (list A)).

(** Body of [for i, (s, e) in enumerate(indices)]. *)
Definition fill_step (features : ndarray2) (labels : option ndarray2)
    (st : outcome tensors) (ise : nat * (nat * nat)) : outcome tensors :=
  match st with
  | Returned (X, y) =>
      let '(i, (s, e)) := ise in
      let X' := <[ i := transpose (ncols features) (row_slice (rows features) s e) ]> X in
      match labels, y with
      | Some lab, Some yv =>
          match py_index (rows lab) (Z.of_nat e - 1) with
          | Some row => Returned (X', Some (<[ i := row ]> yv))
          | None => IndexError
          end
      | _, _ => Returned (X', y)
      end
  | other => other
  end.

Definition enumerate {B} (l : list B) : list (nat * B) := zip (seq 0 (length l)) l.

Definition generate (fuel : nat) (g : SequenceWindowGenerator)
    (features : ndarray2) (labels : option label_array) : outcome tensors :=
  let num_timesteps := length (rows features) in
  let num_features := ncols features in
  match window_indices fuel g num_timesteps 0 [] with
  | None => OutOfFuel
  | Some indices =>
      let num_samples := length indices in
      let X := repeat (repeat (repeat zero (seq_len g)) num_features) num_samples in
      let labels2 := option_map as_2d labels in
      let y := option_map (fun lab => repeat (repeat zero (ncols lab)) num_samples) labels2 in
      fold_left (fill_step features labels2) (enumerate indices) (Returned (X, y))
  end.

End Arrays.

Arguments ndarray2 : clear implicits.
Arguments label_array : clear implicits.

(** The start offsets the specification describes: [0, d, 2d, ...] while
    [start + s <= T]. *)
Definition window_count (T s d : nat) : nat :=
  if s <=? T then (T - s) / d + 1 else 0.
Definition window_starts (T s d : nat) : list nat :=
  map (fun i => i * d) (seq 0 (window_count T s d)).

Definition features5 : ndarray2 nat :=
  {| ncols := 2; rows := [[10; 20]; [11; 21]; [12; 22]; [13; 23]; [14; 24]] |}.
Definition labels5 : label_array nat :=
  Labels2D {| ncols := 1; rows := [[0]; [1]; [2]; [3]; [4]] |}.

End Windower.

(** ** models/tcn.py *)
Module TCN.

Section Scalars.
(** The scalar type of the tensors and the arithmetic of the library layers
    ([nn.ReLU] as [relu]).  Nothing is assumed about them. *)
Context {A : Type} (zero : A) (add mul : A -> A -> A) (relu : A -> A).

(** One sample of a [(batch, channels, time)] tensor: its channels, each a
    sequence over time.  Every layer acts on the samples of a batch
    independently. *)
Definition tensor : Type := list (list A).

(** The parameters [nn.Conv1d] allocates: [weight[o][c][j]] and [bias[o]]. *)
Record ConvParams := { weight : nat -> nat -> nat -> A; bias : nat -> A }.

Record Conv1d := {
  in_channels : nat;
  out_channels : nat;
  kernel_size : nat;
  stride : nat;
  padding : nat;
  dilation : nat;
  params : ConvParams
}.

Definition time_len (x : tensor) : nat := length (hd [] x).

(** Length of the output of [nn.Conv1d]:
    [(L + 2*padding - dilation*(kernel_size-1) - 1) // stride + 1]. *)
Definition conv_out_len (c : Conv1d) (L : nat) : nat :=
  let span := dilation c * (kernel_size c - 1) + 1 in
  if L + 2 * padding c <? span then 0
  else (L + 2 * padding c - span) / stride c + 1.

(** A channel padded with [padding] zeros on both sides. *)
Definition pad (p : nat) (ch : list A) : list A :=
  repeat zero p ++ ch ++ repeat zero p.

Definition sum_over (n : nat) (f : nat -> A) : A :=
  fold_left (fun acc i => add acc (f i)) (seq 0 n) zero.

(** [out[o][t] = bias[o] + sum_c sum_j weight[o][c][j] * xpad[c][t*stride + j*dilation]] *)
Definition conv_at (c : Conv1d) (x : tensor) (o t : nat) : A :=
  add (bias (params c) o)
      (sum_over (in_channels c) (fun ci =>
         sum_over (kernel_size c) (fun j =>
           mul (weight (params c) o ci j)
               (nth (t * stride c + j * dilation c)
                    (pad (padding c) (nth ci x [])) zero)))).

Definition conv_forward (c : Conv1d) (x : tensor) : tensor :=
  map (fun o => map (conv_at c x o) (seq 0 (conv_out_len c (time_len x))))
      (seq 0 (out_channels c)).

Record Chomp1d := { chomp_size : nat }.

(** [Chomp1d.forward]: [x] itself when [chomp_size == 0], else
    [x[:, :, :-chomp_size]]. *)
Definition chomp_forward (m : Chomp1d) (x : tensor) : tensor :=
  if chomp_size m =? 0 then x
  else map (fun ch => take (length ch - chomp_size m) ch) x.

Definition relu_forward (x : tensor) : tensor := map (map relu) x.

(** [nn.Dropout] in eval mode. *)
Definition dropout_eval (x : tensor) : tensor := x.

Definition tensor_add (a b : tensor) : tensor := zip_with (zip_with add) a b.

Record TemporalBlock := {
  conv1 : Conv1d;
  chomp1 : Chomp1d;
  conv2 : Conv1d;
  chomp2 : Chomp1d;
  downsample : option Conv1d
}.

(** The parameters one block allocates. *)
Record BlockParams := {
  conv1_params : ConvParams;
  conv2_params : ConvParams;
  downsample_params : ConvParams
}.

(** [TemporalBlock.__init__] *)
Definition make_block (in_ch out_ch kernel stride_ dilation_ padding_ : nat)
    (bp : BlockParams) : TemporalBlock :=
  {| conv1 := {| in_channels := in_ch; out_channels := out_ch;
                 kernel_size := kernel; stride := stride_;
                 padding := padding_; dilation := dilation_;
                 params := conv1_params bp |};
     chomp1 := {| chomp_size := padding_ |};
     conv2 := {| in_channels := out_ch; out_channels := out_ch;
                 kernel_size := kernel; stride := stride_;
                 padding := padding_; dilation := dilation_;
                 params := conv2_params bp |};
     chomp2 := {| chomp_size := padding_ |};
     downsample :=
       if in_ch =? out_ch then None
       else Some {| in_channels := in_ch; out_channels := out_ch;
                    kernel_size := 1; stride := 1; padding := 0; dilation := 1;
                    params := downsample_params bp |} |}.

(** The activations of [TemporalBlock.forward] in the order they are
    computed; the last one is the value [block_forward] returns. *)
Definition block_activations (b : TemporalBlock) (x : tensor) : list tensor :=
  let a1 := conv_forward (conv1 b) x in
  let a2 := chomp_forward (chomp1 b) a1 in
  let a3 := relu_forward a2 in
  let a4 := dropout_eval a3 in
  let a5 := conv_forward (conv2 b) a4 in
  let a6 := chomp_forward (chomp2 b) a5 in
  let a7 := relu_forward a6 in
  let a8 := dropout_eval a7 in
  let res := match downsample b with None => x | Some d => conv_forward d x end in
  [a1; a2; a3; a4; a5; a6; a7; a8; res; relu_forward (tensor_add a8 res)].

(** [TemporalBlock.forward] *)
Definition block_forward (b : TemporalBlock) (x : tensor) : tensor :=
  let out := conv_forward (conv1 b) x in
  let out := chomp_forward (chomp1 b) out in
  let out := relu_forward out in
  let out := dropout_eval out in
  let out := conv_forward (conv2 b) out in
  let out := chomp_forward (chomp2 b) out in
  let out := relu_forward out in
  let out := dropout_eval out in
  let res := match downsample b with None => x | Some d => conv_forward d x end in
  relu_forward (tensor_add out res).

(** The loop of [TCNBackbone.__init__]: level [i] has dilation [2 ** i] and
    padding [(kernel_size - 1) * dilation]. *)
Fixpoint make_layers (kernel : nat) (bps : nat -> BlockParams)
    (i in_ch : nat) (num_channels : list nat) : list TemporalBlock :=
  match num_channels with
  | [] => []
  | out_ch :: rest =>
      let dilation_size := 2 ^ i in
      let padding_ := (kernel - 1) * dilation_size in
      make_block in_ch out_ch kernel 1 dilation_size padding_ (bps i)
        :: make_layers kernel bps (S i) out_ch rest
  end.

Record TCNBackbone := { network : list TemporalBlock }.

Definition make_backbone (num_features : nat) (num_channels : list nat)
    (kernel : nat) (bps : nat -> BlockParams) : TCNBackbone :=
  {| network := make_layers kernel bps 0 num_features num_channels |}.

(** [nn.Sequential]: every block on the output of the one before. *)
Definition backbone_forward (m : TCNBackbone) (x : tensor) : tensor :=
  fold_left (fun h b => block_forward b h) (network m) x.

(** Every activation of a forward pass, block after block. *)
Fixpoint sequential_activations (blocks : list TemporalBlock) (x : tensor)
    : list tensor :=
  match blocks with
  | [] => []
  | b :: rest =>
      block_activations b x ++ sequential_activations rest (block_forward b x)
  end.

Definition backbone_activations (m : TCNBackbone) (x : tensor) : list tensor :=
  sequential_activations (network m) x.

(** Two tensors of one shape that agree on the timesteps [0 .. n-1]. *)
Definition agree_before (n : nat) (x y : tensor) : Prop :=
  Forall2 (fun a b => length a = length b /\ take n a = take n b) x y.

(** The tensor with the values at timestep [t] replaced ([vals c] is the new
    value of channel [c]). *)
Definition set_timestep (t : nat) (vals : nat -> A) (x : tensor) : tensor :=
  imap (fun c ch => <[ t := vals c ]> ch) x.

(** Every channel has [L] timesteps. *)
Definition time_shape (L : nat) (x : tensor) : Prop :=
  Forall (fun ch => length ch = L) x.

End Scalars.
End TCN.

(** ** data/ha.py on a frame with named columns: the validation *)
Module HeikinAshiFrame.
Import HeikinAshi.
Local Open Scope Q_scope.
Local Open Scope string_scope.

(** A frame as its number of rows and its named columns, each of that many
    values. *)
Record OhlcvFrame := { nrows : nat; columns : list (string * list Q) }.

Definition has_column (df : OhlcvFrame) (name : string) : bool :=
  existsb (fun c => String.eqb (fst c) name) (columns df).

(** [ohlcv[name]] for a column that is present. *)
Definition column (df : OhlcvFrame) (name : string) : list Q :=
  match find (fun c => String.eqb (fst c) name) (columns df) with
  | Some c => snd c
  | None => []
  end.

Definition required_columns : list string := ["open"; "high"; "low"; "close"].

(** [required_columns - set(ohlcv.columns)] *)
Definition missing_columns (df : OhlcvFrame) : list string :=
  filter (fun r => negb (has_column df r)) required_columns.

(** The rows the rest of the function reads. *)
Definition bars (df : OhlcvFrame) : list Bar :=
  map (fun i => {| open := nth i (column df "open") 0;
                   high := nth i (column df "high") 0;
                   low := nth i (column df "low") 0;
                   close := nth i (column df "close") 0;
                   volume := nth i (column df "volume") 0 |})
      (seq 0 (nrows df)).

Inductive outcome :=
| ValueError (missing : list string)
| IndexError
| Returned (ha : HAFrame).

(** [compute_heikin_ashi] with its check of the required columns. *)
Definition compute_heikin_ashi_df (df : OhlcvFrame) : outcome :=
  if forallb (has_column df) required_columns
  then match compute_heikin_ashi (bars df) with
       | Some ha => Returned ha
       | None => IndexError
       end
  else ValueError (missing_columns df).

Definition with_column (name : string) (col : list Q) (df : OhlcvFrame) : OhlcvFrame :=
  {| nrows := nrows df; columns := (name, col) :: columns df |}.

End HeikinAshiFrame.

(** ** features/indicators.py *)
Module Indicators.
Import RollingMetrics.
Local Open Scope Q_scope.

(** [(series.diff() > 0).astype(float)]: a comparison with not-a-number is
    false. *)
Definition up (series : column) : list Q :=
  map (fun d => match d with
                | Some v => if Qle_bool v 0 then 0 else 1
                | None => 0
                end)
      (diff series).

(** [s.rolling(window, min_periods=window).mean()]: row [i] is not-a-number
    unless its window holds [window] defined observations, and at least
    one. *)
Definition rolling_mean (window : nat) (series : column) : column :=
  map (fun i =>
         let obs := observations (window_rows series window i) in
         if ((length obs <? window) || (length obs =? 0))%nat then None
         else Some (np_mean obs))
      (seq 0 (length series)).

Definition price_strength_index (series : column) (window : nat) : column :=
  let up := map Some (up series) in
  rolling_mean window up.

(** The sample variance (one degree of freedom removed). *)
Definition var1 (obs : list Q) : Q :=
  np_sum (map (fun x => (x - np_mean obs) ^ 2) obs)
  / inject_Z (Z.of_nat (length obs - 1)).

Definition nan_div (a b : option Q) : option Q :=
  match a, b with Some u, Some v => Some (u / v) | _, _ => None end.

(** [std.replace(0, np.nan)] *)
Definition replace_zero_nan (c : column) : column :=
  map (fun v => match v with
                | Some x => if Qeq_bool x 0 then None else Some x
                | None => None
                end) c.

Section Std.
(** [sqrt] of the library, on a defined number. *)
Variable sqrt : Q -> Q.

(** [s.rolling(window, min_periods=window).std()]: as the mean, and
    not-a-number on fewer than two observations. *)
Definition rolling_std (window : nat) (series : column) : column :=
  map (fun i =>
         let obs := observations (window_rows series window i) in
         if ((length obs <? window) || (length obs <=? 1))%nat then None
         else Some (sqrt (var1 obs)))
      (seq 0 (length series)).

Definition rolling_zscore (series : column) (window : nat) : column :=
  let mean := rolling_mean window series in
  let std := rolling_std window series in
  zip_with nan_div (zip_with nan_sub series mean) (replace_zero_nan std).

End Std.

End Indicators.

(** ** models/tcn.py: [TCNModel], the backbone and a linear head on the last
    timestep *)
Module TCNHead.
Import TCN.

Section Scalars.
Context {A : Type} (zero : A) (add mul : A -> A -> A) (relu : A -> A).

Local Abbreviation BlockParams := (@TCN.BlockParams A).
Local Abbreviation sum_over := (TCN.sum_over zero add).
Local Abbreviation backbone_forward := (TCN.backbone_forward zero add mul relu).

(** The parameters [nn.Linear] allocates: [weight[o][i]] and [bias[o]]. *)
Record LinearParams := { lin_weight : nat -> nat -> A; lin_bias : nat -> A }.

Record Linear := {
  in_features : nat;
  out_features : nat;
  lin_params : LinearParams
}.

(** [nn.Linear.forward] on one sample: [out[o] = sum_i v[i] * weight[o][i] + bias[o]];
    [None] is the shape error raised when [v] has not [in_features] entries. *)
Definition linear_forward (l : Linear) (v : list A) : option (list A) :=
  if length v =? in_features l then
    Some (map (fun o =>
                 add (sum_over (in_features l)
                        (fun i => mul (nth i v zero) (lin_weight (lin_params l) o i)))
                     (lin_bias (lin_params l) o))
              (seq 0 (out_features l)))
  else None.

Record TCNModel := { backbone : @TCN.TCNBackbone A; head : Linear }.

(** [TCNModel.__init__]: [hidden_channels[-1]] raises [IndexError] ([None])
    on an empty list. *)
Definition make_model (num_features num_targets : nat) (hidden_channels : list nat)
    (kernel : nat) (bps : nat -> BlockParams) (hp : LinearParams) : option TCNModel :=
  match last hidden_channels with
  | None => None
  | Some width =>
      Some {| backbone := make_backbone num_features hidden_channels kernel bps;
              head := {| in_features := width;
                         out_features := num_targets;
                         lin_params := hp |} |}
  end.

(** [feats[:, :, -1]] on one sample: the last timestep of every channel;
    [None] is the [IndexError] of a channel with no timestep. *)
Definition last_timestep (feats : list (list A)) : option (list A) :=
  mapM last feats.

Inductive outcome :=
| Returned (logits : list A)
| IndexError
| RuntimeError.

(** [TCNModel.forward] on one sample, in eval mode. *)
Definition model_forward (m : TCNModel) (x : list (list A)) : outcome :=
  let feats := backbone_forward (backbone m) x in
  match last_timestep feats with
  | None => IndexError
  | Some v =>
      match linear_forward (head m) v with
      | None => RuntimeError
      | Some logits => Returned logits
      end
  end.

End Scalars.
End TCNHead.

(** ** train.py: the split of the windows into training and validation *)
Module TrainSplit.

(** [a[:k]] and [a[k:]] for a Python integer [k]. *)
Definition upto {B} (k : Z) (a : list B) : list B :=
  Scaler.iloc {| Scaler.start := None; Scaler.stop := Some k |} a.
Definition from {B} (k : Z) (a : list B) : list B :=
  Scaler.iloc {| Scaler.start := Some k; Scaler.stop := None |} a.

Record Split (A : Type) := {
  X_train : list (list (list A));
  y_train : list (list A);
  X_valid : list (list (list A));
  y_valid : list (list A)
}.
Arguments X_train {A} _.
Arguments y_train {A} _.
Arguments X_valid {A} _.
Arguments y_valid {A} _.

(** Lines 83-84 of [train_model]: the cut at [train_n - cfg.seq_len + 1]. *)
Definition split {A} (train_n : Z) (seq_len : nat)
    (X : list (list (list A))) (y : list (list A)) : Split A :=
  let k := (train_n - Z.of_nat seq_len + 1)%Z in
  {| X_train := upto k X; y_train := upto k y;
     X_valid := from k X; y_valid := from k y |}.

End TrainSplit.

(** * Theorems *)

(** ** Lists: [map], [repeat] and [nth] of the model against stdpp's lookup *)
Module ListFacts.

Lemma lookup_map {A B} (f : A -> B) (l : list A) (i : nat) :
  map f l !! i = option_map f (l !! i).
Proof. apply list_lookup_fmap. Qed.

Lemma lookup_map_Some {A B} (f : A -> B) (l : list A) (i : nat) (x : A) :
  l !! i = Some x -> map f l !! i = Some (f x).
Proof. intros H. rewrite lookup_map, H. reflexivity. Qed.

Lemma map_fmap_stdpp {A B} (f : A -> B) (l : list A) : map f l = f <$> l.
Proof. reflexivity. Qed.

Lemma repeat_replicate {A} (x : A) (n : nat) : repeat x n = replicate n x.
Proof. induction n; cbn; congruence. Qed.

Lemma lookup_repeat_lt {A} (x : A) (n i : nat) :
  i < n -> repeat x n !! i = Some x.
Proof. intros H. rewrite repeat_replicate. apply lookup_replicate_2, H. Qed.

Lemma nth_insert_eq {A} (l : list A) (i : nat) (x d : A) :
  i < length l -> nth i (<[ i := x ]> l) d = x.
Proof.
  intros Hi. rewrite nth_lookup, list_lookup_insert_eq by exact Hi. reflexivity.
Qed.

Lemma nth_insert_ne {A} (l : list A) (i j : nat) (x d : A) :
  i <> j -> nth j (<[ i := x ]> l) d = nth j l d.
Proof.
  intros Hne. rewrite !nth_lookup, list_lookup_insert_ne by exact Hne. reflexivity.
Qed.

Lemma nth_lookup_lt {A} (l : list A) (i : nat) (d : A) :
  i < length l -> l !! i = Some (nth i l d).
Proof.
  intros H. destruct (nth_lookup_or_length l i d) as [E|E]; [exact E | lia].
Qed.

(** A loop [for i in range(n)] whose iteration [i] writes at most the cell
    [i] of an array: afterwards cell [i] holds what iteration [i] wrote. *)
Lemma fold_insert_own_cell {A} (g : nat -> option A) (n : nat) (l : list A) (i : nat) :
  fold_left (fun acc k => match g k with Some v => <[ k := v ]> acc | None => acc end)
            (seq 0 n) l !! i
  = match g i with
    | Some v => if decide (i < n /\ i < length l) then Some v else l !! i
    | None => l !! i
    end.
Proof.
  induction n as [|n IH].
  - cbn. destruct (g i); [|reflexivity]. case_decide; [lia | reflexivity].
  - rewrite seq_S, fold_left_app. cbn [fold_left Nat.add].
    set (acc := fold_left _ (seq 0 n) l) in *.
    assert (Hlen : length acc = length l).
    { subst acc. clear. generalize (seq 0 n). intros ks. revert l.
      induction ks as [|k ks IHk]; intros l; [reflexivity|]. cbn [fold_left].
      rewrite IHk. destruct (g k); [apply length_insert | reflexivity]. }
    destruct (decide (i = n)) as [->|Hne].
    + destruct (g n) as [v|] eqn:Hg.
      * destruct (decide (n < length l)) as [Hlt|Hge].
        -- rewrite list_lookup_insert_eq by lia. clear IH.
           case_decide; [reflexivity | lia].
        -- rewrite list_insert_ge by lia. rewrite IH. clear IH.
           repeat case_decide; try lia; reflexivity.
      * exact IH.
    + destruct (g n) as [w|] eqn:Hg.
      * rewrite list_lookup_insert_ne by lia. rewrite IH. clear IH.
        destruct (g i); [|reflexivity]. repeat case_decide; try lia; reflexivity.
      * rewrite IH. clear IH. destruct (g i); [|reflexivity].
        repeat case_decide; try lia; reflexivity.
Qed.

Lemma fold_left_ext {A B} (f g : A -> B -> A) (l : list B) (a : A) :
  (forall x y, f x y = g x y) -> fold_left f l a = fold_left g l a.
Proof.
  intros H. revert a. induction l as [|b l IH]; intros a; [reflexivity|].
  cbn. rewrite H. apply IH.
Qed.

(** A loop on a pair of arrays that updates each component on its own. *)
Lemma fold_left_pair {A B C} (f : A -> C -> A) (g : B -> C -> B)
    (l : list C) (a : A) (b : B) :
  fold_left (fun st k => (f (fst st) k, g (snd st) k)) l (a, b)
  = (fold_left f l a, fold_left g l b).
Proof.
  revert a b. induction l as [|c l IH]; intros a b; [reflexivity|].
  cbn. apply IH.
Qed.

End ListFacts.

(** ** Heikin-Ashi *)
Module HeikinAshiProofs.
Import HeikinAshi ListFacts.
Local Open Scope Q_scope.

(** State of the array after the iterations [1 .. m] of the loop. *)
Definition filled_to (hc : list Q) (n : nat) (init : Q) (m : nat) (arr : list Q) : Prop :=
  length arr = n /\
  nth 0 arr 0 = init /\
  forall i, (1 <= i <= m)%nat ->
    nth i arr 0 = (nth (i - 1) arr 0 + nth (i - 1) hc 0) / 2.

Lemma ha_open_loop (hc : list Q) (n : nat) (init : Q) (arr0 : list Q) (m : nat) :
  filled_to hc n init 0 arr0 -> (m < n)%nat ->
  filled_to hc n init m (fold_left (ha_open_step hc) (seq 1 m) arr0).
Proof.
  intros H0 Hm. induction m as [|m IH].
  - exact H0.
  - rewrite seq_S, fold_left_app. cbn [fold_left Nat.add].
    destruct IH as (Hlen & Hinit & Hrec); [lia|].
    set (arr := fold_left (ha_open_step hc) (seq 1 m) arr0) in *.
    unfold ha_open_step. replace (S m - 1)%nat with m by lia.
    repeat split.
    + rewrite length_insert. exact Hlen.
    + rewrite nth_insert_ne by lia. exact Hinit.
    + intros i Hi. destruct (decide (i = S m)) as [->|Hne].
      * rewrite nth_insert_eq by lia.
        replace (S m - 1)%nat with m by lia.
        rewrite nth_insert_ne by lia. reflexivity.
      * rewrite !nth_insert_ne by lia. apply Hrec. lia.
Qed.

Lemma ha_open_col_spec (ohlcv : list Bar) (hc : list Q) (b0 : Bar) :
  ohlcv !! 0%nat = Some b0 ->
  exists ho, ha_open_col ohlcv hc = Some ho /\
    filled_to hc (length ohlcv) ((open b0 + close b0) / 2) (length ohlcv - 1) ho.
Proof.
  destruct ohlcv as [|b rest]; [discriminate|]. intros [= ->].
  eexists. split; [reflexivity|].
  apply ha_open_loop; [|cbn; lia].
  repeat split.
  - rewrite length_insert, repeat_length. reflexivity.
  - intros i Hi. lia.
Qed.

Lemma zip3_length (f : Q -> Q -> Q -> Q) (a b c : list Q) :
  length a = length b -> length a = length c -> length (zip3 f a b c) = length a.
Proof.
  revert b c. induction a as [|x a IH]; intros [|y b] [|z c]; cbn; try discriminate; auto.
Qed.

Lemma zip3_lookup (f : Q -> Q -> Q -> Q) (a b c : list Q) (i : nat) (x y z : Q) :
  a !! i = Some x -> b !! i = Some y -> c !! i = Some z ->
  zip3 f a b c !! i = Some (f x y z).
Proof.
  revert b c i. induction a as [|x' a IH]; intros [|y' b] [|z' c] [|i]; cbn;
    try discriminate; try congruence.
  apply IH.
Qed.

Lemma ha_close_col_lookup (ohlcv : list Bar) (i : nat) (b : Bar) :
  ohlcv !! i = Some b ->
  ha_close_col ohlcv !! i = Some ((open b + high b + low b + close b) / 4).
Proof.
  intros H. unfold ha_close_col. rewrite lookup_map, H. reflexivity.
Qed.

Lemma compute_heikin_ashi_returns (ohlcv : list Bar) :
  ohlcv <> [] ->
  exists ho, compute_heikin_ashi ohlcv =
    Some {| ha_close := ha_close_col ohlcv;
            ha_open := ho;
            ha_high := maximum_reduce3 (map high ohlcv) ho (ha_close_col ohlcv);
            ha_low := minimum_reduce3 (map low ohlcv) ho (ha_close_col ohlcv) |} /\
    forall b0, ohlcv !! 0%nat = Some b0 ->
      filled_to (ha_close_col ohlcv) (length ohlcv) ((open b0 + close b0) / 2)
                (length ohlcv - 1) ho.
Proof.
  intros Hne. destruct ohlcv as [|b0 rest] eqn:E; [congruence|]. rewrite <- E.
  destruct (ha_open_col_spec ohlcv (ha_close_col ohlcv) b0) as (ho & Hho & Hfill).
  { subst ohlcv. reflexivity. }
  exists ho. split.
  - unfold compute_heikin_ashi. rewrite Hho. reflexivity.
  - intros b0' Hb0. subst ohlcv. injection Hb0 as <-. exact Hfill.
Qed.

(** C4.  For every OHLC table of length n >= 1 the transform returns a frame
    in which ha_close[i] = (open[i]+high[i]+low[i]+close[i])/4 for every row i
    (a function of row i alone), ha_open[0] = (open[0]+close[0])/2 and
    ha_open[i] = (ha_open[i-1]+ha_close[i-1])/2 for every i > 0; on the 3-row
    fixture ha_close = [10.5, 11.5, 12.5] and ha_open = [10.5, 10.5, 11.0]. *)
Theorem C4_heikin_ashi_definition (ohlcv : list Bar) (Hn : (1 <= length ohlcv)%nat) :
  (exists ha, compute_heikin_ashi ohlcv = Some ha /\
     length (ha_close ha) = length ohlcv /\
     length (ha_open ha) = length ohlcv /\
     (forall i b, ohlcv !! i = Some b ->
        ha_close ha !! i = Some ((open b + high b + low b + close b) / 4)) /\
     (forall b0, ohlcv !! 0%nat = Some b0 ->
        ha_open ha !! 0%nat = Some ((open b0 + close b0) / 2)) /\
     (forall i, (0 < i < length ohlcv)%nat ->
        exists po pc, ha_open ha !! (i - 1)%nat = Some po /\
                      ha_close ha !! (i - 1)%nat = Some pc /\
                      ha_open ha !! i = Some ((po + pc) / 2))) /\
  (exists ha, compute_heikin_ashi fixture3 = Some ha /\
     Forall2 Qeq (ha_close ha) [10.5; 11.5; 12.5] /\
     Forall2 Qeq (ha_open ha) [10.5; 10.5; 11.0]).
Proof.
  split.
  - destruct ohlcv as [|b0 rest] eqn:E; [cbn in Hn; lia|]. rewrite <- E in *.
    destruct (compute_heikin_ashi_returns ohlcv) as (ho & Hret & Hfill);
      [subst; discriminate|].
    destruct (Hfill b0) as (Hlen & H0 & Hrec); [subst; reflexivity|].
    eexists. split; [exact Hret|]. cbn [ha_close ha_open].
    assert (Hlc : length (ha_close_col ohlcv) = length ohlcv)
      by (unfold ha_close_col; apply length_map).
    split; [exact Hlc|]. split; [exact Hlen|].
    split; [intros i b; apply ha_close_col_lookup|].
    split.
    + intros b0' Hb0. rewrite (nth_lookup_lt ho 0 0) by lia. rewrite H0.
      subst ohlcv. injection Hb0 as <-. reflexivity.
    + intros i Hi. exists (nth (i - 1) ho 0), (nth (i - 1) (ha_close_col ohlcv) 0).
      split; [apply nth_lookup_lt; lia|].
      split; [apply nth_lookup_lt; lia|].
      rewrite (nth_lookup_lt ho i 0) by lia. f_equal. apply Hrec. lia.
  - eexists. split; [reflexivity|].
    split; repeat constructor.
Qed.

(** The 3-row fixture satisfies the hypothesis of C4. *)
Lemma C4_witness :
  (1 <= length fixture3)%nat /\
  exists ha, compute_heikin_ashi fixture3 = Some ha /\
     Forall2 Qeq (ha_close ha) [10.5; 11.5; 12.5] /\
     Forall2 Qeq (ha_open ha) [10.5; 10.5; 11.0].
Proof.
  assert (H : (1 <= length fixture3)%nat) by (cbn; lia).
  split; [exact H|]. exact (proj2 (C4_heikin_ashi_definition fixture3 H)).
Defined.

(** C10.  For every OHLC table of length >= 1 and every row i, ha_high[i] is
    the three-way maximum of high[i], ha_open[i], ha_close[i], hence at least
    each of them, and ha_low[i] is the three-way minimum of low[i], ha_open[i],
    ha_close[i], hence at most each of them; nothing is assumed about the raw
    bar's own high/low. *)
Theorem C10_ha_bar_encloses_open_close (ohlcv : list Bar) (Hn : (1 <= length ohlcv)%nat) :
  exists ha, compute_heikin_ashi ohlcv = Some ha /\
    forall i b, ohlcv !! i = Some b ->
      exists o c h l,
        ha_open ha !! i = Some o /\ ha_close ha !! i = Some c /\
        ha_high ha !! i = Some h /\ ha_low ha !! i = Some l /\
        h = Qmax (Qmax (high b) o) c /\
        l = Qmin (Qmin (low b) o) c /\
        high b <= h /\ o <= h /\ c <= h /\
        l <= low b /\ l <= o /\ l <= c.
Proof.
  destruct (compute_heikin_ashi_returns ohlcv) as (ho & Hret & Hfill).
  { intros ->. cbn in Hn. lia. }
  destruct ohlcv as [|b0 rest] eqn:E; [cbn in Hn; lia|]. rewrite <- E in *.
  destruct (Hfill b0) as (Hlen & _ & _); [subst; reflexivity|].
  eexists. split; [exact Hret|]. cbn [ha_close ha_open ha_high ha_low].
  intros i b Hb.
  assert (Hi : (i < length ohlcv)%nat) by (eapply lookup_lt_Some; exact Hb).
  set (o := nth i ho 0).
  set (c := (open b + high b + low b + close b) / 4).
  assert (Ho : ho !! i = Some o) by (apply nth_lookup_lt; lia).
  assert (Hc : ha_close_col ohlcv !! i = Some c) by (apply ha_close_col_lookup, Hb).
  exists o, c, (Qmax (Qmax (high b) o) c), (Qmin (Qmin (low b) o) c).
  split; [exact Ho|]. split; [exact Hc|].
  split.
  { unfold maximum_reduce3.
    apply (zip3_lookup (fun x y z => Qmax (Qmax x y) z) _ _ _ i (high b) o c);
      auto using lookup_map_Some. }
  split.
  { unfold minimum_reduce3.
    apply (zip3_lookup (fun x y z => Qmin (Qmin x y) z) _ _ _ i (low b) o c);
      auto using lookup_map_Some. }
  split; [reflexivity|]. split; [reflexivity|].
  repeat split.
  - eapply Qle_trans; [apply Q.le_max_l | apply Q.le_max_l].
  - eapply Qle_trans; [apply Q.le_max_r | apply Q.le_max_l].
  - apply Q.le_max_r.
  - eapply Qle_trans; [apply Q.le_min_l | apply Q.le_min_l].
  - eapply Qle_trans; [apply Q.le_min_l | apply Q.le_min_r].
  - apply Q.le_min_r.
Qed.

(** A bar whose raw high lies below its open and close: the Heikin-Ashi bar
    still encloses its own open and close. *)
Definition inverted_bar : list Bar := [bar 10 1 20 12].

Lemma C10_witness :
  (1 <= length inverted_bar)%nat /\
  exists ha, compute_heikin_ashi inverted_bar = Some ha /\
    forall i b, inverted_bar !! i = Some b ->
      exists o c h l,
        ha_open ha !! i = Some o /\ ha_close ha !! i = Some c /\
        ha_high ha !! i = Some h /\ ha_low ha !! i = Some l /\
        h = Qmax (Qmax (high b) o) c /\
        l = Qmin (Qmin (low b) o) c /\
        high b <= h /\ o <= h /\ c <= h /\
        l <= low b /\ l <= o /\ l <= c.
Proof.
  assert (H : (1 <= length inverted_bar)%nat) by (cbn; lia).
  split; [exact H|]. exact (C10_ha_bar_encloses_open_close inverted_bar H).
Defined.

End HeikinAshiProofs.

(** ** Label generator *)
Module LabelerProofs.
Import Labeler ListFacts.
Local Open Scope Q_scope.

(** What iteration [i] writes into [forward_max] and [forward_min]. *)
Definition written_max (values : list Q) (horizon : Z) (i : nat) : option (option Q) :=
  match forward_returns values horizon i with
  | Some rets => Some (Some (np_max rets))
  | None => None
  end.
Definition written_min (values : list Q) (horizon : Z) (i : nat) : option (option Q) :=
  match forward_returns values horizon i with
  | Some rets => Some (Some (np_min rets))
  | None => None
  end.

Lemma forward_extrema_split (values : list Q) (horizon : Z) :
  forward_extrema values horizon =
  (fold_left (fun acc k => match written_max values horizon k with
                           | Some v => <[ k := v ]> acc | None => acc end)
             (seq 0 (length values)) (repeat None (length values)),
   fold_left (fun acc k => match written_min values horizon k with
                           | Some v => <[ k := v ]> acc | None => acc end)
             (seq 0 (length values)) (repeat None (length values))).
Proof.
  unfold forward_extrema. rewrite <- fold_left_pair. apply fold_left_ext.
  intros [fmax fmin] k. unfold label_step, written_max, written_min. cbn [fst snd].
  destruct (forward_returns values horizon k); reflexivity.
Qed.

Lemma forward_max_lookup (values : list Q) (horizon : Z) (i : nat) :
  (i < length values)%nat ->
  fst (forward_extrema values horizon) !! i
  = Some (option_map np_max (forward_returns values horizon i)).
Proof.
  intros Hi. rewrite forward_extrema_split. cbn [fst].
  rewrite (fold_insert_own_cell (written_max values horizon)). unfold written_max.
  destruct (forward_returns values horizon i); cbn.
  - rewrite repeat_length. case_decide; [reflexivity | lia].
  - apply lookup_repeat_lt, Hi.
Qed.

Lemma forward_min_lookup (values : list Q) (horizon : Z) (i : nat) :
  (i < length values)%nat ->
  snd (forward_extrema values horizon) !! i
  = Some (option_map np_min (forward_returns values horizon i)).
Proof.
  intros Hi. rewrite forward_extrema_split. cbn [snd].
  rewrite (fold_insert_own_cell (written_min values horizon)). unfold written_min.
  destruct (forward_returns values horizon i); cbn.
  - rewrite repeat_length. case_decide; [reflexivity | lia].
  - apply lookup_repeat_lt, Hi.
Qed.

Lemma forward_extrema_lookup_ge (values : list Q) (horizon : Z) (i : nat) :
  (length values <= i)%nat ->
  fst (forward_extrema values horizon) !! i = None /\
  snd (forward_extrema values horizon) !! i = None.
Proof.
  intros Hi. rewrite forward_extrema_split. cbn [fst snd].
  rewrite (fold_insert_own_cell (written_max values horizon)),
    (fold_insert_own_cell (written_min values horizon)), repeat_length.
  assert (Hnone : repeat (@None Q) (length values) !! i = None).
  { apply lookup_ge_None_2. rewrite repeat_length. exact Hi. }
  rewrite Hnone.
  split.
  - destruct (written_max values horizon i); [|reflexivity].
    case_decide; [lia | reflexivity].
  - destruct (written_min values horizon i); [|reflexivity].
    case_decide; [lia | reflexivity].
Qed.

(** The entry and exit flags as functions of the extrema of row [i]. *)
Definition entry_flag (thr : Q) (m : option Q) : Q :=
  match m with Some v => if Qle_bool thr v then 1 else 0 | None => 0 end.
Definition exit_flag (thr : Q) (m : option Q) : Q :=
  match m with Some v => if Qle_bool v (- thr) then 1 else 0 | None => 0 end.

(** The label pair of row [i] is a function of the forward returns of row [i]. *)
Lemma label_at_returns (close : list Q) (horizon : Z) (te tx : Q) (i : nat) :
  label_at (generate_entry_exit_labels close horizon te tx) i =
  if decide (i < length close)%nat
  then Some (Some (entry_flag te (option_map np_max (forward_returns close horizon i))),
             Some (exit_flag tx (option_map np_min (forward_returns close horizon i))))
  else None.
Proof.
  unfold generate_entry_exit_labels, label_at.
  destruct (forward_extrema close horizon) as [fmax fmin] eqn:E.
  cbn [entry exit]. unfold fillna, ge_astype_float, le_astype_float.
  rewrite !lookup_map.
  case_decide as Hi.
  - pose proof (forward_max_lookup close horizon i Hi) as Hmax.
    pose proof (forward_min_lookup close horizon i Hi) as Hmin.
    rewrite E in Hmax, Hmin. cbn [fst snd] in Hmax, Hmin.
    rewrite Hmax, Hmin. cbn.
    destruct (forward_returns close horizon i); reflexivity.
  - destruct (forward_extrema_lookup_ge close horizon i) as [Hmax Hmin]; [lia|].
    rewrite E in Hmax, Hmin. cbn [fst snd] in Hmax, Hmin.
    rewrite Hmax. reflexivity.
Qed.

Lemma forward_window_agree (c1 c2 : list Q) (horizon : Z) (i : nat) :
  length c1 = length c2 ->
  (forall k, (i < k)%nat -> (k < length c1)%nat ->
             (Z.of_nat k <= Z.of_nat i + horizon)%Z -> c1 !! k = c2 !! k) ->
  forward_window c1 horizon i = forward_window c2 horizon i.
Proof.
  intros Hlen Hag. unfold forward_window. rewrite <- Hlen.
  set (j := Z.min (Z.of_nat (length c1)) (Z.of_nat i + horizon + 1)).
  destruct (j - Z.of_nat i <=? 1)%Z eqn:Hguard; [reflexivity|].
  apply Z.leb_gt in Hguard. f_equal. unfold slice_.
  apply list_eq. intros m.
  destruct (decide (m < Z.to_nat j - (i + 1))%nat) as [Hm|Hm].
  - rewrite !lookup_take_lt, !lookup_drop by exact Hm.
    apply Hag; subst j; lia.
  - rewrite !lookup_take_ge by lia. reflexivity.
Qed.

(** The window read for row [i] is [values[i+1 : j]] with [i + 1 < j <= n]
    and [j <= i + horizon + 1]: no index outside [i+1 .. n-1]. *)
Lemma forward_window_bounds (values : list Q) (horizon : Z) (i : nat) (w : list Q) :
  forward_window values horizon i = Some w ->
  exists j, (i + 1 < j <= length values)%nat /\
            (Z.of_nat j <= Z.of_nat i + horizon + 1)%Z /\
            w = slice_ values (i + 1) j /\
            length w = (j - (i + 1))%nat.
Proof.
  unfold forward_window.
  set (j := Z.min (Z.of_nat (length values)) (Z.of_nat i + horizon + 1)).
  destruct (j - Z.of_nat i <=? 1)%Z eqn:Hguard; [discriminate|].
  apply Z.leb_gt in Hguard. intros [= <-].
  exists (Z.to_nat j). split; [subst j; lia|]. split; [subst j; lia|].
  split; [reflexivity|].
  unfold slice_. rewrite length_take, length_drop. subst j. lia.
Qed.

Lemma forward_returns_agree (c1 c2 : list Q) (horizon : Z) (i : nat) :
  length c1 = length c2 ->
  (forall k, (i <= k)%nat -> (k < length c1)%nat ->
             (Z.of_nat k <= Z.of_nat i + horizon)%Z -> c1 !! k = c2 !! k) ->
  forward_returns c1 horizon i = forward_returns c2 horizon i.
Proof.
  intros Hlen Hag. unfold forward_returns.
  rewrite (forward_window_agree c1 c2 horizon i Hlen)
    by (intros k Hk; apply Hag; lia).
  destruct (forward_window c2 horizon i) as [w|] eqn:Hw; [|reflexivity].
  destruct (forward_window_bounds c2 horizon i w Hw) as (j & Hj & Hjh & _).
  assert (Hbase : nth i c1 0 = nth i c2 0).
  { rewrite !nth_lookup. rewrite (Hag i) by lia. reflexivity. }
  rewrite Hbase. reflexivity.
Qed.

(** Equal when rounded to four decimals. *)
Definition approx4 (x y : Q) : Prop := Qabs (x - y) <= 5 # 100000.

(** C2, as stated, fails: the rows after the anchor agree (index 1 holds 103
    in both series) and the labels of row 0 differ, because the returns are
    taken relative to the price at the anchor row itself. *)
Lemma C2_counterexample :
  let c1 := [100; 103] in
  let c2 := [200; 103] in
  length c1 = length c2 /\
  (forall k, (0 + 1 <= k)%nat -> (k <= Nat.min (length c1 - 1) (0 + 1))%nat ->
             c1 !! k = c2 !! k) /\
  label_at (generate_entry_exit_labels c1 1 0.02 0.02) 0 = Some (Some 1, Some 0) /\
  label_at (generate_entry_exit_labels c2 1 0.02 0.02) 0 = Some (Some 0, Some 1).
Proof.
  cbn zeta. split; [reflexivity|]. split.
  - intros k H1 H2. cbn in H2. assert (k = 1%nat) as -> by lia. reflexivity.
  - split; reflexivity.
Qed.

(** C2, amended.  The labels of row i are a function of the prices at the
    rows i .. min(n-1, i+h) alone: two close series of the same length that
    agree on these rows have the same (entry, exit) pair at row i.  The
    window read is values[i+1 : j] with i+1 < j <= n and j <= i+h+1, so no
    row before i and no row past n-1 is read. *)
Theorem C2_labels_depend_on_anchor_and_forward_rows
    (c1 c2 : list Q) (horizon : Z) (te tx : Q) (i : nat)
    (Hlen : length c1 = length c2)
    (Hagree : forall k, (i <= k)%nat -> (k < length c1)%nat ->
                        (Z.of_nat k <= Z.of_nat i + horizon)%Z -> c1 !! k = c2 !! k) :
  label_at (generate_entry_exit_labels c1 horizon te tx) i
  = label_at (generate_entry_exit_labels c2 horizon te tx) i /\
  (forall w, forward_window c1 horizon i = Some w ->
     exists j, (i + 1 < j <= length c1)%nat /\
               (Z.of_nat j <= Z.of_nat i + horizon + 1)%Z /\
               w = slice_ c1 (i + 1) j /\
               length w = (j - (i + 1))%nat).
Proof.
  split.
  - rewrite !label_at_returns, <- Hlen.
    rewrite (forward_returns_agree c1 c2 horizon i Hlen Hagree). reflexivity.
  - apply forward_window_bounds.
Qed.

(** Two series that differ before the anchor row 1 and beyond its horizon. *)
Lemma C2_witness :
  let c1 := [100; 101; 103; 99; 98] in
  let c2 := [7; 101; 103; 99; 55] in
  label_at (generate_entry_exit_labels c1 2 0.02 0.02) 1
  = label_at (generate_entry_exit_labels c2 2 0.02 0.02) 1.
Proof.
  cbn zeta.
  refine (proj1 (C2_labels_depend_on_anchor_and_forward_rows
                   [100; 101; 103; 99; 98] [7; 101; 103; 99; 55]
                   2 0.02 0.02 1 eq_refl _)).
  intros k H1 H2 H3. cbn in H2.
  assert (k = 1 \/ k = 2 \/ k = 3)%nat as [-> | [-> | ->]] by lia; reflexivity.
Defined.

(** C3, as stated, fails in one figure: the forward returns of row 2 are
    99/103 - 1 and 98/103 - 1, about -0.0388 and -0.0485, not -0.0194 and
    -0.0291. *)
Lemma C3_counterexample :
  exists rets, forward_returns fixture_close 2 2 = Some rets /\
    ~ Forall2 approx4 rets [-0.0194; -0.0291].
Proof.
  eexists. split; [reflexivity|].
  intros H. inversion H as [|x y l l' Hxy _]; subst.
  unfold approx4 in Hxy. vm_compute in Hxy. apply Hxy. reflexivity.
Qed.

(** C3, amended.  On close = [100,101,103,99,98] with horizon 2 and both
    thresholds 0.02: row 0 has forward window [101,103], returns [0.01,0.03]
    and labels (1,0); row 2 has forward window [99,98], returns
    [-4/103,-5/103] (about -0.0388 and -0.0485) and labels (0,1); row 4 has no
    forward data and labels (0,0).  For every series, every row with an empty
    forward window has labels (0,0), and every row's labels are defined and
    are 0 or 1. *)
Theorem C3_label_fixture_and_end_of_series
    (close : list Q) (horizon : Z) (te tx : Q) (i : nat)
    (Hi : (i < length close)%nat) :
  (let L := generate_entry_exit_labels fixture_close 2 0.02 0.02 in
   forward_window fixture_close 2 0 = Some [101; 103] /\
   (exists r, forward_returns fixture_close 2 0 = Some r /\ Forall2 Qeq r [0.01; 0.03]) /\
   label_at L 0 = Some (Some 1, Some 0) /\
   forward_window fixture_close 2 2 = Some [99; 98] /\
   (exists r, forward_returns fixture_close 2 2 = Some r /\
              Forall2 Qeq r [-4 # 103; -5 # 103] /\
              Forall2 approx4 r [-0.0388; -0.0485]) /\
   label_at L 2 = Some (Some 0, Some 1) /\
   forward_window fixture_close 2 4 = None /\
   label_at L 4 = Some (Some 0, Some 0)) /\
  (forward_window close horizon i = None ->
   label_at (generate_entry_exit_labels close horizon te tx) i = Some (Some 0, Some 0)) /\
  (exists a b,
     label_at (generate_entry_exit_labels close horizon te tx) i = Some (Some a, Some b) /\
     (a = 0 \/ a = 1) /\ (b = 0 \/ b = 1)).
Proof.
  split; [|split].
  - cbn zeta. split; [reflexivity|].
    split; [eexists; split; [reflexivity | repeat constructor]|].
    split; [reflexivity|]. split; [reflexivity|].
    split.
    { eexists. split; [reflexivity|]. split; [repeat constructor|].
      repeat constructor; unfold approx4; vm_compute; discriminate. }
    split; [reflexivity|]. split; reflexivity.
  - intros Hw. rewrite label_at_returns. case_decide; [|lia].
    unfold forward_returns. rewrite Hw. reflexivity.
  - rewrite label_at_returns. case_decide; [|lia].
    eexists _, _. split; [reflexivity|].
    unfold entry_flag, exit_flag.
    destruct (forward_returns close horizon i) as [rets|]; cbn.
    + destruct (Qle_bool te (np_max rets)), (Qle_bool (np_min rets) (- tx)); auto.
    + auto.
Qed.

(** The last row of the fixture: its forward window is empty. *)
Lemma C3_witness :
  (4 < length fixture_close)%nat /\
  label_at (generate_entry_exit_labels fixture_close 2 0.02 0.02) 4
  = Some (Some 0, Some 0).
Proof.
  assert (H : (4 < length fixture_close)%nat) by (cbn; lia).
  split; [exact H|].
  exact (proj1 (proj2 (C3_label_fixture_and_end_of_series
                         fixture_close 2 0.02 0.02 4 H)) eq_refl).
Defined.

End LabelerProofs.

(** ** Rolling slope, angle and acceleration *)
Module RollingMetricsProofs.
Import RollingMetrics ListFacts.
Local Open Scope Q_scope.

Definition defined (v : option Q) : Prop := v <> None.

Lemma observations_length (win : column) :
  Forall defined win -> length (observations win) = length win.
Proof.
  unfold observations. induction 1 as [|v win Hv _ IH]; [reflexivity|].
  destruct v as [q|]; [|destruct Hv; reflexivity]. cbn. f_equal. exact IH.
Qed.

Lemma window_rows_length (series : column) (w i : nat) :
  (i < length series)%nat ->
  length (window_rows series w i) = Nat.min w (i + 1).
Proof.
  intros Hi. unfold window_rows. rewrite length_take, length_drop. lia.
Qed.

(** Row [i] of the rolling slope of a series without undefined values. *)
Lemma rolling_slope_lookup (series : column) (w i : nat) :
  Forall defined series -> (i < length series)%nat ->
  _rolling_slope series w !! i =
  Some (if (i + 1 <? w)%nat then None
        else Some (slope_calc w (observations (window_rows series w i)))).
Proof.
  intros Hdef Hi. unfold _rolling_slope, rolling_apply.
  rewrite lookup_map, lookup_seq_lt by exact Hi. cbn [option_map Nat.add].
  rewrite observations_length
    by (unfold window_rows; apply Forall_take, Forall_drop, Hdef).
  rewrite window_rows_length by exact Hi.
  destruct (Nat.ltb_spec (Nat.min w (i + 1)) w), (Nat.ltb_spec (i + 1) w);
    try lia; reflexivity.
Qed.

Lemma rolling_slope_length (series : column) (w : nat) :
  length (_rolling_slope series w) = length series.
Proof.
  unfold _rolling_slope, rolling_apply. rewrite length_map. apply length_seq.
Qed.

Lemma diff_length (s : column) : length (diff s) = length s.
Proof. unfold diff. rewrite length_zip_with. cbn. lia. Qed.

Lemma diff_lookup_0 (s : column) (v : option Q) :
  s !! 0%nat = Some v -> diff s !! 0%nat = Some None.
Proof.
  destruct s as [|a s]; [discriminate|]. intros _. cbn. destruct a; reflexivity.
Qed.

Lemma diff_lookup_S (s : column) (i : nat) (a b : option Q) :
  s !! i = Some a -> s !! S i = Some b -> diff s !! S i = Some (nan_sub b a).
Proof.
  intros Ha Hb. unfold diff. rewrite lookup_zip_with. cbn [lookup list_lookup].
  rewrite Hb. cbn. change ((a0 ← s !! i; Some (nan_sub b a0)) = Some (nan_sub b a)).
  rewrite Ha. reflexivity.
Qed.

Lemma slope_undefined_prefix (series : column) (w : nat) :
  Forall defined series ->
  undefined_exactly_first (w - 1) (_rolling_slope series w).
Proof.
  intros Hdef i Hi. rewrite rolling_slope_length in Hi.
  rewrite rolling_slope_lookup by assumption.
  destruct (Nat.ltb_spec (i + 1) w); split; intros H'; try lia; congruence.
Qed.

Lemma angle_undefined_prefix (f : Q -> Q) (k : nat) (slope : column) :
  undefined_exactly_first k slope ->
  undefined_exactly_first k (_angle_from_slope f slope).
Proof.
  intros Hs i Hi. unfold _angle_from_slope in *. rewrite length_map in Hi.
  rewrite <- (Hs i Hi), lookup_map.
  destruct (lookup_lt_is_Some_2 slope i Hi) as [v Hv]. rewrite Hv.
  destruct v; cbn; split; congruence.
Qed.

Lemma accel_undefined_prefix (series : column) (w : nat) :
  (1 <= w)%nat -> Forall defined series ->
  undefined_exactly_first w (diff (_rolling_slope series w)).
Proof.
  intros Hw Hdef i Hi. rewrite diff_length, rolling_slope_length in Hi.
  destruct i as [|i].
  - rewrite (diff_lookup_0 _ _ (rolling_slope_lookup series w 0 Hdef Hi)).
    split; [lia | reflexivity].
  - rewrite (diff_lookup_S _ i _ _
               (rolling_slope_lookup series w i Hdef ltac:(lia))
               (rolling_slope_lookup series w (S i) Hdef Hi)).
    destruct (Nat.ltb_spec (i + 1) w), (Nat.ltb_spec (S i + 1) w); cbn;
      split; intros H'; try lia; congruence.
Qed.

(** C5, as stated, fails: with window 2 on the series 1,2,3,4 the slope is
    undefined on row 0 only, the angle is defined on row 1 (for whatever the
    arctangent returns) and the acceleration on row 2, so the angle is not
    undefined for exactly 2 rows nor the acceleration for exactly 3. *)
Lemma C5_counterexample :
  (2 + 1 < length (map Some [1; 2; 3; 4]))%nat /\
  undefined_exactly_first (2 - 1) (_rolling_slope (map Some [1; 2; 3; 4]) 2) /\
  ~ (exists f, undefined_exactly_first 2
                 (_angle_from_slope f (_rolling_slope (map Some [1; 2; 3; 4]) 2))) /\
  (exists a, diff (_rolling_slope (map Some [1; 2; 3; 4]) 2) !! 2%nat = Some (Some a) /\
             a == 0) /\
  ~ undefined_exactly_first (2 + 1) (diff (_rolling_slope (map Some [1; 2; 3; 4]) 2)).
Proof.
  split; [cbn; lia|]. split.
  { apply slope_undefined_prefix. repeat constructor; discriminate. }
  split.
  { intros [f H]. specialize (H 1%nat). cbn in H.
    destruct H as [_ H]; [lia|]. specialize (H ltac:(lia)). discriminate. }
  split; [eexists; split; reflexivity|].
  intros H. specialize (H 2%nat). cbn in H.
  destruct H as [_ H]; [lia|]. specialize (H ltac:(lia)). discriminate.
Qed.

(** C5, amended.  For every window w >= 2 and every series without undefined
    values and of length > w+1: the slope is undefined for exactly the first
    w-1 rows, the angle for exactly the same first w-1 rows, and the
    acceleration (the first difference of the slope) for exactly the first w
    rows; every later row of the three is defined.  These are the three
    columns the metrics function adds for the window. *)
Theorem C5_warmup_prefixes (arctan_degrees : Q -> Q) (series : column) (w : nat)
    (Hw : (2 <= w)%nat) (Hdef : Forall defined series)
    (Hlen : (w + 1 < length series)%nat) :
  undefined_exactly_first (w - 1) (_rolling_slope series w) /\
  undefined_exactly_first (w - 1)
    (_angle_from_slope arctan_degrees (_rolling_slope series w)) /\
  undefined_exactly_first w (diff (_rolling_slope series w)) /\
  undefined_exactly_first w (_rolling_acceleration series w) /\
  metrics_for_window arctan_degrees series w =
    [(Slope, w, _rolling_slope series w);
     (Angle, w, _angle_from_slope arctan_degrees (_rolling_slope series w));
     (Accel, w, diff (_rolling_slope series w))].
Proof.
  split; [apply slope_undefined_prefix, Hdef|].
  split; [apply angle_undefined_prefix, slope_undefined_prefix, Hdef|].
  split; [apply accel_undefined_prefix; [lia | exact Hdef]|].
  split; [apply accel_undefined_prefix; [lia | exact Hdef]|].
  reflexivity.
Qed.

(** A rational stand-in for degrees(arctan x), close for |x| <= 1; it only
    serves to run the example below. *)
Definition approx_arctan_degrees (x : Q) : Q :=
  (180 * 113 # 355) * (x / (1 + (28 # 100) * x * x)).

Lemma C5_witness :
  undefined_exactly_firstb 2
    (_angle_from_slope approx_arctan_degrees
       (_rolling_slope (map Some [1; 2; 4; 8; 16]) 3)) = true /\
  undefined_exactly_first 3 (diff (_rolling_slope (map Some [1; 2; 4; 8; 16]) 3)).
Proof.
  split; [reflexivity|].
  refine (proj1 (proj2 (proj2
    (C5_warmup_prefixes approx_arctan_degrees (map Some [1; 2; 4; 8; 16]) 3 _ _ _)))).
  - lia.
  - repeat constructor; discriminate.
  - cbn; lia.
Defined.

End RollingMetricsProofs.

(** ** Scaler *)
Module ScalerProofs.
Import Scaler ListFacts.
Local Open Scope Q_scope.

Section State.
Variable sqrt : Q -> Q.

(** The parameters [fit] stores; they do not depend on the state before. *)
Definition fitted_state (features : DataFrame Q) (sl : pyslice) : StandardScalerTimeSeries :=
  let train_data := iloc sl (values features) in
  let cols := seq 0 (length (columns features)) in
  {| mean_ := Some (map (fun j => pd_mean (column_values j train_data)) cols);
     std_ := Some (replace_zero_std
                     (map (fun j => pd_std sqrt (column_values j train_data)) cols));
     feature_names_ := Some (columns features) |}.

Lemma fit_overwrites (features : DataFrame Q) (sl : pyslice) (self : StandardScalerTimeSeries) :
  fit sqrt features sl self = (Ok tt, fitted_state features sl).
Proof. reflexivity. Qed.

Lemma transform_keeps_state (features : DataFrame Q) (self : StandardScalerTimeSeries) :
  snd (transform features self) = self.
Proof.
  unfold transform.
  destruct (mean_ self) as [mean|], (std_ self) as [std|]; try reflexivity.
  destruct (broadcast_width _ (length mean)) as [k1|]; [|reflexivity].
  destruct (broadcast_width k1 (length std)) as [k2|]; [|reflexivity].
  destruct (_ =? k2)%nat; reflexivity.
Qed.

Lemma get_params_keeps_state (self : StandardScalerTimeSeries) : snd (get_params self) = self.
Proof.
  unfold get_params.
  destruct (mean_ self), (std_ self), (feature_names_ self); reflexivity.
Qed.

Lemma fit_transform_state (features : DataFrame Q) (sl : pyslice) (self : StandardScalerTimeSeries) :
  snd (fit_transform sqrt features sl self) = fitted_state features sl.
Proof.
  unfold fit_transform, bind. rewrite fit_overwrites.
  pose proof (transform_keeps_state features (fitted_state features sl)) as H.
  destruct (transform features (fitted_state features sl)) as [[out|e] s']; exact H.
Qed.

(** The scaler holds parameters for [m] columns. *)
Definition fitted_for (m : nat) (self : StandardScalerTimeSeries) : Prop :=
  exists mean std names,
    mean_ self = Some mean /\ std_ self = Some std /\
    feature_names_ self = Some names /\
    length mean = m /\ length std = m /\ length names = m.

Lemma fitted_state_fitted_for (features : DataFrame Q) (sl : pyslice) :
  fitted_for (length (columns features)) (fitted_state features sl).
Proof.
  eexists _, _, _. repeat split; cbn.
  - rewrite length_map. apply length_seq.
  - unfold replace_zero_std. rewrite !length_map. apply length_seq.
Qed.

(** Invariant of the object over any sequence of calls. *)
Lemma run_invariant (history : list call) :
  if fit_called history
  then exists m, fitted_for m (run sqrt history)
  else run sqrt history = __init__.
Proof.
  induction history as [|c history IH] using rev_ind; [reflexivity|].
  unfold run, fit_called in *. rewrite fold_left_app, existsb_app.
  cbn [fold_left existsb].
  destruct c as [f sl | f | f sl | ]; cbn [exec is_fit orb].
  - rewrite orb_true_r. exists (length (columns f)).
    rewrite fit_overwrites. apply fitted_state_fitted_for.
  - rewrite orb_false_r, transform_keeps_state. exact IH.
  - rewrite orb_true_r. exists (length (columns f)).
    rewrite fit_transform_state. apply fitted_state_fitted_for.
  - rewrite orb_false_r, get_params_keeps_state. exact IH.
Qed.

Lemma transform_state_error_iff (features : DataFrame Q) (self : StandardScalerTimeSeries) :
  is_state_error (fst (transform features self)) = true
  <-> mean_ self = None \/ std_ self = None.
Proof.
  unfold transform.
  destruct (mean_ self) as [mean|], (std_ self) as [std|]; cbn;
    try (split; [auto | reflexivity]).
  destruct (broadcast_width _ (length mean)) as [k1|];
    [destruct (broadcast_width k1 (length std)) as [k2|];
     [destruct (_ =? k2)%nat|]|];
    cbn; split; try discriminate; intros [H|H]; discriminate.
Qed.

Lemma transform_ok_matching_width (m : nat) (features : DataFrame Q) (self : StandardScalerTimeSeries) :
  fitted_for m self -> length (columns features) = m ->
  is_ok (fst (transform features self)) = true.
Proof.
  intros (mean & std & names & Hm & Hs & Hn & Lm & Ls & Ln) Hw.
  unfold transform. rewrite Hm, Hs, Hn, Lm, Ls, Ln, Hw.
  unfold broadcast_width. rewrite !Nat.eqb_refl. reflexivity.
Qed.

End State.

(** *** Sums, and a zero sample standard deviation *)

Lemma fold_Qplus_acc (l : list Q) (a : Q) :
  fold_left Qplus l a == a + fold_left Qplus l 0.
Proof.
  revert a. induction l as [|x l IH]; intros a; cbn.
  - lra.
  - rewrite (IH (a + x)), (IH (0 + x)). lra.
Qed.

Lemma Qpower_2 (q : Q) : q ^ 2 == q * q.
Proof. reflexivity. Qed.

Lemma Qsquare_nonneg (q : Q) : 0 <= q * q.
Proof. nra. Qed.

Lemma np_sum_cons (x : Q) (l : list Q) : np_sum (x :: l) == x + np_sum l.
Proof. unfold np_sum. cbn. rewrite fold_Qplus_acc. lra. Qed.

Lemma sum_squares_nonneg (m : Q) (xs : list Q) :
  0 <= np_sum (map (fun x => (x - m) ^ 2) xs).
Proof.
  induction xs as [|x xs IH]; [apply Qle_refl|].
  cbn [map]. rewrite np_sum_cons, Qpower_2.
  pose proof (Qsquare_nonneg (x - m)). lra.
Qed.

Lemma sum_squares_zero (m : Q) (xs : list Q) :
  np_sum (map (fun x => (x - m) ^ 2) xs) == 0 -> Forall (fun x => x == m) xs.
Proof.
  induction xs as [|x xs IH]; intros H; [constructor|].
  cbn [map] in H. rewrite np_sum_cons, Qpower_2 in H.
  pose proof (sum_squares_nonneg m xs) as Hnn.
  pose proof (Qsquare_nonneg (x - m)) as Hsq.
  assert (Hx : (x - m) * (x - m) == 0) by lra.
  constructor.
  - destruct (Qmult_integral _ _ Hx); lra.
  - apply IH. lra.
Qed.

Lemma length_Q_pos (n : nat) : (2 <= n)%nat -> 0 < inject_Z (Z.of_nat n) - 1.
Proof.
  intros H. assert (H2 : inject_Z 2 <= inject_Z (Z.of_nat n)).
  { rewrite <- Zle_Qle. lia. }
  change (inject_Z 2) with 2 in H2. lra.
Qed.

Section ZeroStd.
Variable sqrt : Q -> Q.
Hypothesis sqrt_zero : forall v, 0 <= v -> sqrt v == 0 -> v == 0.

(** A sample standard deviation of exactly 0 means every value equals the
    mean. *)
Lemma pd_std_zero (xs : list Q) (v : Q) :
  pd_std sqrt xs = Some v -> v == 0 ->
  exists m, pd_mean xs = Some m /\ Forall (fun x => x == m) xs.
Proof.
  unfold pd_std. destruct (Nat.leb_spec (length xs) 1) as [|Hlen]; [discriminate|].
  intros [= <-] Hv.
  set (n := inject_Z (Z.of_nat (length xs))) in *.
  set (m := np_sum xs / n) in *.
  exists m. split.
  - unfold pd_mean. destruct xs; [cbn in Hlen; lia | reflexivity].
  - apply sum_squares_zero.
    pose proof (sum_squares_nonneg m xs) as Hnn.
    pose proof (length_Q_pos (length xs) ltac:(lia)) as Hd. fold n in Hd.
    set (S := np_sum (map (fun x => (x - m) ^ 2) xs)) in *.
    assert (Hq : S / (n - 1) == 0).
    { apply sqrt_zero; [|exact Hv].
      apply Qle_shift_div_l; [exact Hd | lra]. }
    assert (HS : S == S / (n - 1) * (n - 1)) by (field; lra).
    rewrite HS, Hq. lra.
Qed.

End ZeroStd.

(** *** What [transform] computes after [fit] on the same frame *)

Definition rectangular {A} (f : DataFrame A) : Prop :=
  Forall (fun r => length r = length (columns f)) (values f).

Definition scale_row (mean std : list (option Q)) (row : list (option Q))
    : list (option Q) :=
  broadcast_row nan_div (broadcast_row nan_sub row mean) std.

Lemma transform_after_fit (sqrt : Q -> Q) (features : DataFrame Q) (sl : pyslice) :
  exists mean std,
    mean_ (fitted_state sqrt features sl) = Some mean /\
    std_ (fitted_state sqrt features sl) = Some std /\
    length mean = length (columns features) /\
    length std = length (columns features) /\
    transform features (fitted_state sqrt features sl)
    = (Ok {| columns := columns features;
             values := map (scale_row mean std) (map (map Some) (values features)) |},
       fitted_state sqrt features sl).
Proof.
  destruct (fitted_state_fitted_for sqrt features sl)
    as (mean & std & names & Hm & Hs & Hn & Lm & Ls & Ln).
  exists mean, std. repeat split; try assumption.
  unfold transform. rewrite Hm, Hs, Hn, Lm, Ls.
  unfold broadcast_width. rewrite !Nat.eqb_refl.
  cbn in Hn. injection Hn as <-. rewrite Nat.eqb_refl. reflexivity.
Qed.

Lemma scale_row_lookup (mean std : list (option Q)) (row : list Q)
    (j : nat) (x : Q) (mj sj : option Q) :
  length mean = length row -> length std = length row ->
  row !! j = Some x -> mean !! j = Some mj -> std !! j = Some sj ->
  scale_row mean std (map Some row) !! j = Some (nan_div (nan_sub (Some x) mj) sj).
Proof.
  intros Lm Ls Hx Hm Hs. unfold scale_row, broadcast_row.
  rewrite length_map, <- Lm, Nat.eqb_refl.
  rewrite length_zip_with, length_map, Lm, Ls, Nat.min_id, Nat.eqb_refl.
  rewrite !lookup_zip_with, lookup_map, Hx, Hm, Hs. reflexivity.
Qed.

Lemma iloc_map {A B} (f : A -> B) (sl : pyslice) (l : list A) :
  iloc sl (map f l) = map f (iloc sl l).
Proof.
  unfold iloc. rewrite length_map.
  rewrite !map_fmap_stdpp. rewrite fmap_take, fmap_drop. reflexivity.
Qed.

Lemma fixture_fit (sqrt : Q -> Q) :
  (forall v, v == 1 -> sqrt v == 1) ->
  exists m s,
    fitted_state sqrt fixture_features rows_0_3
    = {| mean_ := Some [Some m]; std_ := Some [Some s];
         feature_names_ := Some [Name "x"%string] |} /\
    m == 2 /\ s == 1.
Proof.
  intros Hsqrt1.
  change (fitted_state sqrt fixture_features rows_0_3)
    with {| mean_ := Some [pd_mean [1; 2; 3]];
            std_ := Some (replace_zero_std [pd_std sqrt [1; 2; 3]]);
            feature_names_ := Some [Name "x"%string] |}.
  unfold pd_std, pd_mean. cbn [length Nat.leb replace_zero_std map].
  match goal with |- context [sqrt ?v] => set (V := v) end.
  assert (HV : sqrt V == 1) by (apply Hsqrt1; reflexivity).
  destruct (Qeq_bool (sqrt V) 0) eqn:Hz.
  - apply Qeq_bool_eq in Hz. rewrite HV in Hz. discriminate.
  - eexists _, _. split; [reflexivity|]. split; [reflexivity | exact HV].
Qed.

Lemma fixture_transform (sqrt : Q -> Q) :
  (forall v, v == 1 -> sqrt v == 1) ->
  exists a b c d,
    fst (transform fixture_features (fitted_state sqrt fixture_features rows_0_3))
    = Ok {| columns := [Name "x"%string];
            values := [[Some a]; [Some b]; [Some c]; [Some d]] |} /\
    a == -1 /\ b == 0 /\ c == 1 /\ d == 8.
Proof.
  intros Hsqrt1.
  destruct (fixture_fit sqrt Hsqrt1) as (m & s & Hfit & Hm & Hs).
  destruct (transform_after_fit sqrt fixture_features rows_0_3)
    as (mean & std & Hmean & Hstd & _ & _ & Htr).
  rewrite Htr. rewrite Hfit in Hmean, Hstd. cbn in Hmean, Hstd.
  injection Hmean as <-. injection Hstd as <-.
  eexists _, _, _, _. split; [reflexivity|].
  repeat split; rewrite Hm, Hs; reflexivity.
Qed.

Lemma replace_zero_std_lookup_zero (std : list (option Q)) (j : nat) (v : Q) :
  std !! j = Some (Some v) -> v == 0 ->
  replace_zero_std std !! j = Some (Some 1).
Proof.
  intros Hj Hv. unfold replace_zero_std. rewrite lookup_map, Hj. cbn.
  apply Qeq_bool_iff in Hv. rewrite Hv. reflexivity.
Qed.

Lemma iloc_Forall {A} (P : A -> Prop) (sl : pyslice) (l : list A) :
  Forall P l -> Forall P (iloc sl l).
Proof. intros H. unfold iloc. apply Forall_take, Forall_drop, H. Qed.

(** The policy for a column whose training-range standard deviation is 0. *)
Lemma zero_std_column (sqrt : Q -> Q)
    (sqrt_zero : forall v, 0 <= v -> sqrt v == 0 -> v == 0)
    (features : DataFrame Q) (sl : pyslice) (j : nat) (v : Q) :
  rectangular features -> (j < length (columns features))%nat ->
  pd_std sqrt (column_values j (iloc sl (values features))) = Some v -> v == 0 ->
  (exists std, std_ (fitted_state sqrt features sl) = Some std /\
               std !! j = Some (Some 1)) /\
  exists out,
    fst (transform features (fitted_state sqrt features sl)) = Ok out /\
    forall i row, iloc sl (values out) !! i = Some row ->
      exists z, row !! j = Some (Some z) /\ z == 0.
Proof.
  intros Hrect Hj Hstd Hv.
  set (train := iloc sl (values features)) in *.
  destruct (pd_std_zero sqrt sqrt_zero _ _ Hstd Hv) as (m & Hmean & Hall).
  assert (Hstdj : replace_zero_std
                    (map (fun j => pd_std sqrt (column_values j train))
                         (seq 0 (length (columns features)))) !! j
                  = Some (Some 1)).
  { apply (replace_zero_std_lookup_zero _ j v); [|exact Hv].
    rewrite lookup_map, lookup_seq_lt by exact Hj. cbn. rewrite Hstd. reflexivity. }
  split.
  { eexists. split; [reflexivity | exact Hstdj]. }
  destruct (transform_after_fit sqrt features sl)
    as (mean & std & Hm & Hs & Lm & Ls & Htr).
  rewrite Htr. eexists. split; [reflexivity|]. cbn [values fst].
  cbn in Hm, Hs. injection Hm as <-. injection Hs as <-. fold train in Hstdj |- *.
  intros i row Hrow. rewrite !iloc_map in Hrow. fold train in Hrow.
  rewrite !lookup_map in Hrow.
  destruct (train !! i) as [r|] eqn:Hr; [|discriminate].
  cbn in Hrow. injection Hrow as <-.
  pose proof (Forall_lookup_1 _ _ _ _ (iloc_Forall _ sl _ Hrect) Hr) as Hlen.
  cbn beta in Hlen.
  assert (Hx : r !! j = Some (nth j r 0)) by (apply nth_lookup_lt; lia).
  assert (Hcol : column_values j train !! i = Some (nth j r 0)).
  { unfold column_values. rewrite lookup_map, Hr. reflexivity. }
  pose proof (Forall_lookup_1 _ _ _ _ Hall Hcol) as Hxm. cbn beta in Hxm.
  assert (Hmj : map (fun j => pd_mean (column_values j train))
                    (seq 0 (length (columns features))) !! j = Some (Some m)).
  { rewrite lookup_map, lookup_seq_lt by exact Hj. cbn. rewrite Hmean. reflexivity. }
  exists ((nth j r 0 - m) / 1). split.
  - apply (scale_row_lookup _ _ r j (nth j r 0) (Some m) (Some 1)).
    + rewrite Hlen. exact Lm.
    + rewrite Hlen. exact Ls.
    + exact Hx.
    + exact Hmj.
    + exact Hstdj.
  - rewrite Hxm. field.
Qed.

(** C6.  With a square root that maps 1 to 1 and vanishes only at 0: fitting
    on rows [0,3) of the one-column frame [[1],[2],[3],[10]] stores mean 2 and
    std 1 (the sample standard deviation, ddof = 1), and transforming the
    whole frame gives the column [-1, 0, 1, 8]; and for every fit on a frame,
    a column whose training-range standard deviation is exactly 0 is stored
    with std 1, and transform returns for every training row of that column a
    defined value equal to 0 (the mean is still subtracted). *)
Theorem C6_scaler_fixture_and_zero_std
    (sqrt : Q -> Q)
    (sqrt_zero : forall v, 0 <= v -> sqrt v == 0 -> v == 0)
    (sqrt_one : forall v, v == 1 -> sqrt v == 1)
    (features : DataFrame Q) (sl : pyslice) (self : StandardScalerTimeSeries) (j : nat) (v : Q)
    (Hrect : rectangular features)
    (Hj : (j < length (columns features))%nat)
    (Hstd : pd_std sqrt (column_values j (iloc sl (values features))) = Some v)
    (Hv : v == 0) :
  (exists m s a b c d,
     snd (fit sqrt fixture_features rows_0_3 __init__)
     = {| mean_ := Some [Some m]; std_ := Some [Some s];
          feature_names_ := Some [Name "x"%string] |} /\
     m == 2 /\ s == 1 /\
     fst (transform fixture_features (snd (fit sqrt fixture_features rows_0_3 __init__)))
     = Ok {| columns := [Name "x"%string];
             values := [[Some a]; [Some b]; [Some c]; [Some d]] |} /\
     a == -1 /\ b == 0 /\ c == 1 /\ d == 8) /\
  (exists std, std_ (snd (fit sqrt features sl self)) = Some std /\
               std !! j = Some (Some 1)) /\
  (exists out,
     fst (transform features (snd (fit sqrt features sl self))) = Ok out /\
     forall i row, iloc sl (values out) !! i = Some row ->
       exists z, row !! j = Some (Some z) /\ z == 0).
Proof.
  rewrite !fit_overwrites. cbn [snd]. split.
  - destruct (fixture_fit sqrt sqrt_one) as (m & s & Hfit & Hm & Hs).
    destruct (fixture_transform sqrt sqrt_one) as (a & b & c & d & Htr & H).
    exists m, s, a, b, c, d. repeat split; try assumption; apply H.
  - exact (zero_std_column sqrt sqrt_zero features sl j v Hrect Hj Hstd Hv).
Qed.

Lemma rational_sqrt_zero (v : Q) : 0 <= v -> rational_sqrt v == 0 -> v == 0.
Proof.
  intros Hv H. rewrite <- (Qred_correct v). rewrite <- (Qred_correct v) in Hv.
  unfold rational_sqrt in H. destruct (Qred v) as [n d].
  unfold Qeq, Qle in *. cbn in *.
  destruct (Z.eq_dec n 0%Z) as [->|Hn]; [reflexivity|].
  assert (0 < Z.sqrt n)%Z by (apply Z.sqrt_pos; lia). lia.
Qed.

Lemma rational_sqrt_one (v : Q) : v == 1 -> rational_sqrt v == 1.
Proof.
  intros H. unfold rational_sqrt. rewrite (Qred_complete _ _ H). reflexivity.
Qed.

(** A constant training range: rows [0,3) of [[5],[5],[5],[7]]. *)
Lemma C6_witness :
  exists out,
    fst (transform (frame1 [5; 5; 5; 7])
           (snd (fit rational_sqrt (frame1 [5; 5; 5; 7]) rows_0_3 __init__))) = Ok out /\
    forall i row, iloc rows_0_3 (values out) !! i = Some row ->
      exists z, row !! 0%nat = Some (Some z) /\ z == 0.
Proof.
  refine (proj2 (proj2
    (C6_scaler_fixture_and_zero_std rational_sqrt rational_sqrt_zero rational_sqrt_one
       (frame1 [5; 5; 5; 7]) rows_0_3 __init__ 0 _ _ _ eq_refl _))).
  - repeat constructor.
  - cbn; lia.
  - reflexivity.
Defined.

(** C8.  Over any sequence of calls on a scaler object, transform raises the
    state error exactly when no fit (or fit_transform) has been called, which
    is exactly when mean_ or std_ is unset; transform never changes the stored
    state, in particular not when it raises; once fit has been called the
    object holds parameters for some width m and transform succeeds on every
    frame of that width; and right after fit on a frame, transform succeeds on
    every frame with as many columns. *)
Theorem C8_transform_state_error
    (sqrt : Q -> Q) (history : list call) (features : DataFrame Q) :
  (is_state_error (fst (transform features (run sqrt history))) = true
     <-> fit_called history = false) /\
  (forall self,
     is_state_error (fst (transform features self)) = true
     <-> mean_ self = None \/ std_ self = None) /\
  (forall self, snd (transform features self) = self) /\
  (fit_called history = true ->
     exists m, forall f, length (columns f) = m ->
                         is_ok (fst (transform f (run sqrt history))) = true) /\
  (forall self f0 sl f,
     fst (fit sqrt f0 sl self) = Ok tt /\
     (length (columns f) = length (columns f0) ->
      is_ok (fst (transform f (snd (fit sqrt f0 sl self)))) = true)).
Proof.
  pose proof (run_invariant sqrt history) as Hinv.
  split; [|split; [|split; [|split]]].
  - rewrite transform_state_error_iff.
    destruct (fit_called history).
    + destruct Hinv as (m & mean & std & names & Hm & Hs & _).
      rewrite Hm, Hs. split; [intros [H|H]; discriminate | discriminate].
    + rewrite Hinv. cbn. split; auto.
  - intros self. apply transform_state_error_iff.
  - intros self. apply transform_keeps_state.
  - intros Hfit. rewrite Hfit in Hinv. destruct Hinv as [m Hm].
    exists m. intros f Hf. eapply transform_ok_matching_width; eassumption.
  - intros self f0 sl f. rewrite fit_overwrites. split; [reflexivity|].
    intros Hw. cbn [snd].
    eapply transform_ok_matching_width; [apply fitted_state_fitted_for | exact Hw].
Qed.

(** C9.  From any prior state, fit_transform(features, range) returns the
    same result as fit(features, range) followed by transform(features) on a
    fresh scaler, and both scalers end in the same state, hence with the same
    fitted parameters. *)
Theorem C9_fit_transform_is_fit_then_transform
    (sqrt : Q -> Q) (self : StandardScalerTimeSeries) (features : DataFrame Q) (sl : pyslice) :
  fst (fit_transform sqrt features sl self)
    = fst (transform features (snd (fit sqrt features sl __init__))) /\
  snd (fit_transform sqrt features sl self)
    = snd (transform features (snd (fit sqrt features sl __init__))) /\
  fst (get_params (snd (fit_transform sqrt features sl self)))
    = fst (get_params (snd (transform features (snd (fit sqrt features sl __init__))))).
Proof.
  assert (H : fit_transform sqrt features sl self
              = transform features (snd (fit sqrt features sl __init__))).
  { unfold fit_transform, bind. rewrite !fit_overwrites. cbn [snd].
    destruct (transform features (fitted_state sqrt features sl)) as [[out|e] s'];
      reflexivity. }
  rewrite H. repeat split.
Qed.

End ScalerProofs.

(** ** Sequence windower *)
Module WindowerProofs.
Import Windower ListFacts.

(** The loop test at the [i]-th start offset. *)
Lemma window_fits_iff (T s d i : nat) :
  1 <= d -> (i * d + s <= T <-> i < window_count T s d).
Proof.
  intros Hd. unfold window_count.
  destruct (Nat.leb_spec s T) as [Hs|Hs]; [|lia].
  split.
  - intros H. apply Nat.lt_succ_r. rewrite Nat.add_1_r. apply Nat.lt_succ_r.
    apply Nat.lt_succ_r, Nat.div_le_lower_bound; lia.
  - intros H. assert (Hi : i <= (T - s) / d) by lia.
    assert (i * d <= T - s); [|lia].
    transitivity (d * ((T - s) / d)); [|apply Nat.Div0.mul_div_le].
    rewrite (Nat.mul_comm i d). apply Nat.mul_le_mono_l, Hi.
Qed.

(** With fuel for the remaining iterations the loop returns the remaining
    windows appended to those collected so far. *)
Lemma window_indices_from (T s d : nat) (fuel i : nat) (acc : list (nat * nat)) :
  1 <= d -> i <= window_count T s d -> window_count T s d - i < fuel ->
  window_indices fuel {| seq_len := s; stride := d |} T (i * d) acc
  = Some (acc ++ map (fun k => (k * d, k * d + s))
                     (seq i (window_count T s d - i))).
Proof.
  intros Hd. revert i acc.
  induction fuel as [|fuel IH]; intros i acc Hi Hfuel; [lia|].
  cbn [window_indices seq_len stride].
  destruct (Nat.leb_spec (i * d + s) T) as [Hfit|Hfit].
  - apply window_fits_iff in Hfit; [|exact Hd].
    replace (i * d + d) with (S i * d) by lia.
    rewrite IH by lia.
    replace (window_count T s d - i) with (S (window_count T s d - S i)) by lia.
    cbn [seq map]. rewrite <- app_assoc. reflexivity.
  - assert (Hn : ~ i < window_count T s d) by (rewrite <- window_fits_iff; lia).
    replace (window_count T s d - i) with 0 by lia.
    cbn. rewrite app_nil_r. reflexivity.
Qed.

Lemma window_count_le (T s d : nat) : 1 <= d -> window_count T s d <= T + 1.
Proof.
  intros Hd. unfold window_count. destruct (s <=? T); [|lia].
  assert ((T - s) / d <= T - s) by (apply Nat.Div0.div_le_upper_bound; nia). lia.
Qed.

Lemma window_indices_returns (T s d fuel : nat) :
  1 <= d -> T + 1 < fuel ->
  window_indices fuel {| seq_len := s; stride := d |} T 0 []
  = Some (map (fun st => (st, st + s)) (window_starts T s d)).
Proof.
  intros Hd Hfuel. pose proof (window_count_le T s d Hd).
  change 0 with (0 * d) at 1. rewrite window_indices_from by lia.
  rewrite Nat.sub_0_r. unfold window_starts. cbn [app].
  rewrite map_map. reflexivity.
Qed.

Lemma window_starts_spec (T s d st : nat) :
  1 <= d ->
  (In st (window_starts T s d) <-> exists i, st = i * d /\ st + s <= T).
Proof.
  intros Hd. unfold window_starts. rewrite in_map_iff. split.
  - intros (i & <- & Hi). apply in_seq in Hi. exists i. split; [reflexivity|].
    apply window_fits_iff; [exact Hd | lia].
  - intros (i & -> & Hi). exists i. split; [reflexivity|].
    apply in_seq. apply window_fits_iff in Hi; [lia | exact Hd].
Qed.

Section Fill.
Context {A : Type} (zero : A) (features : ndarray2 A).

(** The sample of a window: its rows, transposed. *)
Definition sample (se : nat * nat) : list (list A) :=
  transpose zero (ncols features) (row_slice (rows features) (fst se) (snd se)).

Definition label_row (lab : ndarray2 A) (se : nat * nat) : list A :=
  nth (snd se - 1) (rows lab) [].

Lemma py_index_last_step (lab : ndarray2 A) (e : nat) :
  1 <= e <= length (rows lab) ->
  py_index (rows lab) (Z.of_nat e - 1) = Some (nth (e - 1) (rows lab) []).
Proof.
  intros He. unfold py_index.
  destruct (Z.ltb_spec (Z.of_nat e - 1) 0) as [Hneg|_]; [lia|].
  replace (Z.to_nat (Z.of_nat e - 1)) with (e - 1) by lia.
  apply nth_lookup_lt. lia.
Qed.

(** The filling loop from sample [k] on: the cells before [k] are done, the
    others still hold their initial value. *)
Lemma fill_loop_labels (lab : ndarray2 A) (l : list (nat * nat)) :
  Forall (fun se => 1 <= snd se <= length (rows lab)) l ->
  forall (k : nat) (preX restX : list (list (list A))) (preY restY : list (list A)),
  length preX = k -> length restX = length l ->
  length preY = k -> length restY = length l ->
  fold_left (fill_step zero features (Some lab)) (zip (seq k (length l)) l)
            (Returned (preX ++ restX, Some (preY ++ restY)))
  = Returned (preX ++ map sample l, Some (preY ++ map (label_row lab) l)).
Proof.
  induction 1 as [|[s e] l He _ IH]; intros k preX restX preY restY HpX HrX HpY HrY.
  - destruct restX, restY; try discriminate. reflexivity.
  - destruct restX as [|rx restX], restY as [|ry restY]; try discriminate.
    cbn [length seq zip zip_with fold_left fill_step].
    rewrite (py_index_last_step lab e He).
    rewrite !insert_app_r_alt by lia.
    rewrite HpX, HpY, Nat.sub_diag. cbn [insert list_insert].
    rewrite (cons_middle _ preX restX), (cons_middle _ preY restY), !app_assoc.
    rewrite (IH (S k) (preX ++ [_]) restX (preY ++ [_]) restY)
      by (rewrite ?length_app; cbn in *; lia).
    rewrite <- !app_assoc. reflexivity.
Qed.

Lemma fill_loop_no_labels (l : list (nat * nat)) :
  forall (k : nat) (preX restX : list (list (list A))),
  length preX = k -> length restX = length l ->
  fold_left (fill_step zero features None) (zip (seq k (length l)) l)
            (Returned (preX ++ restX, None))
  = Returned (preX ++ map sample l, None).
Proof.
  induction l as [|[s e] l IH]; intros k preX restX HpX HrX.
  - destruct restX; try discriminate. reflexivity.
  - destruct restX as [|rx restX]; try discriminate.
    cbn [length seq zip zip_with fold_left fill_step].
    rewrite insert_app_r_alt by lia.
    rewrite HpX, Nat.sub_diag. cbn [insert list_insert].
    rewrite (cons_middle _ preX restX), !app_assoc.
    rewrite (IH (S k) (preX ++ [_]) restX)
      by (rewrite ?length_app; cbn in *; lia).
    rewrite <- !app_assoc. reflexivity.
Qed.

End Fill.

Lemma generate_returns {A} (zero : A) (features : ndarray2 A)
    (labels : option (label_array A)) (s d fuel : nat) :
  1 <= s -> 1 <= d -> length (rows features) + 1 < fuel ->
  (forall lab, labels = Some lab ->
               length (rows features) <= length (rows (as_2d lab))) ->
  generate zero fuel {| seq_len := s; stride := d |} features labels
  = Returned
      (map (fun st => transpose zero (ncols features)
                        (row_slice (rows features) st (st + s)))
           (window_starts (length (rows features)) s d),
       option_map
         (fun lab => map (fun st => nth (st + s - 1) (rows (as_2d lab)) [])
                         (window_starts (length (rows features)) s d))
         labels).
Proof.
  intros Hs Hd Hfuel Hlab. unfold generate.
  rewrite window_indices_returns by assumption.
  set (starts := window_starts (length (rows features)) s d).
  set (indices := map (fun st => (st, st + s)) starts).
  cbn [seq_len]. unfold enumerate.
  assert (Hmap : map (sample zero features) indices
                 = map (fun st => transpose zero (ncols features)
                                    (row_slice (rows features) st (st + s))) starts).
  { subst indices. rewrite map_map. reflexivity. }
  destruct labels as [lab0|]; cbn [option_map].
  - set (lab := as_2d lab0).
    assert (Hall : Forall (fun se => 1 <= snd se <= length (rows lab)) indices).
    { subst indices. apply Forall_forall. intros se Hin.
      apply list_elem_of_In, in_map_iff in Hin. destruct Hin as (st & <- & Hst).
      apply window_starts_spec in Hst; [|exact Hd]. destruct Hst as (i & _ & Hfit).
      specialize (Hlab lab0 eq_refl). fold lab in Hlab. cbn [snd]. lia. }
    pose proof (fill_loop_labels zero features lab indices Hall 0 []
                  (repeat (repeat (repeat zero s) (ncols features)) (length indices))
                  [] (repeat (repeat zero (ncols lab)) (length indices))
                  eq_refl (repeat_length _ _) eq_refl (repeat_length _ _)) as H.
    cbn [app] in H. rewrite H, Hmap. do 2 f_equal.
    subst indices. rewrite map_map. reflexivity.
  - pose proof (fill_loop_no_labels zero features indices 0 []
                  (repeat (repeat (repeat zero s) (ncols features)) (length indices))
                  eq_refl (repeat_length _ _)) as H.
    cbn [app] in H. rewrite H, Hmap. reflexivity.
Qed.

Lemma window_starts_empty (T s d : nat) : T < s -> window_starts T s d = [].
Proof.
  intros H. unfold window_starts, window_count.
  destruct (Nat.leb_spec s T); [lia | reflexivity].
Qed.

(** C7.  For every feature matrix with T rows, seq_len s >= 1 and stride
    d >= 1 (labels, when given, covering the T rows), with fuel for the loop:
    the start offsets are exactly the multiples i*d with i*d + s <= T; the
    loop collects the windows (start, start+s) in that order; generate returns
    for each of them the slab features[start:start+s] (s rows, all inside the
    data) transposed to (features, time), and for labels the row at index
    start+s-1; T=5, s=3, d=1 gives the starts 0,1,2; and s > T gives empty
    tensors, not an error. *)
Theorem C7_windows_and_label_alignment {A} (zero : A)
    (features : ndarray2 A) (labels : option (label_array A)) (s d fuel : nat)
    (Hs : 1 <= s) (Hd : 1 <= d)
    (Hfuel : length (rows features) + 1 < fuel)
    (Hlab : forall lab, labels = Some lab ->
                        length (rows features) <= length (rows (as_2d lab))) :
  (forall st, In st (window_starts (length (rows features)) s d)
              <-> exists i, st = i * d /\ st + s <= length (rows features)) /\
  window_indices fuel {| seq_len := s; stride := d |} (length (rows features)) 0 []
  = Some (map (fun st => (st, st + s)) (window_starts (length (rows features)) s d)) /\
  generate zero fuel {| seq_len := s; stride := d |} features labels
  = Returned
      (map (fun st => transpose zero (ncols features)
                        (row_slice (rows features) st (st + s)))
           (window_starts (length (rows features)) s d),
       option_map
         (fun lab => map (fun st => nth (st + s - 1) (rows (as_2d lab)) [])
                         (window_starts (length (rows features)) s d))
         labels) /\
  (forall st, In st (window_starts (length (rows features)) s d) ->
     length (row_slice (rows features) st (st + s)) = s /\
     forall lab, labels = Some lab ->
       rows (as_2d lab) !! (st + s - 1)
       = Some (nth (st + s - 1) (rows (as_2d lab)) [])) /\
  window_starts 5 3 1 = [0; 1; 2] /\
  (length (rows features) < s ->
     generate zero fuel {| seq_len := s; stride := d |} features labels
     = Returned ([], option_map (fun _ => []) labels)).
Proof.
  pose proof (generate_returns zero features labels s d fuel Hs Hd Hfuel Hlab) as Hgen.
  split; [intros st; apply window_starts_spec, Hd|].
  split; [apply window_indices_returns; assumption|].
  split; [exact Hgen|].
  split.
  { intros st Hst. apply window_starts_spec in Hst; [|exact Hd].
    destruct Hst as (i & _ & Hfit). split.
    - unfold row_slice. rewrite length_take, length_drop. lia.
    - intros lab Hl. apply nth_lookup_lt. specialize (Hlab lab Hl). lia. }
  split; [reflexivity|].
  intros Hlt. rewrite Hgen, (window_starts_empty _ _ _ Hlt).
  destruct labels; reflexivity.
Qed.

(** Five timesteps, seq_len 3, stride 1: three windows, labels 2, 3, 4. *)
Lemma C7_witness :
  generate 0 7 {| seq_len := 3; stride := 1 |} features5 (Some labels5)
  = Returned ([[[10; 11; 12]; [20; 21; 22]];
               [[11; 12; 13]; [21; 22; 23]];
               [[12; 13; 14]; [22; 23; 24]]],
              Some [[2]; [3]; [4]]).
Proof.
  refine (proj1 (proj2 (proj2
    (C7_windows_and_label_alignment 0 features5 (Some labels5) 3 1 7 _ _ _ _)))).
  - lia.
  - lia.
  - cbn; lia.
  - intros lab [= <-]. cbn. lia.
Defined.

End WindowerProofs.

(** ** TCN causality *)
Module TCNProofs.
Import TCN ListFacts.

Section Causality.
Context {A : Type} (zero : A) (add mul : A -> A -> A) (relu : A -> A).

Local Abbreviation Conv1d := (@TCN.Conv1d A).
Local Abbreviation TemporalBlock := (@TCN.TemporalBlock A).
Local Abbreviation BlockParams := (@TCN.BlockParams A).
Local Abbreviation TCNBackbone := (@TCN.TCNBackbone A).
Local Abbreviation conv_at := (TCN.conv_at zero add mul).
Local Abbreviation conv_forward := (TCN.conv_forward zero add mul).
Local Abbreviation sum_over := (TCN.sum_over zero add).
Local Abbreviation pad := (TCN.pad zero).
Local Abbreviation relu_forward := (TCN.relu_forward relu).
Local Abbreviation tensor_add := (TCN.tensor_add add).
Local Abbreviation block_activations := (TCN.block_activations zero add mul relu).
Local Abbreviation block_forward := (TCN.block_forward zero add mul relu).
Local Abbreviation sequential_activations := (TCN.sequential_activations zero add mul relu).
Local Abbreviation backbone_forward := (TCN.backbone_forward zero add mul relu).
Local Abbreviation backbone_activations := (TCN.backbone_activations zero add mul relu).

(** Two channels of one length that agree on the timesteps before [n]. *)
Definition agree_channel (n : nat) (a b : list A) : Prop :=
  length a = length b /\ take n a = take n b.

Lemma agree_before_channels (n : nat) (x y : list (list A)) :
  agree_before n x y <-> Forall2 (agree_channel n) x y.
Proof. reflexivity. Qed.

Lemma agree_channel_nth (n : nat) (a b : list A) (i : nat) :
  agree_channel n a b -> i < n -> nth i a zero = nth i b zero.
Proof.
  intros [_ Ht] Hi. rewrite !nth_lookup.
  rewrite <- (lookup_take_lt a n i), <- (lookup_take_lt b n i) by exact Hi.
  rewrite Ht. reflexivity.
Qed.

Lemma agree_before_nth (n : nat) (x y : list (list A)) (ci : nat) :
  agree_before n x y -> agree_channel n (nth ci x []) (nth ci y []).
Proof.
  intros H. revert ci. induction H as [|a b x y Hab _ IH]; intros [|ci]; cbn;
    try (split; reflexivity); auto.
Qed.

Lemma agree_before_time_len (n : nat) (x y : list (list A)) :
  agree_before n x y -> time_len x = time_len y.
Proof. intros H. unfold time_len. destruct H as [|a b x y [Hl _] _]; cbn; auto. Qed.

(** Index [i] of a padded channel. *)
Lemma pad_nth (p : nat) (ch : list A) (i : nat) :
  nth i (pad p ch) zero = if i <? p then zero else nth (i - p) ch zero.
Proof.
  unfold TCN.pad. destruct (Nat.ltb_spec i p) as [Hi|Hi].
  - rewrite app_nth1 by (rewrite repeat_length; exact Hi). apply nth_repeat.
  - rewrite app_nth2 by (rewrite repeat_length; exact Hi). rewrite repeat_length.
    destruct (Nat.lt_ge_cases (i - p) (length ch)) as [Hc|Hc].
    + apply app_nth1, Hc.
    + rewrite app_nth2 by exact Hc. rewrite nth_repeat.
      symmetry. apply nth_overflow, Hc.
Qed.

Lemma fold_add_ext (l : list nat) (f g : nat -> A) (acc : A) :
  (forall i, In i l -> f i = g i) ->
  fold_left (fun a i => add a (f i)) l acc = fold_left (fun a i => add a (g i)) l acc.
Proof.
  revert acc. induction l as [|i l IH]; intros acc Hin; [reflexivity|].
  cbn. rewrite (Hin i) by (left; reflexivity).
  apply IH. intros k Hk. apply Hin. right. exact Hk.
Qed.

Lemma sum_over_ext (n : nat) (f g : nat -> A) :
  (forall i, i < n -> f i = g i) -> sum_over n f = sum_over n g.
Proof.
  intros H. unfold TCN.sum_over. apply fold_add_ext.
  intros i Hi. apply H. apply in_seq in Hi. lia.
Qed.

(** A convolution reads, for output timestep [t], the input timesteps
    [t*stride + j*dilation - padding] for the taps [j < kernel_size]. *)
Definition causal_conv (c : Conv1d) : Prop :=
  stride c = 1 /\ dilation c * (kernel_size c - 1) <= padding c.

Lemma conv_at_agree (c : Conv1d) (n : nat) (x y : list (list A)) (o t : nat) :
  causal_conv c -> agree_before n x y -> t < n ->
  conv_at c x o t = conv_at c y o t.
Proof.
  intros [Hst Hpad] Hag Ht. unfold TCN.conv_at. f_equal.
  apply sum_over_ext. intros ci _. apply sum_over_ext. intros j Hj. f_equal.
  rewrite !pad_nth.
  destruct (t * stride c + j * dilation c <? padding c); [reflexivity|].
  apply (agree_channel_nth n); [apply agree_before_nth, Hag|].
  assert (j * dilation c <= dilation c * (kernel_size c - 1)) by nia.
  rewrite Hst. lia.
Qed.

Lemma Forall2_map_both {B C D} (P : C -> D -> Prop) (f : B -> C) (g : B -> D)
    (l : list B) :
  (forall b, P (f b) (g b)) -> Forall2 P (map f l) (map g l).
Proof. intros H. induction l; cbn; constructor; auto. Qed.

Lemma take_map_seq {B} (f : nat -> B) (n m : nat) :
  take n (map f (seq 0 m)) = map f (seq 0 (Nat.min n m)).
Proof.
  rewrite map_fmap_stdpp, <- fmap_take. f_equal.
  apply list_eq. intros i.
  destruct (Nat.lt_ge_cases i (Nat.min n m)) as [Hi|Hi].
  - rewrite lookup_take_lt, !lookup_seq_lt by lia. reflexivity.
  - rewrite (lookup_seq_ge 0 (Nat.min n m)) by lia.
    destruct (Nat.lt_ge_cases i n).
    + rewrite lookup_take_lt by lia. apply lookup_seq_ge. lia.
    + apply lookup_take_ge. lia.
Qed.

Theorem conv_causal (c : Conv1d) (n : nat) (x y : list (list A)) :
  causal_conv c -> agree_before n x y ->
  agree_before n (conv_forward c x) (conv_forward c y).
Proof.
  intros Hc Hag. unfold TCN.conv_forward.
  rewrite <- (agree_before_time_len n x y Hag).
  apply Forall2_map_both. intros o. split.
  - rewrite !length_map. reflexivity.
  - rewrite !take_map_seq. apply map_ext_in. intros t Ht.
    apply in_seq in Ht. apply (conv_at_agree c n); [assumption..|lia].
Qed.

Theorem chomp_causal (m : Chomp1d) (n : nat) (x y : list (list A)) :
  agree_before n x y ->
  agree_before n (chomp_forward m x) (chomp_forward m y).
Proof.
  intros Hag. unfold chomp_forward. destruct (chomp_size m =? 0); [exact Hag|].
  induction Hag as [|a b x y [Hl Ht] _ IH]; cbn; constructor; [|exact IH].
  split.
  - rewrite !length_take, Hl. reflexivity.
  - rewrite !take_take, Hl, !(Nat.min_comm n), <- !take_take, Ht. reflexivity.
Qed.

Theorem relu_causal (n : nat) (x y : list (list A)) :
  agree_before n x y -> agree_before n (relu_forward x) (relu_forward y).
Proof.
  intros Hag. unfold TCN.relu_forward.
  induction Hag as [|a b x y [Hl Ht] _ IH]; cbn; constructor; [|exact IH].
  split.
  - rewrite !length_map, Hl. reflexivity.
  - rewrite !map_fmap_stdpp, <- !fmap_take, Ht. reflexivity.
Qed.

Theorem tensor_add_causal (n : nat) (x y x' y' : list (list A)) :
  agree_before n x y -> agree_before n x' y' ->
  agree_before n (tensor_add x x') (tensor_add y y').
Proof.
  intros Hag. unfold TCN.tensor_add. revert x' y'.
  induction Hag as [|a b x y [Hl Ht] _ IH]; intros x' y' Hag'.
  - destruct Hag'; constructor.
  - destruct Hag' as [|a' b' x' y' [Hl' Ht'] Hag']; cbn; constructor.
    + split.
      * rewrite !length_zip_with, Hl, Hl'. reflexivity.
      * rewrite !zip_with_take, Ht, Ht'. reflexivity.
    + apply IH, Hag'.
Qed.

(** A block whose convolutions are causal. *)
Definition causal_block (b : TemporalBlock) : Prop :=
  causal_conv (conv1 b) /\ causal_conv (conv2 b) /\
  match downsample b with Some d => causal_conv d | None => True end.

Lemma block_forward_last (b : TemporalBlock) (x : list (list A)) :
  last (block_activations b x) = Some (block_forward b x).
Proof. reflexivity. Qed.

Theorem block_causal (b : TemporalBlock) (n : nat) (x y : list (list A)) :
  causal_block b -> agree_before n x y ->
  Forall2 (agree_before n) (block_activations b x) (block_activations b y) /\
  agree_before n (block_forward b x) (block_forward b y).
Proof.
  intros (H1 & H2 & Hd) Hag.
  unfold TCN.block_activations, TCN.block_forward, dropout_eval.
  pose proof (conv_causal (conv1 b) n x y H1 Hag) as A1.
  pose proof (chomp_causal (chomp1 b) n _ _ A1) as A2.
  pose proof (relu_causal n _ _ A2) as A3.
  pose proof (conv_causal (conv2 b) n _ _ H2 A3) as A5.
  pose proof (chomp_causal (chomp2 b) n _ _ A5) as A6.
  pose proof (relu_causal n _ _ A6) as A7.
  assert (Ares : agree_before n
            match downsample b with None => x | Some d => conv_forward d x end
            match downsample b with None => y | Some d => conv_forward d y end).
  { destruct (downsample b) as [d|]; [apply conv_causal; assumption | exact Hag]. }
  pose proof (relu_causal n _ _ (tensor_add_causal n _ _ _ _ A7 Ares)) as Aout.
  split; [repeat constructor; assumption | exact Aout].
Qed.

Theorem sequential_causal (blocks : list TemporalBlock) (n : nat) :
  Forall causal_block blocks ->
  forall x y : list (list A), agree_before n x y ->
  Forall2 (agree_before n) (sequential_activations blocks x)
                           (sequential_activations blocks y) /\
  agree_before n (fold_left (fun h b => block_forward b h) blocks x)
                 (fold_left (fun h b => block_forward b h) blocks y).
Proof.
  induction 1 as [|b blocks Hb _ IH]; intros x y Hag.
  - split; [constructor | exact Hag].
  - destruct (block_causal b n x y Hb Hag) as [Hacts Hout].
    destruct (IH _ _ Hout) as [Hrest Hfinal].
    split; [apply Forall2_app; assumption | exact Hfinal].
Qed.

(** The blocks [TCNBackbone.__init__] builds are causal, whatever the kernel
    size, the channel widths and the parameters. *)
Lemma make_block_causal (in_ch out_ch kernel dil : nat) (bp : BlockParams) :
  causal_block (make_block in_ch out_ch kernel 1 dil ((kernel - 1) * dil) bp).
Proof.
  unfold causal_block, causal_conv, make_block. cbn.
  repeat split; try lia.
  destruct (in_ch =? out_ch); cbn; [exact I | split; lia].
Qed.

Lemma make_layers_causal (kernel : nat) (bps : nat -> BlockParams)
    (num_channels : list nat) (i in_ch : nat) :
  Forall causal_block (make_layers kernel bps i in_ch num_channels).
Proof.
  revert i in_ch. induction num_channels as [|out_ch rest IH]; intros i in_ch; cbn.
  - constructor.
  - constructor; [apply make_block_causal | apply IH].
Qed.

Lemma set_timestep_agree (t : nat) (vals : nat -> A) (x : list (list A)) :
  agree_before t x (set_timestep t vals x).
Proof.
  unfold set_timestep. revert vals.
  induction x as [|ch x IH]; intros vals; [constructor|].
  rewrite imap_cons. constructor; [|apply IH].
  split; [rewrite length_insert; reflexivity|].
  rewrite take_insert_ge by lia. reflexivity.
Qed.

(** *** Shapes: a block keeps the number of timesteps *)

Lemma time_len_shape (L : nat) (x : list (list A)) :
  x <> [] -> time_shape L x -> time_len x = L.
Proof.
  intros Hne Hs. unfold time_len. destruct Hs as [|ch x Hch _]; [congruence|].
  exact Hch.
Qed.

Lemma conv_forward_shape (c : Conv1d) (x : list (list A)) :
  length (conv_forward c x) = out_channels c /\
  time_shape (conv_out_len c (time_len x)) (conv_forward c x).
Proof.
  unfold TCN.conv_forward. split.
  - rewrite length_map. apply length_seq.
  - apply Forall_forall. intros ch Hin.
    apply list_elem_of_In, in_map_iff in Hin. destruct Hin as (o & <- & _).
    rewrite length_map. apply length_seq.
Qed.

Lemma chomp_forward_length (m : Chomp1d) (x : list (list A)) :
  length (chomp_forward m x) = length x.
Proof.
  unfold chomp_forward. destruct (chomp_size m =? 0); [reflexivity | apply length_map].
Qed.

Lemma chomp_forward_shape (m : Chomp1d) (L : nat) (x : list (list A)) :
  time_shape L x -> time_shape (L - chomp_size m) (chomp_forward m x).
Proof.
  intros Hs. unfold chomp_forward.
  destruct (Nat.eqb_spec (chomp_size m) 0) as [Hz|Hne].
  - rewrite Hz, Nat.sub_0_r. exact Hs.
  - induction Hs as [|ch x Hch _ IH]; cbn; constructor; [|exact IH].
    rewrite length_take, Hch. lia.
Qed.

Lemma relu_forward_shape (L : nat) (x : list (list A)) :
  time_shape L x -> time_shape L (relu_forward x).
Proof.
  intros Hs. unfold TCN.relu_forward.
  induction Hs as [|ch x Hch _ IH]; cbn; constructor; [|exact IH].
  rewrite length_map. exact Hch.
Qed.

Lemma tensor_add_shape (L : nat) (x y : list (list A)) :
  time_shape L x -> time_shape L y -> time_shape L (tensor_add x y).
Proof.
  intros Hx. unfold TCN.tensor_add. revert y.
  induction Hx as [|a x Ha _ IH]; intros y Hy; [constructor|].
  destruct Hy as [|b y Hb Hy]; cbn; constructor; [|apply IH, Hy].
  rewrite length_zip_with. lia.
Qed.

(** Output length of a convolution padded by [(kernel-1)*dilation], after
    the chomp of that padding. *)
Lemma causal_stage_len (c : Conv1d) (L : nat) :
  stride c = 1 -> padding c = (kernel_size c - 1) * dilation c ->
  conv_out_len c L - padding c = L /\ (padding c = 0 -> conv_out_len c L = L).
Proof.
  intros Hst Hp. unfold conv_out_len. rewrite Hst, Nat.div_1_r.
  replace (dilation c * (kernel_size c - 1)) with (padding c) by lia.
  destruct (Nat.ltb_spec (L + 2 * padding c) (padding c + 1)); lia.
Qed.

Lemma causal_stage_shape (c : Conv1d) (L : nat) (x : list (list A)) :
  stride c = 1 -> padding c = (kernel_size c - 1) * dilation c ->
  x <> [] -> time_shape L x ->
  length (chomp_forward {| chomp_size := padding c |} (conv_forward c x))
  = out_channels c /\
  time_shape L (chomp_forward {| chomp_size := padding c |} (conv_forward c x)).
Proof.
  intros Hst Hp Hne Hs.
  destruct (conv_forward_shape c x) as [Hlen Hshape].
  rewrite (time_len_shape L x Hne Hs) in Hshape.
  destruct (causal_stage_len c L Hst Hp) as [Hsub _].
  split; [rewrite chomp_forward_length; exact Hlen|].
  rewrite <- Hsub at 1.
  apply (chomp_forward_shape {| chomp_size := padding c |}), Hshape.
Qed.

Lemma nonempty_length {B} (l : list B) : 1 <= length l -> l <> [].
Proof. destruct l; cbn; [lia | discriminate]. Qed.

Theorem block_time_shape (in_ch out_ch kernel dil : nat) (bp : BlockParams)
    (L : nat) (x : list (list A)) :
  1 <= out_ch -> x <> [] -> time_shape L x ->
  let b := make_block in_ch out_ch kernel 1 dil ((kernel - 1) * dil) bp in
  block_forward b x <> [] /\ time_shape L (block_forward b x).
Proof.
  intros Hout Hne Hs b. unfold TCN.block_forward, dropout_eval.
  destruct (causal_stage_shape (conv1 b) L x eq_refl eq_refl Hne Hs) as [Hl1 Hs1].
  change {| chomp_size := padding (conv1 b) |} with (chomp1 b) in Hl1, Hs1.
  set (a2 := chomp_forward (chomp1 b) (conv_forward (conv1 b) x)) in *.
  assert (Hl3 : length (relu_forward a2) = out_ch)
    by (unfold TCN.relu_forward; rewrite length_map; exact Hl1).
  pose proof (relu_forward_shape L a2 Hs1) as Hs3.
  assert (Hne3 : relu_forward a2 <> []) by (apply nonempty_length; lia).
  destruct (causal_stage_shape (conv2 b) L (relu_forward a2) eq_refl eq_refl
              Hne3 Hs3) as [Hl6 Hs6].
  change {| chomp_size := padding (conv2 b) |} with (chomp2 b) in Hl6, Hs6.
  set (a6 := chomp_forward (chomp2 b) (conv_forward (conv2 b) (relu_forward a2))) in *.
  pose proof (relu_forward_shape L a6 Hs6) as Hs7.
  assert (Hl7 : length (relu_forward a6) = out_ch)
    by (unfold TCN.relu_forward; rewrite length_map; exact Hl6).
  set (res := match downsample b with None => x | Some d => conv_forward d x end).
  assert (Hres : res <> [] /\ time_shape L res).
  { subst res b. cbn [downsample make_block].
    destruct (in_ch =? out_ch); [split; assumption|].
    match goal with |- context [conv_forward ?d x] => set (dconv := d) end.
    destruct (conv_forward_shape dconv x) as [Hld Hsd].
    rewrite (time_len_shape L x Hne Hs) in Hsd.
    destruct (causal_stage_len dconv L eq_refl eq_refl) as [_ Hz].
    rewrite (Hz eq_refl) in Hsd.
    split; [apply nonempty_length; rewrite Hld; exact Hout | exact Hsd]. }
  destruct Hres as [Hrne Hrs].
  split.
  - apply nonempty_length.
    assert (Hlr : forall z, length (relu_forward z) = length z)
      by (intros z; apply length_map).
    rewrite Hlr. unfold TCN.tensor_add. rewrite length_zip_with, Hl7.
    destruct res; [congruence | cbn; lia].
  - apply relu_forward_shape, tensor_add_shape; assumption.
Qed.

Theorem layers_time_shape (kernel : nat) (bps : nat -> BlockParams) (L : nat)
    (num_channels : list nat) :
  Forall (fun c => 1 <= c) num_channels ->
  forall (i in_ch : nat) (x : list (list A)),
  x <> [] -> time_shape L x ->
  time_shape L (fold_left (fun h b => block_forward b h)
                          (make_layers kernel bps i in_ch num_channels) x).
Proof.
  induction 1 as [|out_ch rest Hout _ IH]; intros i in_ch x Hne Hs; [exact Hs|].
  cbn [make_layers fold_left].
  destruct (block_time_shape in_ch out_ch kernel (2 ^ i) (bps i) L x Hout Hne Hs)
    as [Hne' Hs'].
  apply IH; assumption.
Qed.

(** C1.  For every backbone the constructor builds (any feature count,
    channel widths, kernel size and parameters), in eval mode: if two inputs
    of one shape agree on the timesteps before n, then the backbone outputs
    and every intermediate activation agree on the timesteps before n, so
    the output at a timestep t depends on the input timesteps <= t only; in
    particular replacing the values of one timestep t (the last one, say)
    changes no activation and no output at an earlier timestep.  The output
    has the input's number of timesteps, so timesteps correspond. *)
Theorem C1_backbone_causal
    (num_features : nat) (num_channels : list nat) (kernel : nat)
    (bps : nat -> BlockParams) (x y : list (list A)) (n : nat)
    (Hagree : agree_before n x y) :
  agree_before n
    (backbone_forward (make_backbone num_features num_channels kernel bps) x)
    (backbone_forward (make_backbone num_features num_channels kernel bps) y) /\
  (forall c t, t < n ->
     nth t (nth c (backbone_forward
                     (make_backbone num_features num_channels kernel bps) x) []) zero
     = nth t (nth c (backbone_forward
                       (make_backbone num_features num_channels kernel bps) y) []) zero) /\
  Forall2 (agree_before n)
    (backbone_activations (make_backbone num_features num_channels kernel bps) x)
    (backbone_activations (make_backbone num_features num_channels kernel bps) y) /\
  (forall t vals,
     agree_before t
       (backbone_forward (make_backbone num_features num_channels kernel bps) x)
       (backbone_forward (make_backbone num_features num_channels kernel bps)
          (set_timestep t vals x)) /\
     Forall2 (agree_before t)
       (backbone_activations (make_backbone num_features num_channels kernel bps) x)
       (backbone_activations (make_backbone num_features num_channels kernel bps)
          (set_timestep t vals x))) /\
  (forall L, Forall (fun c => 1 <= c) num_channels -> x <> [] -> time_shape L x ->
     time_shape L
       (backbone_forward (make_backbone num_features num_channels kernel bps) x)).
Proof.
  unfold TCN.backbone_forward, TCN.backbone_activations, make_backbone.
  cbn [network].
  pose proof (make_layers_causal kernel bps num_channels 0 num_features) as Hc.
  destruct (sequential_causal _ n Hc x y Hagree) as [Hacts Hout].
  split; [exact Hout|]. split.
  { intros c t Ht. apply (agree_channel_nth n); [|exact Ht].
    apply agree_before_nth, Hout. }
  split; [exact Hacts|]. split.
  - intros t vals.
    destruct (sequential_causal _ t Hc x _ (set_timestep_agree t vals x)) as [Ha Ho].
    split; assumption.
  - intros L Hch Hne Hs. apply layers_time_shape; assumption.
Qed.

End Causality.

(** A two-block backbone on integers: kernel size 3, one input feature, two
    channels per block. *)
Definition demo_conv_params : ConvParams :=
  {| weight := fun o c j => Z.of_nat (o + 2 * c + 3 * j + 1);
     bias := fun o => Z.of_nat o |}.
Definition demo_block_params : BlockParams :=
  {| conv1_params := demo_conv_params;
     conv2_params := demo_conv_params;
     downsample_params := demo_conv_params |}.
Definition demo_backbone : TCNBackbone :=
  make_backbone 1 [2; 2] 3 (fun _ => demo_block_params).

(** Two inputs that differ in the last of five timesteps only. *)
Lemma C1_witness :
  agree_before 4 [[1; 2; 3; 4; 5]%Z] [[1; 2; 3; 4; 50]%Z] /\
  agree_before 4
    (backbone_forward 0%Z Z.add Z.mul (Z.max 0) demo_backbone [[1; 2; 3; 4; 5]%Z])
    (backbone_forward 0%Z Z.add Z.mul (Z.max 0) demo_backbone [[1; 2; 3; 4; 50]%Z]).
Proof.
  assert (H : agree_before 4 [[1; 2; 3; 4; 5]%Z] [[1; 2; 3; 4; 50]%Z])
    by (repeat constructor).
  split; [exact H|].
  exact (proj1 (C1_backbone_causal 0%Z Z.add Z.mul (Z.max 0) 1 [2; 2] 3
                  (fun _ => demo_block_params) _ _ 4 H)).
Defined.

End TCNProofs.

(** * Further properties of the code *)

(** ** Heikin-Ashi: no look-ahead, and bounds *)
Module HeikinAshiMore.
Import HeikinAshi ListFacts HeikinAshiProofs.
Local Open Scope Q_scope.

(** Two arrays filled by the recurrence from the same first value and from
    close columns that agree on the rows before [k] agree on those rows. *)
Lemma filled_to_agree (hc hc' : list Q) (n n' k : nat) (init : Q) (a a' : list Q) :
  (k <= n)%nat -> (k <= n')%nat ->
  (forall i, (i < k)%nat -> nth i hc 0 = nth i hc' 0) ->
  filled_to hc n init (n - 1) a -> filled_to hc' n' init (n' - 1) a' ->
  forall i, (i < k)%nat -> nth i a 0 = nth i a' 0.
Proof.
  intros Hk Hk' Hhc (_ & H0 & Hrec) (_ & H0' & Hrec') i.
  induction i as [|i IH]; intros Hi.
  - congruence.
  - rewrite Hrec, Hrec' by lia. replace (S i - 1)%nat with i by lia.
    rewrite IH, Hhc by lia. reflexivity.
Qed.

Lemma ha_close_col_take (ohlcv : list Bar) (k : nat) :
  ha_close_col (take k ohlcv) = take k (ha_close_col ohlcv).
Proof. unfold ha_close_col. rewrite !map_fmap_stdpp. apply fmap_take. Qed.

Lemma zip3_take (f : Q -> Q -> Q -> Q) (a b c : list Q) (k : nat) :
  zip3 f (take k a) (take k b) (take k c) = take k (zip3 f a b c).
Proof.
  revert a b c.
  induction k as [|k IH]; intros [|x a] [|y b] [|z c]; cbn; try reflexivity.
  f_equal. apply IH.
Qed.

Lemma nth_take_lt {A} (l : list A) (k i : nat) (d : A) :
  (i < k)%nat -> nth i (take k l) d = nth i l d.
Proof. intros H. rewrite !nth_lookup, lookup_take_lt by exact H. reflexivity. Qed.

Lemma list_eq_nth {A} (d : A) (l1 l2 : list A) :
  length l1 = length l2 ->
  (forall i, (i < length l1)%nat -> nth i l1 d = nth i l2 d) -> l1 = l2.
Proof.
  intros Hl H. apply list_eq. intros i.
  destruct (Nat.lt_ge_cases i (length l1)) as [Hi|Hi].
  - rewrite (nth_lookup_lt l1 i d), (nth_lookup_lt l2 i d) by lia.
    rewrite H by exact Hi. reflexivity.
  - rewrite !lookup_ge_None_2 by lia. reflexivity.
Qed.

(** X1.  The transform never looks ahead: on the first k >= 1 bars of a table
    it returns the first k rows of what it returns on the whole table, in all
    four columns. *)
Theorem X1_heikin_ashi_prefix (ohlcv : list Bar) (k : nat)
    (Hk : (1 <= k <= length ohlcv)%nat) :
  exists ha hak,
    compute_heikin_ashi ohlcv = Some ha /\
    compute_heikin_ashi (take k ohlcv) = Some hak /\
    ha_close hak = take k (ha_close ha) /\
    ha_open hak = take k (ha_open ha) /\
    ha_high hak = take k (ha_high ha) /\
    ha_low hak = take k (ha_low ha).
Proof.
  destruct ohlcv as [|b0 rest] eqn:E; [cbn in Hk; lia|]. rewrite <- E in *.
  assert (Hlt : length (take k ohlcv) = k) by (rewrite length_take; lia).
  destruct (compute_heikin_ashi_returns ohlcv) as (ho & Hret & Hfill);
    [subst; discriminate|].
  destruct (compute_heikin_ashi_returns (take k ohlcv)) as (hok & Hretk & Hfillk).
  { intros Hnil. rewrite Hnil in Hlt. cbn in Hlt. lia. }
  assert (Hb0 : ohlcv !! 0%nat = Some b0) by (subst; reflexivity).
  assert (Hb0k : take k ohlcv !! 0%nat = Some b0)
    by (rewrite lookup_take_lt by lia; exact Hb0).
  specialize (Hfill b0 Hb0). specialize (Hfillk b0 Hb0k). rewrite Hlt in Hfillk.
  assert (Hopen : hok = take k ho).
  { pose proof (proj1 Hfill) as Hl. pose proof (proj1 Hfillk) as Hlk.
    apply (list_eq_nth 0); [rewrite length_take; lia|].
    intros i Hi. rewrite nth_take_lt by lia. symmetry.
    apply (filled_to_agree (ha_close_col ohlcv) (ha_close_col (take k ohlcv))
             (length ohlcv) k k ((open b0 + close b0) / 2) ho hok);
      try assumption; try lia.
    intros j Hj. rewrite ha_close_col_take, nth_take_lt by lia. reflexivity. }
  eexists _, _. split; [exact Hret|]. split; [exact Hretk|].
  cbn [ha_close ha_open ha_high ha_low].
  split; [apply ha_close_col_take|]. split; [exact Hopen|].
  unfold maximum_reduce3, minimum_reduce3.
  rewrite Hopen, ha_close_col_take, <- !zip3_take, !map_fmap_stdpp, !fmap_take.
  split; reflexivity.
Qed.

Lemma X1_witness :
  exists ha hak,
    compute_heikin_ashi fixture3 = Some ha /\
    compute_heikin_ashi (take 2 fixture3) = Some hak /\
    ha_close hak = take 2 (ha_close ha) /\
    ha_open hak = take 2 (ha_open ha) /\
    ha_high hak = take 2 (ha_high ha) /\
    ha_low hak = take 2 (ha_low ha).
Proof.
  apply (X1_heikin_ashi_prefix fixture3 2). cbn. lia.
Defined.

Definition within (lo hi v : Q) : Prop := lo <= v <= hi.

Definition bar_within (lo hi : Q) (b : Bar) : Prop :=
  within lo hi (open b) /\ within lo hi (high b) /\
  within lo hi (low b) /\ within lo hi (close b).

Lemma zip3_Forall (P : Q -> Prop) (f : Q -> Q -> Q -> Q) (a b c : list Q) :
  (forall x y z, P x -> P y -> P z -> P (f x y z)) ->
  Forall P a -> Forall P b -> Forall P c -> Forall P (zip3 f a b c).
Proof.
  intros Hf Ha. revert b c.
  induction Ha as [|x a Hx _ IH]; intros b c Hb Hc; [constructor|].
  destruct Hb as [|y b Hy Hb]; [constructor|].
  destruct Hc as [|z c Hz Hc]; [constructor|].
  cbn. constructor; [apply Hf; assumption | apply IH; assumption].
Qed.

Lemma within_max (lo hi x y : Q) :
  within lo hi x -> within lo hi y -> within lo hi (Qmax x y).
Proof.
  unfold within. intros Hx Hy.
  destruct (Q.max_spec x y) as [[_ ->]|[_ ->]]; assumption.
Qed.

Lemma within_min (lo hi x y : Q) :
  within lo hi x -> within lo hi y -> within lo hi (Qmin x y).
Proof.
  unfold within. intros Hx Hy.
  destruct (Q.min_spec x y) as [[_ ->]|[_ ->]]; assumption.
Qed.

Lemma filled_to_within (hc : list Q) (n : nat) (init lo hi : Q) (a : list Q) :
  filled_to hc n init (n - 1) a ->
  within lo hi init -> Forall (within lo hi) hc -> length hc = n ->
  Forall (within lo hi) a.
Proof.
  intros (Hl & H0 & Hrec) Hinit Hhc Hlhc.
  apply (Forall_nth _ 0). rewrite Hl. intros i.
  induction i as [|i IH]; intros Hi.
  - rewrite H0. exact Hinit.
  - rewrite Hrec by lia. replace (S i - 1)%nat with i by lia.
    specialize (IH ltac:(lia)).
    assert (Hc : within lo hi (nth i hc 0))
      by (apply (proj1 (Forall_nth _ 0 hc) Hhc); lia).
    unfold within in *. split.
    + apply Qle_shift_div_l; lra.
    + apply Qle_shift_div_r; lra.
Qed.



(** X3.  On an empty table the transform raises (the write to ha_open[0]
    is out of range); on every other table it returns four columns with one
    row per input bar. *)
Theorem X3_heikin_ashi_returns_iff_nonempty (ohlcv : list Bar) :
  (compute_heikin_ashi ohlcv = None <-> ohlcv = []) /\
  (forall ha, compute_heikin_ashi ohlcv = Some ha ->
     length (ha_close ha) = length ohlcv /\
     length (ha_open ha) = length ohlcv /\
     length (ha_high ha) = length ohlcv /\
     length (ha_low ha) = length ohlcv).
Proof.
  destruct ohlcv as [|b0 rest] eqn:E.
  - split; [split; reflexivity | discriminate].
  - rewrite <- E.
    destruct (compute_heikin_ashi_returns ohlcv) as (ho & Hret & Hfill);
      [subst; discriminate|].
    destruct (Hfill b0 ltac:(subst; reflexivity)) as (Hlen & _).
    assert (Hlc : length (ha_close_col ohlcv) = length ohlcv)
      by (unfold ha_close_col; apply length_map).
    split.
    + rewrite Hret. split; [discriminate | subst; discriminate].
    + intros ha Hha. rewrite Hret in Hha. injection Hha as <-.
      cbn [ha_close ha_open ha_high ha_low].
      unfold maximum_reduce3, minimum_reduce3.
      rewrite !zip3_length by (rewrite ?length_map; congruence).
      rewrite !length_map. auto.
Qed.

End HeikinAshiMore.

(** ** Heikin-Ashi on a frame with named columns: the validation *)
Module HeikinAshiFrameProofs.
Import HeikinAshi HeikinAshiFrame.
Local Open Scope Q_scope.
Local Open Scope string_scope.

Lemma missing_columns_spec (df : OhlcvFrame) (name : string) :
  In name (missing_columns df) <->
  In name required_columns /\ has_column df name = false.
Proof.
  unfold missing_columns. rewrite <- list_elem_of_In, list_elem_of_filter.
  rewrite list_elem_of_In. destruct (has_column df name); cbn; intuition congruence.
Qed.

Lemma missing_nil_iff (df : OhlcvFrame) :
  missing_columns df = [] <-> forallb (has_column df) required_columns = true.
Proof.
  rewrite forallb_forall. split.
  - intros Hm name Hin. destruct (has_column df name) eqn:E; [reflexivity|].
    assert (Hx : In name (missing_columns df)) by (apply missing_columns_spec; auto).
    rewrite Hm in Hx. destruct Hx.
  - intros Hall. destruct (missing_columns df) as [|name l] eqn:E; [reflexivity|].
    assert (Hx : In name (missing_columns df)) by (rewrite E; left; reflexivity).
    apply missing_columns_spec in Hx. destruct Hx as [Hin Hf].
    rewrite (Hall name Hin) in Hf. discriminate.
Qed.


End HeikinAshiFrameProofs.

(** ** Label generator: what the flags mean *)
Module LabelerMore.
Import Labeler ListFacts LabelerProofs.
Local Open Scope Q_scope.

Lemma fold_max_ge_iff (thr r : Q) (rs : list Q) :
  thr <= fold_left Qmax rs r <-> thr <= r \/ Exists (fun x => thr <= x) rs.
Proof.
  revert r. induction rs as [|x rs IH]; intros r; cbn.
  - rewrite Exists_nil. tauto.
  - rewrite IH, Q.max_le_iff, Exists_cons. tauto.
Qed.

Lemma fold_min_le_iff (thr r : Q) (rs : list Q) :
  fold_left Qmin rs r <= thr <-> r <= thr \/ Exists (fun x => x <= thr) rs.
Proof.
  revert r. induction rs as [|x rs IH]; intros r; cbn.
  - rewrite Exists_nil. tauto.
  - rewrite IH, Q.min_le_iff, Exists_cons. tauto.
Qed.

Lemma np_max_ge_iff (thr : Q) (rets : list Q) :
  rets <> [] -> (thr <= np_max rets <-> Exists (fun x => thr <= x) rets).
Proof.
  destruct rets as [|r rs]; [congruence|]. intros _.
  cbn. rewrite fold_max_ge_iff, Exists_cons. tauto.
Qed.

Lemma np_min_le_iff (thr : Q) (rets : list Q) :
  rets <> [] -> (np_min rets <= thr <-> Exists (fun x => x <= thr) rets).
Proof.
  destruct rets as [|r rs]; [congruence|]. intros _.
  cbn. rewrite fold_min_le_iff, Exists_cons. tauto.
Qed.

(** Row [k] is a forward row of row [i]. *)
Definition forward_row (n : nat) (horizon : Z) (i k : nat) : Prop :=
  (i < k)%nat /\ (k < n)%nat /\ (Z.of_nat k <= Z.of_nat i + horizon)%Z.

(** The forward returns of row [i], read row by row. *)
Lemma forward_returns_rows (values : list Q) (horizon : Z) (i : nat) :
  match forward_returns values horizon i with
  | None => forall k, ~ forward_row (length values) horizon i k
  | Some rets =>
      rets <> [] /\
      forall P : Q -> Prop,
        Exists P rets <->
        exists k v, forward_row (length values) horizon i k /\
                    values !! k = Some v /\ P (v / nth i values 0 - 1)
  end.
Proof.
  unfold forward_returns, forward_window, forward_row.
  set (n := length values).
  set (j := Z.min (Z.of_nat n) (Z.of_nat i + horizon + 1)).
  destruct (j - Z.of_nat i <=? 1)%Z eqn:Hguard.
  - apply Z.leb_le in Hguard. intros k. subst j. lia.
  - apply Z.leb_gt in Hguard. unfold slice_.
    set (w := take (Z.to_nat j - (i + 1)) (drop (i + 1) values)).
    assert (Hlw : length w = (Z.to_nat j - (i + 1))%nat).
    { subst w. rewrite length_take, length_drop. subst j n. lia. }
    split.
    + intros Hnil. apply (f_equal length) in Hnil.
      rewrite length_map, Hlw in Hnil. cbn in Hnil. subst j. lia.
    + intros P. rewrite Exists_exists. split.
      * intros (r & Hin & HP). apply list_elem_of_In, in_map_iff in Hin.
        destruct Hin as (v & <- & Hv). apply list_elem_of_In in Hv.
        apply list_elem_of_lookup in Hv. destruct Hv as [m Hm].
        assert (Hmlt : (m < Z.to_nat j - (i + 1))%nat)
          by (rewrite <- Hlw; eapply lookup_lt_Some; exact Hm).
        subst w. rewrite lookup_take_lt, lookup_drop in Hm by exact Hmlt.
        exists (i + 1 + m)%nat, v. split; [subst j n; lia|]. split; assumption.
      * intros (k & v & (Hik & Hkn & Hkh) & Hv & HP).
        exists (v / nth i values 0 - 1). split; [|exact HP].
        apply list_elem_of_In, in_map_iff. exists v. split; [reflexivity|].
        apply list_elem_of_In, list_elem_of_lookup. exists (k - (i + 1))%nat.
        subst w. rewrite lookup_take_lt, lookup_drop by (subst j n; lia).
        replace (i + 1 + (k - (i + 1)))%nat with k by lia. exact Hv.
Qed.

Lemma entry_flag_one_iff (values : list Q) (horizon : Z) (te : Q) (i : nat) :
  entry_flag te (option_map np_max (forward_returns values horizon i)) = 1 <->
  exists k v, forward_row (length values) horizon i k /\
              values !! k = Some v /\ te <= v / nth i values 0 - 1.
Proof.
  pose proof (forward_returns_rows values horizon i) as H.
  destruct (forward_returns values horizon i) as [rets|]; cbn.
  - destruct H as [Hne H]. rewrite <- (H (fun r => te <= r)), <- np_max_ge_iff by exact Hne.
    destruct (Qle_bool te (np_max rets)) eqn:E.
    + apply Qle_bool_iff in E. tauto.
    + split; [discriminate|]. intros Hle. apply Qle_bool_iff in Hle. congruence.
  - split; [discriminate|]. intros (k & v & Hk & _). destruct (H k Hk).
Qed.

Lemma exit_flag_one_iff (values : list Q) (horizon : Z) (tx : Q) (i : nat) :
  exit_flag tx (option_map np_min (forward_returns values horizon i)) = 1 <->
  exists k v, forward_row (length values) horizon i k /\
              values !! k = Some v /\ v / nth i values 0 - 1 <= - tx.
Proof.
  pose proof (forward_returns_rows values horizon i) as H.
  destruct (forward_returns values horizon i) as [rets|]; cbn.
  - destruct H as [Hne H]. rewrite <- (H (fun r => r <= - tx)), <- np_min_le_iff by exact Hne.
    destruct (Qle_bool (np_min rets) (- tx)) eqn:E.
    + apply Qle_bool_iff in E. tauto.
    + split; [discriminate|]. intros Hle. apply Qle_bool_iff in Hle. congruence.
  - split; [discriminate|]. intros (k & v & Hk & _). destruct (H k Hk).
Qed.

Lemma entry_flag_binary (te : Q) (M : option Q) :
  entry_flag te M = 0 \/ entry_flag te M = 1.
Proof. unfold entry_flag. destruct M as [v|]; [destruct (Qle_bool te v)|]; auto. Qed.

Lemma exit_flag_binary (tx : Q) (m : option Q) :
  exit_flag tx m = 0 \/ exit_flag tx m = 1.
Proof. unfold exit_flag. destruct m as [v|]; [destruct (Qle_bool v (- tx))|]; auto. Qed.



Lemma fold_insert_length {A} (g : nat -> option A) (ks : list nat) (l : list A) :
  length (fold_left (fun acc k => match g k with
                                  | Some v => <[ k := v ]> acc
                                  | None => acc
                                  end) ks l) = length l.
Proof.
  revert l. induction ks as [|k ks IH]; intros l; [reflexivity|].
  cbn [fold_left]. rewrite IH. destruct (g k); [apply length_insert | reflexivity].
Qed.

Lemma labels_length (close : list Q) (horizon : Z) (te tx : Q) :
  length (entry (generate_entry_exit_labels close horizon te tx)) = length close /\
  length (exit (generate_entry_exit_labels close horizon te tx)) = length close.
Proof.
  unfold generate_entry_exit_labels. rewrite forward_extrema_split.
  cbn [entry exit]. unfold fillna, ge_astype_float, le_astype_float.
  rewrite !length_map.
  rewrite (fold_insert_length (written_max close horizon)),
          (fold_insert_length (written_min close horizon)), repeat_length.
  split; reflexivity.
Qed.

(** X6.  The label table always has one row per price, and with a horizon
    of 0 or less every row is (0, 0): the loop skips every index. *)
Theorem X6_labels_shape_and_empty_horizon
    (close : list Q) (horizon : Z) (te tx : Q) :
  length (entry (generate_entry_exit_labels close horizon te tx)) = length close /\
  length (exit (generate_entry_exit_labels close horizon te tx)) = length close /\
  ((horizon <= 0)%Z ->
   forall i, (i < length close)%nat ->
     label_at (generate_entry_exit_labels close horizon te tx) i
     = Some (Some 0, Some 0)).
Proof.
  destruct (labels_length close horizon te tx) as [He Hx].
  split; [exact He|]. split; [exact Hx|].
  intros Hh i Hi. rewrite label_at_returns. case_decide; [|lia].
  assert (Hw : forward_window close horizon i = None).
  { unfold forward_window.
    destruct (Z.leb_spec (Z.min (Z.of_nat (length close)) (Z.of_nat i + horizon + 1)
                          - Z.of_nat i) 1); [reflexivity | lia]. }
  unfold forward_returns. rewrite Hw. reflexivity.
Qed.



End LabelerMore.

(** ** Rolling metrics: undefined values, prefixes, and what the slope is *)
Module RollingMore.
Import RollingMetrics ListFacts RollingMetricsProofs.
Local Open Scope Q_scope.

Lemma observations_length_le (win : column) :
  (length (observations win) <= length win)%nat /\
  (length (observations win) = length win <-> Forall defined win).
Proof.
  unfold observations. induction win as [|v win [IHle IHeq]]; cbn.
  - split; [lia|]. split; [constructor | reflexivity].
  - destruct v as [q|]; cbn.
    + split; [lia|]. rewrite Forall_cons, <- IHeq. unfold defined.
      split; [intros H; split; [discriminate | lia] | intros [_ H]; lia].
    + split; [lia|]. rewrite Forall_cons. unfold defined.
      split; [lia | intros [H _]; congruence].
Qed.

Lemma rolling_apply_lookup (w : nat) (f : list Q -> Q) (series : column) (i : nat) :
  (i < length series)%nat ->
  rolling_apply w f series !! i =
  Some (if (length (observations (window_rows series w i)) <? w)%nat then None
        else Some (f (observations (window_rows series w i)))).
Proof.
  intros Hi. unfold rolling_apply.
  rewrite lookup_map, lookup_seq_lt by exact Hi. reflexivity.
Qed.

Lemma window_rows_defined (series : column) (w i : nat) :
  (i < length series)%nat ->
  (Forall defined (window_rows series w i) <->
   forall k, (i + 1 - w <= k <= i)%nat -> exists v, series !! k = Some (Some v)).
Proof.
  intros Hi. unfold window_rows. rewrite Forall_lookup. split.
  - intros H k Hk.
    destruct (lookup_lt_is_Some_2 series k ltac:(lia)) as [x Hx].
    specialize (H (k - (i + 1 - w))%nat x).
    rewrite lookup_take_lt, lookup_drop in H by lia.
    replace (i + 1 - w + (k - (i + 1 - w)))%nat with k in H by lia.
    specialize (H Hx). destruct x as [v|]; [eauto | destruct H; reflexivity].
  - intros H j x Hx.
    assert (Hj : (j < i + 1 - (i + 1 - w))%nat).
    { apply lookup_lt_Some in Hx. rewrite length_take in Hx. lia. }
    rewrite lookup_take_lt, lookup_drop in Hx by exact Hj.
    destruct (H (i + 1 - w + j)%nat ltac:(lia)) as [v Hv].
    rewrite Hv in Hx. injection Hx as <-. discriminate.
Qed.

(** Row [i] of a rolling column is defined exactly when the window is
    complete and holds no undefined value. *)
Lemma rolling_apply_defined (w : nat) (f : list Q -> Q) (series : column) (i : nat) :
  (i < length series)%nat ->
  exists r, rolling_apply w f series !! i = Some r /\
    (defined r <->
     (w <= i + 1)%nat /\
     forall k, (i + 1 - w <= k <= i)%nat -> exists v, series !! k = Some (Some v)).
Proof.
  intros Hi. rewrite rolling_apply_lookup by exact Hi.
  eexists. split; [reflexivity|].
  rewrite <- window_rows_defined by exact Hi.
  destruct (observations_length_le (window_rows series w i)) as [Hle Heq].
  rewrite <- Heq. pose proof (window_rows_length series w i Hi) as Hlen.
  destruct (Nat.ltb_spec (length (observations (window_rows series w i))) w);
    unfold defined; split; try congruence; try lia.
Qed.

(** X8.  Undefined values propagate through the rolling slope window by
    window: row i of the slope (and of the angle) is defined exactly when
    i+1 >= w and the rows i-w+1 .. i of the input are all defined; a single
    undefined input row blanks the w rows whose windows contain it, and no
    others. *)
Theorem X8_rolling_slope_defined_iff
    (arctan_degrees : Q -> Q) (series : column) (w i : nat)
    (Hi : (i < length series)%nat) :
  exists s a,
    _rolling_slope series w !! i = Some s /\
    _angle_from_slope arctan_degrees (_rolling_slope series w) !! i = Some a /\
    (defined s <->
     (w <= i + 1)%nat /\
     forall k, (i + 1 - w <= k <= i)%nat -> exists v, series !! k = Some (Some v)) /\
    (defined a <-> defined s).
Proof.
  destruct (rolling_apply_defined w (slope_calc w) series i Hi) as (s & Hs & Hdef).
  exists s, (option_map arctan_degrees s).
  split; [exact Hs|]. split.
  - unfold _angle_from_slope. rewrite lookup_map. unfold _rolling_slope.
    rewrite Hs. reflexivity.
  - split; [exact Hdef|]. unfold defined. destruct s; cbn; split; congruence.
Qed.

(** One undefined row in the middle of a series, window 2. *)
Lemma X8_witness :
  exists s a,
    _rolling_slope [Some 1; Some 2; None; Some 4; Some 5] 2 !! 3%nat = Some s /\
    _angle_from_slope (fun x => x)
      (_rolling_slope [Some 1; Some 2; None; Some 4; Some 5] 2) !! 3%nat = Some a /\
    ~ defined s.
Proof.
  destruct (X8_rolling_slope_defined_iff (fun x => x)
              [Some 1; Some 2; None; Some 4; Some 5] 2 3 ltac:(cbn; lia))
    as (s & a & Hs & Ha & Hdef & _).
  exists s, a. split; [exact Hs|]. split; [exact Ha|].
  intros Hd. apply Hdef in Hd. destruct Hd as [_ Hd].
  destruct (Hd 2%nat ltac:(lia)) as [v Hv]. discriminate.
Defined.

Lemma window_rows_take (series : column) (w k i : nat) :
  (i < k)%nat -> window_rows (take k series) w i = window_rows series w i.
Proof.
  intros Hi. unfold window_rows. apply list_eq. intros j.
  destruct (Nat.lt_ge_cases j (i + 1 - (i + 1 - w))) as [Hj|Hj].
  - rewrite !lookup_take_lt, !lookup_drop by exact Hj.
    apply lookup_take_lt. lia.
  - rewrite !lookup_take_ge by exact Hj. reflexivity.
Qed.

Lemma rolling_apply_take (w : nat) (f : list Q -> Q) (series : column) (k : nat) :
  rolling_apply w f (take k series) = take k (rolling_apply w f series).
Proof.
  apply list_eq. intros i.
  assert (Hlen : forall s, length (rolling_apply w f s) = length s).
  { intros s'. unfold rolling_apply. rewrite length_map. apply length_seq. }
  destruct (Nat.lt_ge_cases i (Nat.min k (length series))) as [Hi|Hi].
  - rewrite lookup_take_lt by lia.
    rewrite !rolling_apply_lookup by (rewrite ?length_take; lia).
    rewrite window_rows_take by lia. reflexivity.
  - rewrite lookup_ge_None_2 by (rewrite Hlen, length_take; lia).
    symmetry. apply lookup_ge_None_2. rewrite length_take, Hlen. lia.
Qed.

Lemma diff_take (s : column) (k : nat) : diff (take k s) = take k (diff s).
Proof.
  unfold diff. rewrite zip_with_take.
  destruct k as [|k]; [reflexivity|].
  change (take (S k) (None :: s)) with (None :: take k s).
  apply list_eq. intros i. rewrite !lookup_zip_with.
  destruct i as [|i]; [reflexivity|].
  change ((None :: take (S k) s) !! S i) with (take (S k) s !! i).
  change ((None :: take k s) !! S i) with (take k s !! i).
  destruct (Nat.lt_ge_cases (S i) (S k)) as [Hi|Hi].
  - rewrite (lookup_take_lt s (S k) i), (lookup_take_lt s k i) by lia. reflexivity.
  - rewrite (lookup_take_ge s (S k) (S i)) by lia. reflexivity.
Qed.

(** X9.  The rolling metrics never look ahead: on the first k rows of a
    series, the slope, angle and acceleration columns are the first k rows
    of the columns computed on the whole series. *)
Theorem X9_rolling_metrics_prefix
    (arctan_degrees : Q -> Q) (series : column) (w k : nat) :
  _rolling_slope (take k series) w = take k (_rolling_slope series w) /\
  _angle_from_slope arctan_degrees (_rolling_slope (take k series) w)
    = take k (_angle_from_slope arctan_degrees (_rolling_slope series w)) /\
  _rolling_acceleration (take k series) w = take k (_rolling_acceleration series w) /\
  metrics_for_window arctan_degrees (take k series) w
    = map (fun c => (fst c, take k (snd c)))
          (metrics_for_window arctan_degrees series w).
Proof.
  assert (Hs : _rolling_slope (take k series) w = take k (_rolling_slope series w))
    by apply rolling_apply_take.
  assert (Ha : _angle_from_slope arctan_degrees (_rolling_slope (take k series) w)
               = take k (_angle_from_slope arctan_degrees (_rolling_slope series w))).
  { unfold _angle_from_slope. rewrite Hs, !map_fmap_stdpp, fmap_take. reflexivity. }
  assert (Hd : diff (_rolling_slope (take k series) w)
               = take k (diff (_rolling_slope series w)))
    by (rewrite Hs; apply diff_take).
  split; [exact Hs|]. split; [exact Ha|]. split; [exact Hd|].
  unfold metrics_for_window. cbn [map fst snd]. rewrite Ha, Hd, Hs. reflexivity.
Qed.

(** *** The slope of a series that is linear in the row number *)

Lemma rolling_sum_cons (x : Q) (l : list Q) : np_sum (x :: l) == x + np_sum l.
Proof. unfold np_sum. cbn. rewrite ScalerProofs.fold_Qplus_acc. lra. Qed.

Lemma np_sum_map_ext (F G : nat -> Q) (l : list nat) :
  (forall i, In i l -> F i == G i) -> np_sum (map F l) == np_sum (map G l).
Proof.
  induction l as [|i l IH]; intros H; [reflexivity|].
  cbn [map]. rewrite !rolling_sum_cons, (H i) by (left; reflexivity).
  rewrite IH by (intros k Hk; apply H; right; exact Hk). reflexivity.
Qed.

Lemma np_sum_map_scale (b : Q) (G : nat -> Q) (l : list nat) :
  np_sum (map (fun i => b * G i) l) == b * np_sum (map G l).
Proof.
  induction l as [|i l IH]; [unfold np_sum; cbn [map fold_left]; ring|].
  cbn [map]. rewrite !rolling_sum_cons, IH. ring.
Qed.

Lemma np_sum_map_affine (a b : Q) (G : nat -> Q) (l : list nat) :
  np_sum (map (fun i => a + b * G i) l)
  == a * inject_Z (Z.of_nat (length l)) + b * np_sum (map G l).
Proof.
  induction l as [|i l IH]; [unfold np_sum; cbn [map fold_left length]; ring|].
  cbn [map length]. rewrite !rolling_sum_cons, IH.
  rewrite Nat2Z.inj_succ. unfold Z.succ. rewrite inject_Z_plus.
  change (inject_Z 1) with 1. lra.
Qed.

Lemma zip_with_map_seq {B C D} (f : B -> C -> D) (g : nat -> B) (h : nat -> C)
    (l : list nat) :
  zip_with f (map g l) (map h l) = map (fun i => f (g i) (h i)) l.
Proof. induction l as [|i l IH]; cbn; [reflexivity | f_equal; exact IH]. Qed.

Lemma map_nth_seq (values : list Q) :
  values = map (fun j => nth j values 0) (seq 0 (length values)).
Proof.
  apply (HeikinAshiMore.list_eq_nth 0).
  - rewrite length_map, length_seq. reflexivity.
  - intros i Hi. rewrite (nth_lookup (map _ _)), lookup_map, lookup_seq_lt by exact Hi.
    reflexivity.
Qed.

(** The x-variance of a window of two or more rows is not zero. *)
Lemma denom_nonzero (w : nat) (m : Q) :
  (2 <= w)%nat -> ~ np_sum (map (fun xi => (xi - m) ^ 2) (arange w)) == 0.
Proof.
  intros Hw H. apply ScalerProofs.sum_squares_zero in H.
  assert (H0 : arange w !! 0%nat = Some (inject_Z 0)).
  { unfold arange. rewrite lookup_map, lookup_seq_lt by lia. reflexivity. }
  assert (H1 : arange w !! 1%nat = Some (inject_Z 1)).
  { unfold arange. rewrite lookup_map, lookup_seq_lt by lia. reflexivity. }
  pose proof (Forall_lookup_1 _ _ _ _ H H0) as E0.
  pose proof (Forall_lookup_1 _ _ _ _ H H1) as E1.
  cbn beta in E0, E1. rewrite <- E0 in E1. vm_compute in E1. discriminate.
Qed.

Lemma slope_calc_linear (w : nat) (values : list Q) (a b : Q) :
  (2 <= w)%nat -> length values = w ->
  (forall j, (j < w)%nat -> nth j values 0 == a + b * inject_Z (Z.of_nat j)) ->
  slope_calc w values == b.
Proof.
  intros Hw Hlen Hlin. unfold slope_calc. cbv zeta.
  set (xm := np_mean (arange w)).
  set (ym := np_mean values).
  set (denom := np_sum (map (fun xi => (xi - xm) ^ 2) (arange w))).
  pose proof (denom_nonzero w xm Hw) as Hden. fold denom in Hden.
  destruct (Qeq_bool denom 0) eqn:E; [apply Qeq_bool_eq in E; contradiction|].
  set (X := fun i : nat => inject_Z (Z.of_nat i)).
  assert (HW : ~ inject_Z (Z.of_nat w) == 0).
  { intros H0. assert (inject_Z 2 <= inject_Z (Z.of_nat w)) by (rewrite <- Zle_Qle; lia).
    rewrite H0 in H. vm_compute in H. apply H. reflexivity. }
  assert (Hxm : xm == np_sum (map X (seq 0 w)) / inject_Z (Z.of_nat w)).
  { subst xm. unfold np_mean, arange. rewrite length_map, length_seq. reflexivity. }
  assert (Hym : ym == a + b * xm).
  { subst ym. unfold np_mean. rewrite Hlen.
    rewrite (map_nth_seq values) at 1. rewrite Hlen.
    rewrite (np_sum_map_ext _ (fun j => a + b * X j))
      by (intros j Hj; apply Hlin; apply in_seq in Hj; lia).
    rewrite np_sum_map_affine, length_seq, Hxm. field. exact HW. }
  assert (Hnum : np_sum (zip_with (fun xi yi => (xi - xm) * (yi - ym)) (arange w) values)
                 == b * denom).
  { rewrite (map_nth_seq values), Hlen. unfold arange at 1.
    rewrite zip_with_map_seq. subst denom. unfold arange.
    rewrite map_map, <- np_sum_map_scale.
    apply np_sum_map_ext. intros j Hj. apply in_seq in Hj.
    rewrite (Hlin j) by lia. rewrite Hym. fold (X j). rewrite ScalerProofs.Qpower_2.
    ring. }
  rewrite Hnum. field. exact Hden.
Qed.

Lemma observations_map_Some (l : list Q) : observations (map Some l) = l.
Proof.
  unfold observations. induction l as [|x l IH]; [reflexivity|].
  cbn. f_equal. exact IH.
Qed.

Lemma window_rows_map_Some (vs : list Q) (w i : nat) :
  observations (window_rows (map Some vs) w i)
  = take (i + 1 - (i + 1 - w)) (drop (i + 1 - w) vs).
Proof.
  unfold window_rows.
  rewrite map_fmap_stdpp, <- fmap_drop, <- fmap_take, <- map_fmap_stdpp.
  apply observations_map_Some.
Qed.

Lemma all_defined_map_Some (vs : list Q) : Forall defined (map Some vs).
Proof.
  rewrite map_fmap_stdpp. apply Forall_fmap, Forall_forall. intros x _. discriminate.
Qed.

Lemma linear_slope_row (vs : list Q) (c b : Q) (w i : nat) :
  (2 <= w)%nat -> (w <= i + 1 <= length vs)%nat ->
  (forall k, (k < length vs)%nat -> nth k vs 0 == c + b * inject_Z (Z.of_nat k)) ->
  exists s, _rolling_slope (map Some vs) w !! i = Some (Some s) /\ s == b.
Proof.
  intros Hw Hi Hlin.
  rewrite rolling_slope_lookup
    by (try apply all_defined_map_Some; rewrite length_map; lia).
  destruct (Nat.ltb_spec (i + 1) w) as [|_]; [lia|].
  eexists. split; [reflexivity|]. rewrite window_rows_map_Some.
  set (a := (i + 1 - w)%nat).
  apply (slope_calc_linear w _ (c + b * inject_Z (Z.of_nat a)) b Hw).
  - rewrite length_take, length_drop. lia.
  - intros j Hj. rewrite nth_lookup, lookup_take_lt, lookup_drop, <- nth_lookup by lia.
    rewrite Hlin by lia. rewrite Nat2Z.inj_add, inject_Z_plus. ring.
Qed.

(** X10.  On a series that is linear in the row number, value[k] = c + b*k,
    the rolling least-squares slope over any window w >= 2 is exactly b on
    every row with a full window, and the acceleration is 0 from the next
    row on. *)
Theorem X10_slope_of_linear_series (vs : list Q) (c b : Q) (w i : nat)
    (Hw : (2 <= w)%nat) (Hi : (w <= i + 1 <= length vs)%nat)
    (Hlin : forall k, (k < length vs)%nat ->
                      nth k vs 0 == c + b * inject_Z (Z.of_nat k)) :
  (exists s, _rolling_slope (map Some vs) w !! i = Some (Some s) /\ s == b) /\
  ((w <= i)%nat ->
   exists acc, _rolling_acceleration (map Some vs) w !! i = Some (Some acc) /\
               acc == 0).
Proof.
  destruct (linear_slope_row vs c b w i Hw Hi Hlin) as (s & Hs & Hsb).
  split; [eauto|].
  intros Hwi. destruct i as [|i]; [lia|].
  destruct (linear_slope_row vs c b w i Hw ltac:(lia) Hlin) as (s' & Hs' & Hsb').
  exists (s - s'). split.
  - unfold _rolling_acceleration. rewrite (diff_lookup_S _ i _ _ Hs' Hs). reflexivity.
  - rewrite Hsb, Hsb'. ring.
Qed.

(** The series 3, 5, 7, 9, 11 with window 3. *)
Lemma X10_witness :
  exists s, _rolling_slope (map Some [3; 5; 7; 9; 11]) 3 !! 4%nat = Some (Some s) /\
            s == 2.
Proof.
  refine (proj1 (X10_slope_of_linear_series [3; 5; 7; 9; 11] 3 2 3 4 _ _ _)).
  - lia.
  - cbn. lia.
  - intros k Hk. cbn in Hk.
    assert (k = 0 \/ k = 1 \/ k = 2 \/ k = 3 \/ k = 4)%nat
      as [-> | [-> | [-> | [-> | ->]]]] by lia; reflexivity.
Defined.

(** X11.  With window 1 the x-variance is 0 and the guard of the slope
    closure returns 0 instead of dividing: the slope is 0 on every row whose
    input is defined and undefined on the others. *)
Theorem X11_window_one_slope_is_zero (series : column) (i : nat) :
  (forall values, slope_calc 1 values = 0) /\
  (forall v, series !! i = Some (Some v) ->
             _rolling_slope series 1 !! i = Some (Some 0)) /\
  (series !! i = Some None -> _rolling_slope series 1 !! i = Some None).
Proof.
  split; [intros values; reflexivity|].
  assert (Hwin : forall x, series !! i = Some x -> window_rows series 1 i = [x]).
  { intros x Hx. unfold window_rows.
    replace (i + 1 - (i + 1 - 1))%nat with 1%nat by lia.
    replace (i + 1 - 1)%nat with i by lia.
    rewrite (drop_S _ _ _ Hx). reflexivity. }
  split.
  - intros v Hv. unfold _rolling_slope.
    rewrite rolling_apply_lookup by (eapply lookup_lt_Some; exact Hv).
    rewrite (Hwin _ Hv). reflexivity.
  - intros Hv. unfold _rolling_slope.
    rewrite rolling_apply_lookup by (eapply lookup_lt_Some; exact Hv).
    rewrite (Hwin _ Hv). reflexivity.
Qed.

End RollingMore.

(** ** Scaler: what fit reads, what transform returns *)
Module ScalerMore.
Import Scaler ListFacts ScalerProofs.
Local Open Scope Q_scope.

(** [slice(0, k)] *)
Definition first_rows (k : nat) : pyslice :=
  {| start := Some 0%Z; stop := Some (Z.of_nat k) |}.

Lemma iloc_first_rows {A} (k : nat) (rows : list A) :
  iloc (first_rows k) rows = take k rows.
Proof.
  unfold iloc, first_rows, slice_bound. cbn [start stop].
  destruct (Z.ltb_spec 0 0) as [|_]; [lia|].
  destruct (Z.ltb_spec (Z.of_nat k) 0) as [|_]; [lia|].
  replace (Z.to_nat (Z.min 0 (Z.of_nat (length rows)))) with 0%nat by lia.
  replace (Z.to_nat (Z.min (Z.of_nat k) (Z.of_nat (length rows))
                     - Z.min 0 (Z.of_nat (length rows))))
    with (Nat.min k (length rows)) by lia.
  change (drop 0 rows) with rows. destruct (Nat.le_ge_cases k (length rows)).
  - rewrite Nat.min_l by lia. reflexivity.
  - rewrite Nat.min_r by lia.
    rewrite (take_ge rows k), (take_ge rows (length rows)) by lia. reflexivity.
Qed.

(** X12.  fit reads the training rows only: two frames with the same columns
    whose first k rows agree get the same mean_, std_ and feature_names_
    from fit with train_slice = slice(0, k), whatever their later rows, their
    lengths and the state of the scaler before. *)
Theorem X12_fit_reads_training_rows_only
    (sqrt : Q -> Q) (f1 f2 : DataFrame Q) (k : nat)
    (self1 self2 : StandardScalerTimeSeries)
    (Hcols : columns f1 = columns f2)
    (Hrows : take k (values f1) = take k (values f2)) :
  snd (fit sqrt f1 (first_rows k) self1) = snd (fit sqrt f2 (first_rows k) self2).
Proof.
  rewrite !fit_overwrites. cbn [snd]. unfold fitted_state.
  rewrite !iloc_first_rows, Hcols, Hrows. reflexivity.
Qed.

(** The frames agree on rows 0 and 1 and differ on the validation row. *)
Lemma X12_witness :
  snd (fit rational_sqrt (frame1 [1; 3; 100]) (first_rows 2) __init__)
  = snd (fit rational_sqrt (frame1 [1; 3; -7; 8]) (first_rows 2) __init__).
Proof.
  apply (X12_fit_reads_training_rows_only rational_sqrt
           (frame1 [1; 3; 100]) (frame1 [1; 3; -7; 8]) 2 __init__ __init__);
    reflexivity.
Defined.

Lemma np_sum_centered (m s : Q) (xs : list Q) :
  np_sum (map (fun x => (x - m) / s) xs)
  == (np_sum xs - inject_Z (Z.of_nat (length xs)) * m) / s.
Proof.
  induction xs as [|x xs IH].
  - unfold np_sum. cbn. unfold Qdiv. ring.
  - cbn [map length]. rewrite !np_sum_cons, IH.
    rewrite Nat2Z.inj_succ. unfold Z.succ. rewrite inject_Z_plus.
    change (inject_Z 1) with 1. unfold Qdiv. ring.
Qed.

Lemma replace_zero_std_Some (std : list (option Q)) (j : nat) (v : Q) :
  std !! j = Some (Some v) ->
  exists s, replace_zero_std std !! j = Some (Some s).
Proof.
  intros H. unfold replace_zero_std. rewrite lookup_map, H. cbn.
  destruct (Qeq_bool v 0); eauto.
Qed.



(** X14.  After fit on a frame with k0 columns, transform on a frame with k
    columns returns exactly when k = k0 or k = 1 (a single column is broadcast
    against the k0 fitted parameters); the result then carries the fitted
    column names and one row per input row.  For every other width it raises
    a ValueError, not the state error, and the scaler is left as it was. *)
Theorem X14_transform_width_rule
    (sqrt : Q -> Q) (f0 f : DataFrame Q) (sl : pyslice)
    (self : StandardScalerTimeSeries) :
  (length (columns f) = length (columns f0) \/ length (columns f) = 1%nat ->
   exists out,
     transform f (snd (fit sqrt f0 sl self)) = (Ok out, snd (fit sqrt f0 sl self)) /\
     columns out = columns f0 /\
     length (values out) = length (values f)) /\
  (length (columns f) <> length (columns f0) -> length (columns f) <> 1%nat ->
   transform f (snd (fit sqrt f0 sl self))
   = (Raise ValueError, snd (fit sqrt f0 sl self))).
Proof.
  rewrite fit_overwrites. cbn [snd].
  destruct (fitted_state_fitted_for sqrt f0 sl)
    as (mean & std & names & Hm & Hs & Hn & Lm & Ls & Ln).
  assert (Hnames : names = columns f0) by (cbn in Hn; congruence).
  unfold transform. rewrite Hm, Hs, Hn, Lm, Ls, Ln.
  set (k := length (columns f)). set (k0 := length (columns f0)).
  unfold broadcast_width. split.
  - intros Hk.
    assert (Hw : exists k1,
       (if (k =? k0)%nat then Some k
        else if (k =? 1)%nat then Some k0
        else if (k0 =? 1)%nat then Some k else None) = Some k1 /\ k1 = k0).
    { destruct (Nat.eqb_spec k k0) as [->|Hne]; [eauto|].
      destruct (Nat.eqb_spec k 1); [eauto | lia]. }
    destruct Hw as (k1 & -> & ->). rewrite !Nat.eqb_refl.
    eexists. split; [reflexivity|]. cbn [columns values].
    split; [exact Hnames|]. rewrite !length_map. reflexivity.
  - intros Hne H1.
    assert (E1 : (k =? k0)%nat = false) by (apply Nat.eqb_neq; exact Hne).
    assert (E2 : (k =? 1)%nat = false) by (apply Nat.eqb_neq; exact H1).
    assert (E3 : (k0 =? k)%nat = false) by (apply Nat.eqb_neq; lia).
    rewrite E1, E2.
    destruct (k0 =? 1)%nat; [|reflexivity].
    rewrite E1, E2, E3. reflexivity.
Qed.

(** X15.  get_params raises the state error exactly when no fit has been
    called on the object; after fit on a frame it returns the frame's column
    names with a mean and a standard deviation per column; and it never
    changes the scaler. *)
Theorem X15_get_params
    (sqrt : Q -> Q) (history : list call) (f : DataFrame Q) (sl : pyslice)
    (self : StandardScalerTimeSeries) :
  (is_state_error (fst (get_params (run sqrt history))) = true
     <-> fit_called history = false) /\
  (exists mean std,
     fst (get_params (snd (fit sqrt f sl self))) = Ok (mean, std, columns f) /\
     length mean = length (columns f) /\ length std = length (columns f)) /\
  snd (get_params self) = self.
Proof.
  split; [|split].
  - pose proof (run_invariant sqrt history) as Hinv.
    destruct (fit_called history).
    + destruct Hinv as (m & mean & std & names & Hm & Hs & Hn & _).
      unfold get_params. rewrite Hm, Hs, Hn. cbn. split; discriminate.
    + rewrite Hinv. cbn. split; reflexivity.
  - rewrite fit_overwrites. cbn [snd].
    destruct (fitted_state_fitted_for sqrt f sl)
      as (mean & std & names & Hm & Hs & Hn & Lm & Ls & Ln).
    exists mean, std. unfold get_params. rewrite Hm, Hs, Hn.
    cbn in Hn. injection Hn as <-. auto.
  - apply get_params_keeps_state.
Qed.

End ScalerMore.

(** ** Sequence windower: elements, a zero stride, short labels *)
Module WindowerMore.
Import Windower ListFacts WindowerProofs.

Section Elements.
Context {A : Type} (zero : A).

Lemma transpose_nth (n : nat) (slab : list (list A)) (j t : nat) :
  j < n -> t < length slab ->
  nth t (nth j (transpose zero n slab) []) zero = nth j (nth t slab []) zero.
Proof.
  intros Hj Ht. unfold transpose.
  rewrite (nth_lookup_Some _ j [] (map (fun r => nth j r zero) slab))
    by (rewrite lookup_map, lookup_seq_lt by exact Hj; reflexivity).
  apply nth_lookup_Some.
  rewrite lookup_map, (nth_lookup_lt slab t []) by exact Ht. reflexivity.
Qed.

Lemma transpose_shape (n : nat) (slab : list (list A)) :
  length (transpose zero n slab) = n /\
  Forall (fun ch => length ch = length slab) (transpose zero n slab).
Proof.
  unfold transpose. split; [rewrite length_map; apply length_seq|].
  apply Forall_forall. intros ch Hin.
  apply list_elem_of_In, in_map_iff in Hin. destruct Hin as (j & <- & _).
  apply length_map.
Qed.

Lemma row_slice_nth (rows : list (list A)) (st s t : nat) :
  t < s -> nth t (row_slice rows st (st + s)) [] = nth (st + t) rows [].
Proof.
  intros Ht. unfold row_slice.
  rewrite !nth_lookup, lookup_take_lt, lookup_drop by lia. reflexivity.
Qed.

Lemma window_starts_lookup (T s d i : nat) :
  i < window_count T s d -> window_starts T s d !! i = Some (i * d).
Proof.
  intros Hi. unfold window_starts. rewrite lookup_map, lookup_seq_lt by exact Hi.
  reflexivity.
Qed.

Lemma window_starts_length (T s d : nat) :
  length (window_starts T s d) = window_count T s d.
Proof. unfold window_starts. rewrite length_map. apply length_seq. Qed.

(** X16.  Element by element: with seq_len s >= 1 and stride d >= 1, generate
    returns window_count samples of shape (features, s) with
    X[i][j][t] = features[i*d + t][j], and, when labels are given,
    y[i] = labels[i*d + s - 1]: sample i reads the rows i*d .. i*d+s-1 and
    nothing else. *)
Theorem X16_window_elements
    (features : ndarray2 A) (labels : option (label_array A)) (s d fuel : nat)
    (Hs : 1 <= s) (Hd : 1 <= d)
    (Hfuel : length (rows features) + 1 < fuel)
    (Hlab : forall lab, labels = Some lab ->
                        length (rows features) <= length (rows (as_2d lab))) :
  exists X y,
    generate zero fuel {| seq_len := s; stride := d |} features labels
    = Returned (X, y) /\
    length X = window_count (length (rows features)) s d /\
    (forall i, i < window_count (length (rows features)) s d ->
       length (nth i X []) = ncols features /\
       (forall j, j < ncols features -> length (nth j (nth i X []) []) = s) /\
       (forall j t, j < ncols features -> t < s ->
          nth t (nth j (nth i X []) []) zero
          = nth j (nth (i * d + t) (rows features) []) zero)) /\
    (forall lab, labels = Some lab ->
       exists yv, y = Some yv /\
         length yv = window_count (length (rows features)) s d /\
         forall i, i < window_count (length (rows features)) s d ->
           nth i yv [] = nth (i * d + s - 1) (rows (as_2d lab)) []).
Proof.
  rewrite (generate_returns zero features labels s d fuel Hs Hd Hfuel Hlab).
  set (T := length (rows features)).
  eexists _, _. split; [reflexivity|].
  split; [rewrite length_map; apply window_starts_length|].
  split.
  - intros i Hi.
    assert (Hfit : i * d + s <= T) by (apply window_fits_iff; assumption).
    rewrite (nth_lookup_Some _ i []
               (transpose zero (ncols features)
                  (row_slice (rows features) (i * d) (i * d + s))))
      by (rewrite lookup_map, window_starts_lookup by exact Hi; reflexivity).
    assert (Hslab : length (row_slice (rows features) (i * d) (i * d + s)) = s).
    { unfold row_slice. rewrite length_take, length_drop. fold T. lia. }
    destruct (transpose_shape (ncols features)
                (row_slice (rows features) (i * d) (i * d + s))) as [Hl Hall].
    split; [exact Hl|]. split.
    + intros j Hj. rewrite <- Hslab at 2.
      apply (proj1 (Forall_nth _ [] _) Hall). rewrite Hl. exact Hj.
    + intros j t Hj Ht. rewrite transpose_nth by (rewrite ?Hslab; assumption).
      rewrite row_slice_nth by exact Ht. reflexivity.
  - intros lab ->. cbn [option_map]. eexists. split; [reflexivity|].
    split; [rewrite length_map; apply window_starts_length|].
    intros i Hi. apply nth_lookup_Some.
    rewrite lookup_map, window_starts_lookup by exact Hi. reflexivity.
Qed.

End Elements.

Lemma X16_witness :
  exists X y,
    generate 0 7 {| seq_len := 3; stride := 2 |} features5 (Some labels5)
    = Returned (X, y) /\
    length X = 2 /\
    nth 1 (nth 0 (nth 1 X []) []) 0 = 13.
Proof.
  destruct (X16_window_elements 0 features5 (Some labels5) 3 2 7)
    as (X & y & Hgen & Hlen & Hel & _).
  - lia.
  - lia.
  - cbn. lia.
  - intros lab [= <-]. cbn. lia.
  - exists X, y. split; [exact Hgen|]. split; [exact Hlen|].
    destruct (Hel 1 ltac:(cbn; lia)) as (_ & _ & H).
    rewrite (H 0 1) by (cbn; lia). reflexivity.
Defined.

Lemma window_indices_zero_stride (s T fuel : nat) (acc : list (nat * nat)) :
  s <= T ->
  window_indices fuel {| seq_len := s; stride := 0 |} T 0 acc = None.
Proof.
  intros Hs. revert acc. induction fuel as [|fuel IH]; intros acc; [reflexivity|].
  cbn [window_indices seq_len stride Nat.add].
  destruct (Nat.leb_spec s T); [apply IH | lia].
Qed.

(** X17.  A stride of 0 with a window that fits (seq_len <= number of rows)
    never leaves the while loop: however much fuel is given, generate does
    not return.  (With seq_len above the number of rows the loop is not
    entered and the empty tensors are returned, also for stride 0.) *)
Theorem X17_zero_stride_never_returns {A} (zero : A)
    (features : ndarray2 A) (labels : option (label_array A)) (s fuel : nat)
    (Hs : s <= length (rows features)) :
  generate zero fuel {| seq_len := s; stride := 0 |} features labels = OutOfFuel.
Proof.
  unfold generate. rewrite window_indices_zero_stride by exact Hs. reflexivity.
Qed.

Lemma X17_witness :
  generate 0 1000 {| seq_len := 3; stride := 0 |} features5 (Some labels5)
  = OutOfFuel.
Proof.
  apply (X17_zero_stride_never_returns 0 features5 (Some labels5) 3 1000).
  cbn. lia.
Defined.

Section ShortLabels.
Context {A : Type} (zero : A) (features : ndarray2 A) (lab : ndarray2 A).

Lemma fill_after_error (l : list (nat * (nat * nat))) :
  fold_left (fill_step zero features (Some lab)) l IndexError = IndexError.
Proof. induction l as [|x l IH]; [reflexivity | exact IH]. Qed.

Lemma py_index_past_end (e : nat) :
  1 <= e -> length (rows lab) < e ->
  py_index (rows lab) (Z.of_nat e - 1) = None.
Proof.
  intros He Hlt. unfold py_index.
  destruct (Z.ltb_spec (Z.of_nat e - 1) 0) as [|_]; [lia|].
  apply lookup_ge_None_2. lia.
Qed.

(** Once a window ends past the last label row, the loop raises. *)
Lemma fill_loop_short_labels (l : list (nat * nat)) :
  Forall (fun se => 1 <= snd se) l ->
  Exists (fun se => length (rows lab) < snd se) l ->
  forall (k : nat) (X : list (list (list A))) (yv : list (list A)),
  fold_left (fill_step zero features (Some lab)) (zip (seq k (length l)) l)
            (Returned (X, Some yv)) = IndexError.
Proof.
  induction 1 as [|[s e] l He _ IH]; intros Hex k X yv.
  - apply Exists_nil in Hex. destruct Hex.
  - cbn [length seq zip zip_with fold_left fill_step]. cbn [snd] in He.
    destruct (Nat.lt_ge_cases (length (rows lab)) e) as [Hbad|Hok].
    + rewrite (py_index_past_end e He Hbad). apply fill_after_error.
    + rewrite (py_index_last_step lab e ltac:(lia)).
      apply IH. apply Exists_cons in Hex. destruct Hex as [Hex|Hex];
        [cbn [snd] in Hex; lia | exact Hex].
Qed.

End ShortLabels.

(** X18.  Labels shorter than the data: with seq_len s >= 1 and stride
    d >= 1, if some window ends past the last label row (start + s exceeds
    the number of label rows), generate raises IndexError instead of
    returning. *)
Theorem X18_short_labels_raise {A} (zero : A)
    (features : ndarray2 A) (lab : label_array A) (s d fuel st : nat)
    (Hs : 1 <= s) (Hd : 1 <= d)
    (Hfuel : length (rows features) + 1 < fuel)
    (Hst : In st (window_starts (length (rows features)) s d))
    (Hshort : length (rows (as_2d lab)) < st + s) :
  generate zero fuel {| seq_len := s; stride := d |} features (Some lab)
  = IndexError.
Proof.
  unfold generate. rewrite window_indices_returns by assumption.
  cbn [option_map]. unfold enumerate.
  apply fill_loop_short_labels.
  - apply Forall_forall. intros se Hin.
    apply list_elem_of_In, in_map_iff in Hin. destruct Hin as (x & <- & _).
    cbn [snd]. lia.
  - apply Exists_exists. exists (st, st + s). split; [|exact Hshort].
    apply list_elem_of_In, in_map_iff. exists st. split; [reflexivity | exact Hst].
Qed.

(** Five feature rows and three label rows. *)
Lemma X18_witness :
  generate 0 7 {| seq_len := 3; stride := 1 |} features5
           (Some (Labels1D [0; 1; 2]))
  = IndexError.
Proof.
  apply (X18_short_labels_raise 0 features5 (Labels1D [0; 1; 2]) 3 1 7 1).
  - lia.
  - lia.
  - cbn. lia.
  - cbn. auto.
  - cbn. lia.
Defined.

End WindowerMore.

(** ** TCN: receptive field, output shape, and the model head *)
Module TCNMore.
Import TCN TCNHead ListFacts TCNProofs.

Section ReceptiveField.
Context {A : Type} (zero : A) (add mul : A -> A -> A) (relu : A -> A).

Local Abbreviation Conv1d := (@TCN.Conv1d A).
Local Abbreviation TemporalBlock := (@TCN.TemporalBlock A).
Local Abbreviation BlockParams := (@TCN.BlockParams A).
Local Abbreviation conv_at := (TCN.conv_at zero add mul).
Local Abbreviation conv_forward := (TCN.conv_forward zero add mul).
Local Abbreviation sum_over := (TCN.sum_over zero add).
Local Abbreviation pad := (TCN.pad zero).
Local Abbreviation relu_forward := (TCN.relu_forward relu).
Local Abbreviation tensor_add := (TCN.tensor_add add).
Local Abbreviation block_forward := (TCN.block_forward zero add mul relu).
Local Abbreviation backbone_forward := (TCN.backbone_forward zero add mul relu).

(** Two channels of one length that agree on the timesteps [i] with
    [lo <= i < hi]; [lo] may be negative. *)
Definition agree_channel_on (lo : Z) (hi : nat) (a b : list A) : Prop :=
  length a = length b /\
  forall i, (lo <= Z.of_nat i)%Z -> i < hi -> a !! i = b !! i.

Definition agree_on (lo : Z) (hi : nat) (x y : list (list A)) : Prop :=
  Forall2 (agree_channel_on lo hi) x y.

Lemma agree_on_weaken (lo lo' : Z) (hi : nat) (x y : list (list A)) :
  (lo <= lo')%Z -> agree_on lo hi x y -> agree_on lo' hi x y.
Proof.
  intros Hlo H. induction H as [|a b x y [Hl Ha] _ IH]; constructor; [|exact IH].
  split; [exact Hl|]. intros i Hi Hhi. apply Ha; lia.
Qed.

Lemma agree_on_nth_channel (lo : Z) (hi : nat) (x y : list (list A)) (ci : nat) :
  agree_on lo hi x y -> agree_channel_on lo hi (nth ci x []) (nth ci y []).
Proof.
  intros H. revert ci. induction H as [|a b x y Hab _ IH]; intros [|ci]; cbn;
    try (split; [reflexivity | intros; reflexivity]); auto.
Qed.

Lemma agree_on_time_len (lo : Z) (hi : nat) (x y : list (list A)) :
  agree_on lo hi x y -> time_len x = time_len y.
Proof. intros H. unfold time_len. destruct H as [|a b x y [Hl _] _]; cbn; auto. Qed.

Lemma conv_at_agree_on (c : Conv1d) (lo : Z) (hi : nat) (x y : list (list A))
    (o t : nat) :
  causal_conv c -> agree_on lo hi x y ->
  (lo + Z.of_nat (padding c) <= Z.of_nat t)%Z -> t < hi ->
  conv_at c x o t = conv_at c y o t.
Proof.
  intros [Hst Hpad] Hag Hlo Ht. unfold TCN.conv_at. f_equal.
  apply sum_over_ext. intros ci _. apply sum_over_ext. intros j Hj. f_equal.
  rewrite !pad_nth.
  destruct (Nat.ltb_spec (t * stride c + j * dilation c) (padding c)) as [|Hge];
    [reflexivity|].
  destruct (agree_on_nth_channel lo hi x y ci Hag) as [_ Hch].
  assert (Hjd : j * dilation c <= dilation c * (kernel_size c - 1)) by nia.
  rewrite (nth_lookup (nth ci x []) _ zero), (nth_lookup (nth ci y []) _ zero).
  rewrite Hch; [reflexivity | lia | rewrite Hst; lia].
Qed.

Lemma conv_agree_on (c : Conv1d) (lo : Z) (hi : nat) (x y : list (list A)) :
  causal_conv c -> agree_on lo hi x y ->
  agree_on (lo + Z.of_nat (padding c)) hi (conv_forward c x) (conv_forward c y).
Proof.
  intros Hc Hag. unfold TCN.conv_forward.
  rewrite <- (agree_on_time_len lo hi x y Hag).
  apply Forall2_map_both. intros o. split.
  - rewrite !length_map. reflexivity.
  - intros t Hlo Ht. rewrite !lookup_map.
    destruct (seq 0 (conv_out_len c (time_len x)) !! t) as [t'|] eqn:Hseq;
      [|reflexivity].
    apply lookup_seq in Hseq. destruct Hseq as [-> _]. cbn.
    f_equal. apply (conv_at_agree_on c lo hi); assumption.
Qed.

Lemma chomp_agree_on (m : Chomp1d) (lo : Z) (hi : nat) (x y : list (list A)) :
  agree_on lo hi x y -> agree_on lo hi (chomp_forward m x) (chomp_forward m y).
Proof.
  intros Hag. unfold chomp_forward. destruct (chomp_size m =? 0); [exact Hag|].
  induction Hag as [|a b x y [Hl Ha] _ IH]; cbn; constructor; [|exact IH].
  split; [rewrite !length_take, Hl; reflexivity|].
  intros i Hi Hhi. rewrite Hl.
  destruct (Nat.lt_ge_cases i (length b - chomp_size m)).
  - rewrite !lookup_take_lt by lia. apply Ha; assumption.
  - rewrite !lookup_take_ge by lia. reflexivity.
Qed.

Lemma relu_agree_on (lo : Z) (hi : nat) (x y : list (list A)) :
  agree_on lo hi x y -> agree_on lo hi (relu_forward x) (relu_forward y).
Proof.
  intros Hag. unfold TCN.relu_forward.
  induction Hag as [|a b x y [Hl Ha] _ IH]; cbn; constructor; [|exact IH].
  split; [rewrite !length_map, Hl; reflexivity|].
  intros i Hi Hhi. rewrite !lookup_map, Ha by assumption. reflexivity.
Qed.

Lemma tensor_add_agree_on (lo : Z) (hi : nat) (x y x' y' : list (list A)) :
  agree_on lo hi x y -> agree_on lo hi x' y' ->
  agree_on lo hi (tensor_add x x') (tensor_add y y').
Proof.
  intros Hag. unfold TCN.tensor_add. revert x' y'.
  induction Hag as [|a b x y [Hl Ha] _ IH]; intros x' y' Hag'.
  - destruct Hag'; constructor.
  - destruct Hag' as [|a' b' x' y' [Hl' Ha'] Hag']; cbn; constructor.
    + split; [rewrite !length_zip_with, Hl, Hl'; reflexivity|].
      intros i Hi Hhi. rewrite !lookup_zip_with, Ha, Ha' by assumption.
      reflexivity.
    + apply IH, Hag'.
Qed.

(** One block built by the backbone: what it reads reaches back
    [2 * padding] timesteps. *)
Lemma block_agree_on (in_ch out_ch kernel dil : nat) (bp : BlockParams)
    (lo : Z) (hi : nat) (x y : list (list A)) :
  agree_on lo hi x y ->
  agree_on (lo + 2 * Z.of_nat ((kernel - 1) * dil)) hi
    (block_forward (make_block in_ch out_ch kernel 1 dil ((kernel - 1) * dil) bp) x)
    (block_forward (make_block in_ch out_ch kernel 1 dil ((kernel - 1) * dil) bp) y).
Proof.
  intros Hag.
  destruct (make_block_causal in_ch out_ch kernel dil bp) as (H1 & H2 & Hd).
  set (b := make_block in_ch out_ch kernel 1 dil ((kernel - 1) * dil) bp) in *.
  unfold TCN.block_forward, dropout_eval.
  pose proof (conv_agree_on (conv1 b) lo hi x y H1 Hag) as A1.
  pose proof (relu_agree_on _ hi _ _ (chomp_agree_on (chomp1 b) _ hi _ _ A1)) as A3.
  pose proof (conv_agree_on (conv2 b) _ hi _ _ H2 A3) as A5.
  pose proof (relu_agree_on _ hi _ _ (chomp_agree_on (chomp2 b) _ hi _ _ A5)) as A7.
  change (padding (conv1 b)) with ((kernel - 1) * dil) in A7.
  change (padding (conv2 b)) with ((kernel - 1) * dil) in A7.
  apply relu_agree_on, tensor_add_agree_on.
  - eapply agree_on_weaken; [|exact A7].
    generalize (Z.of_nat ((kernel - 1) * dil)). intros P. lia.
  - eapply (agree_on_weaken lo).
    { pose proof (Nat2Z.is_nonneg ((kernel - 1) * dil)) as HP. revert HP.
      generalize (Z.of_nat ((kernel - 1) * dil)). intros P HP. lia. }
    destruct (downsample b) as [d|] eqn:Ed; [|exact Hag].
    pose proof (conv_agree_on d lo hi x y Hd Hag) as Ad.
    assert (Hp0 : padding d = 0).
    { subst b. cbn in Ed. destruct (in_ch =? out_ch); [discriminate|].
      injection Ed as <-. reflexivity. }
    rewrite Hp0 in Ad. eapply agree_on_weaken; [|exact Ad]. lia.
Qed.

(** How far back a stack of blocks starting at level [i] reads. *)
Fixpoint reach (kernel i : nat) (num_channels : list nat) : nat :=
  match num_channels with
  | [] => 0
  | _ :: rest => 2 * ((kernel - 1) * 2 ^ i) + reach kernel (S i) rest
  end.

Lemma reach_closed_form (kernel : nat) (num_channels : list nat) (i : nat) :
  reach kernel i num_channels
  = 2 * (kernel - 1) * 2 ^ i * (2 ^ length num_channels - 1).
Proof.
  revert i. induction num_channels as [|c rest IH]; intros i; cbn [reach length].
  - cbn. lia.
  - rewrite IH. rewrite !Nat.pow_succ_r'.
    assert (1 <= 2 ^ length rest) by (apply Nat.neq_0_lt_0, Nat.pow_nonzero; lia).
    nia.
Qed.

Lemma layers_agree_on (kernel : nat) (bps : nat -> BlockParams)
    (num_channels : list nat) (hi : nat) :
  forall (i in_ch : nat) (lo : Z) (x y : list (list A)),
  agree_on lo hi x y ->
  agree_on (lo + Z.of_nat (reach kernel i num_channels)) hi
    (fold_left (fun h b => block_forward b h)
               (make_layers kernel bps i in_ch num_channels) x)
    (fold_left (fun h b => block_forward b h)
               (make_layers kernel bps i in_ch num_channels) y).
Proof.
  induction num_channels as [|out_ch rest IH]; intros i in_ch lo x y Hag.
  - cbn. eapply agree_on_weaken; [|exact Hag]. lia.
  - cbn [make_layers fold_left reach].
    pose proof (block_agree_on in_ch out_ch kernel (2 ^ i) (bps i) lo hi x y Hag) as Hb.
    pose proof (IH (S i) out_ch _ _ _ Hb) as Hrest.
    eapply agree_on_weaken; [|exact Hrest]. lia.
Qed.

(** The receptive field of a backbone of [n_blocks] blocks:
    [1 + 2*(kernel-1)*(2^n_blocks - 1)] timesteps. *)
Definition receptive_field (kernel n_blocks : nat) : nat :=
  1 + 2 * (kernel - 1) * (2 ^ n_blocks - 1).

Lemma reach_receptive_field (kernel : nat) (num_channels : list nat) :
  Z.of_nat (receptive_field kernel (length num_channels))
  = (1 + Z.of_nat (reach kernel 0 num_channels))%Z.
Proof.
  rewrite reach_closed_form. unfold receptive_field.
  rewrite Nat.pow_0_r, Nat.mul_1_r. rewrite Nat2Z.inj_add. reflexivity.
Qed.

Lemma backbone_agree_on (num_features : nat) (num_channels : list nat)
    (kernel : nat) (bps : nat -> BlockParams) (x y : list (list A)) (t : nat) :
  agree_on (Z.of_nat t + 1 - Z.of_nat (receptive_field kernel (length num_channels)))
           (t + 1) x y ->
  agree_on (Z.of_nat t) (t + 1)
    (backbone_forward (make_backbone num_features num_channels kernel bps) x)
    (backbone_forward (make_backbone num_features num_channels kernel bps) y).
Proof.
  intros Hag. unfold TCN.backbone_forward, make_backbone. cbn [network].
  pose proof (layers_agree_on kernel bps num_channels (t + 1) 0 num_features _ x y Hag)
    as H.
  eapply agree_on_weaken; [|exact H].
  rewrite reach_receptive_field. lia.
Qed.

(** X19.  The receptive field: in eval mode, the output of the backbone at
    timestep t depends on the input timesteps t-R+1 .. t only, where
    R = 1 + 2*(kernel_size-1)*(2^N - 1) for N blocks.  Two inputs of one
    shape that agree on these timesteps give the same output at t, in every
    channel, whatever they hold earlier or later. *)
Theorem X19_receptive_field
    (num_features : nat) (num_channels : list nat) (kernel : nat)
    (bps : nat -> BlockParams) (x y : list (list A)) (t : nat)
    (Hagree : agree_on
                (Z.of_nat t + 1
                 - Z.of_nat (receptive_field kernel (length num_channels)))
                (t + 1) x y) :
  forall c,
    nth c (backbone_forward (make_backbone num_features num_channels kernel bps) x) []
      !! t
    = nth c (backbone_forward (make_backbone num_features num_channels kernel bps) y) []
      !! t.
Proof.
  intros c.
  pose proof (backbone_agree_on num_features num_channels kernel bps x y t Hagree) as H.
  destruct (agree_on_nth_channel _ _ _ _ c H) as [_ Hc]. apply Hc; lia.
Qed.

(** *** Shape of the backbone output *)

Lemma block_channels (in_ch out_ch kernel dil : nat) (bp : BlockParams)
    (x : list (list A)) :
  length x = in_ch ->
  length (block_forward
            (make_block in_ch out_ch kernel 1 dil ((kernel - 1) * dil) bp) x)
  = out_ch.
Proof.
  intros Hx. unfold TCN.block_forward, dropout_eval, TCN.relu_forward, TCN.tensor_add.
  rewrite length_map, length_zip_with, length_map, chomp_forward_length.
  rewrite (proj1 (conv_forward_shape zero add mul _ _)).
  cbn [conv2 make_block out_channels downsample].
  destruct (Nat.eqb_spec in_ch out_ch) as [E|E].
  - rewrite Hx. lia.
  - rewrite (proj1 (conv_forward_shape zero add mul _ _)). cbn [out_channels]. lia.
Qed.

Lemma last_cons_default {B : Type} (l : list B) :
  forall a d, List.last (a :: l) d = List.last l a.
Proof.
  induction l as [|b l IH]; intros a d; [reflexivity|].
  change (List.last (a :: b :: l) d) with (List.last (b :: l) d).
  rewrite (IH b d), (IH b a). reflexivity.
Qed.

Lemma layers_shape (kernel : nat) (bps : nat -> BlockParams) (L : nat)
    (num_channels : list nat) :
  Forall (fun c => 1 <= c) num_channels ->
  forall (i in_ch : nat) (x : list (list A)),
  1 <= in_ch -> length x = in_ch -> time_shape L x ->
  length (fold_left (fun h b => block_forward b h)
                    (make_layers kernel bps i in_ch num_channels) x)
  = List.last num_channels in_ch /\
  time_shape L (fold_left (fun h b => block_forward b h)
                          (make_layers kernel bps i in_ch num_channels) x).
Proof.
  induction 1 as [|out_ch rest Hout _ IH]; intros i in_ch x Hin Hx Hs.
  - split; [exact Hx | exact Hs].
  - cbn [make_layers fold_left].
    assert (Hne : x <> []) by (apply nonempty_length; lia).
    destruct (block_time_shape zero add mul relu in_ch out_ch kernel (2 ^ i) (bps i)
                L x Hout Hne Hs) as [_ Hs'].
    pose proof (block_channels in_ch out_ch kernel (2 ^ i) (bps i) x Hx) as Hl'.
    destruct (IH (S i) out_ch _ Hout Hl' Hs') as [Hlen Hshape].
    split; [|exact Hshape]. rewrite Hlen.
    symmetry. apply last_cons_default.
Qed.

Lemma backbone_shape
    (num_features : nat) (num_channels : list nat) (kernel : nat)
    (bps : nat -> BlockParams) (x : list (list A)) (L : nat) :
  Forall (fun c => 1 <= c) num_channels ->
  1 <= num_features -> length x = num_features -> time_shape L x ->
  length (backbone_forward (make_backbone num_features num_channels kernel bps) x)
  = List.last num_channels num_features /\
  time_shape L
    (backbone_forward (make_backbone num_features num_channels kernel bps) x).
Proof.
  intros. unfold TCN.backbone_forward, make_backbone. cbn [network].
  apply layers_shape; assumption.
Qed.

Lemma make_layers_length (kernel : nat) (bps : nat -> BlockParams)
    (num_channels : list nat) :
  forall i in_ch, length (make_layers kernel bps i in_ch num_channels)
                  = length num_channels.
Proof.
  induction num_channels as [|c rest IH]; intros i in_ch; [reflexivity|].
  cbn [make_layers length]. rewrite IH. reflexivity.
Qed.


(** *** [TCNModel]: the backbone and a linear head on the last timestep *)

Local Abbreviation LinearParams := (@TCNHead.LinearParams A).
Local Abbreviation TCNModel := (@TCNHead.TCNModel A).
Local Abbreviation linear_forward := (TCNHead.linear_forward zero add mul).
Local Abbreviation model_forward := (TCNHead.model_forward zero add mul relu).

Lemma last_timestep_agree (L : nat) (ox oy : list (list A)) :
  1 <= L -> time_shape L ox -> agree_on (Z.of_nat L - 1) L ox oy ->
  exists v, last_timestep ox = Some v /\ last_timestep oy = Some v /\
            length v = length ox.
Proof.
  intros HL Hs Hag. unfold last_timestep.
  induction Hag as [|a b ox oy [Hlen Hab] _ IH].
  - exists []. repeat split.
  - apply Forall_cons in Hs as [Ha Hs].
    destruct (IH Hs) as (v & Hx & Hy & Hv).
    assert (Hla : last a = a !! (L - 1)) by (rewrite last_lookup, Ha; f_equal; lia).
    assert (Hlb : last b = b !! (L - 1))
      by (rewrite last_lookup, <- Hlen, Ha; f_equal; lia).
    assert (Heq : a !! (L - 1) = b !! (L - 1)) by (apply Hab; lia).
    destruct (lookup_lt_is_Some_2 a (L - 1) ltac:(lia)) as [e He].
    exists (e :: v). cbn [mapM]. rewrite Hlb, <- Heq, Hla, He. cbn.
    rewrite Hx, Hy. cbn. repeat split. f_equal. exact Hv.
Qed.

Lemma last_Some_default (l : list nat) (w d : nat) :
  last l = Some w -> List.last l d = w.
Proof.
  revert d. induction l as [|a l IH]; intros d H; [discriminate|].
  destruct l as [|b l].
  - cbn in H. injection H as ->. reflexivity.
  - change (List.last (a :: b :: l) d) with (List.last (b :: l) d).
    apply IH. exact H.
Qed.


(** X22.  A model cannot be built without a block: with an empty
    hidden_channels the constructor raises, and with a non-empty one it
    returns a model whose head reads as many features as the last width. *)
Theorem X22_model_needs_a_block
    (num_features num_targets : nat) (hidden_channels : list nat) (kernel : nat)
    (bps : nat -> BlockParams) (hp : LinearParams) :
  (make_model num_features num_targets hidden_channels kernel bps hp = None
   <-> hidden_channels = []) /\
  (forall m,
     make_model num_features num_targets hidden_channels kernel bps hp = Some m ->
     in_features (head m) = List.last hidden_channels 0
     /\ out_features (head m) = num_targets
     /\ length (network (backbone m)) = length hidden_channels).
Proof.
  unfold make_model. split.
  - destruct hidden_channels as [|a l]; [split; reflexivity|].
    split; [|discriminate].
    destruct (last (a :: l)) eqn:E; [discriminate|].
    apply last_None in E. discriminate.
  - intros m Hm.
    destruct (last hidden_channels) as [width|] eqn:Hlast; [|discriminate].
    injection Hm as <-. cbn [head backbone in_features out_features].
    split; [symmetry; apply last_Some_default; exact Hlast|].
    split; [reflexivity|].
    unfold make_backbone. cbn [network]. apply make_layers_length.
Qed.

End ReceptiveField.

(** A backbone of one block with kernel size 2 (receptive field 3) and two
    inputs that agree on the last three of five timesteps only. *)
Definition demo_x : list (list Z) := [[1; 2; 3; 4; 5]%Z].
Definition demo_y : list (list Z) := [[9; 8; 3; 4; 5]%Z].

Lemma demo_agree : agree_on 2%Z 5 demo_x demo_y.
Proof.
  constructor; [|constructor]. split; [reflexivity|].
  intros i Hlo Hhi. destruct i as [|[|[|[|[|i]]]]]; try reflexivity; lia.
Qed.

Lemma X19_witness :
  agree_on 2%Z 5 demo_x demo_y /\
  nth 0 (TCN.backbone_forward 0%Z Z.add Z.mul (Z.max 0)
           (make_backbone 1 [1] 2 (fun _ => demo_block_params)) demo_x) [] !! 4
  = nth 0 (TCN.backbone_forward 0%Z Z.add Z.mul (Z.max 0)
             (make_backbone 1 [1] 2 (fun _ => demo_block_params)) demo_y) [] !! 4.
Proof.
  split; [exact demo_agree|].
  exact (X19_receptive_field 0%Z Z.add Z.mul (Z.max 0) 1 [1] 2
           (fun _ => demo_block_params) demo_x demo_y 4 demo_agree 0).
Defined.


Definition demo_head_params : @LinearParams Z :=
  {| lin_weight := fun _ _ => 1%Z; lin_bias := fun _ => 0%Z |}.

Definition demo_model : @TCNModel Z :=
  {| backbone := make_backbone 1 [1] 2 (fun _ => demo_block_params);
     head := {| in_features := 1; out_features := 2;
                lin_params := demo_head_params |} |}.


End TCNMore.

(** ** The split of the windows into training and validation *)
Module TrainSplitProofs.
Import ListFacts WindowerProofs TrainSplit.

(** The number of elements before the cut of a slice at [k]. *)
Definition cut (k : Z) (n : nat) : nat :=
  Z.to_nat (Scaler.slice_bound (Z.of_nat n) 0 (Some k)).

Lemma cut_le (k : Z) (n : nat) : cut k n <= n.
Proof.
  unfold cut, Scaler.slice_bound. destruct (Z.ltb_spec k 0); lia.
Qed.

Lemma cut_nonneg (k : Z) (n : nat) :
  (0 <= k)%Z -> cut k n = Nat.min (Z.to_nat k) n.
Proof.
  intros Hk. unfold cut, Scaler.slice_bound. destruct (Z.ltb_spec k 0); lia.
Qed.

Lemma cut_neg (k : Z) (n : nat) :
  (k < 0)%Z -> cut k n = n - Z.to_nat (- k).
Proof.
  intros Hk. unfold cut, Scaler.slice_bound. destruct (Z.ltb_spec k 0); lia.
Qed.

Lemma upto_cut {B} (k : Z) (a : list B) : upto k a = take (cut k (length a)) a.
Proof.
  unfold upto, Scaler.iloc, cut. cbn [Scaler.start Scaler.stop Scaler.slice_bound].
  change (Z.to_nat 0) with 0. change (drop 0 a) with a.
  f_equal. unfold Scaler.slice_bound. destruct (Z.ltb_spec k 0); lia.
Qed.

Lemma from_cut {B} (k : Z) (a : list B) : from k a = drop (cut k (length a)) a.
Proof.
  unfold from, Scaler.iloc. cbn [Scaler.start Scaler.stop].
  fold (cut k (length a)).
  apply take_ge. rewrite length_drop.
  unfold cut, Scaler.slice_bound. destruct (Z.ltb_spec k 0); lia.
Qed.

(** X23.  The split is a partition: for every train_n and seq_len, also
    when the cut index is negative or past the end, the training windows
    followed by the validation windows are all the windows, in order; the
    same holds for the labels, and the two training arrays have one length
    when X and y have. *)
Theorem X23_split_is_a_partition {A} (train_n : Z) (seq_len : nat)
    (X : list (list (list A))) (y : list (list A)) :
  X_train (split train_n seq_len X y) ++ X_valid (split train_n seq_len X y) = X /\
  y_train (split train_n seq_len X y) ++ y_valid (split train_n seq_len X y) = y /\
  (length X = length y ->
   length (X_train (split train_n seq_len X y))
   = length (y_train (split train_n seq_len X y)) /\
   length (X_valid (split train_n seq_len X y))
   = length (y_valid (split train_n seq_len X y))).
Proof.
  unfold split. cbn [X_train y_train X_valid y_valid].
  rewrite !upto_cut, !from_cut, !take_drop.
  split; [reflexivity|]. split; [reflexivity|].
  intros Hlen. rewrite !length_take, !length_drop, Hlen. split; reflexivity.
Qed.

Section Windows.
Context {A : Type} (zero : A).

Lemma take_window_starts (T s k : nat) :
  k <= Windower.window_count T s 1 ->
  take k (Windower.window_starts T s 1) = seq 0 k.
Proof.
  intros Hk. unfold Windower.window_starts.
  rewrite (map_ext _ (fun i => i)) by (intros i; apply Nat.mul_1_r).
  rewrite map_id, take_seq. f_equal. lia.
Qed.

Lemma row_slice_take (rows : list (list A)) (n st s : nat) :
  st + s <= n ->
  Windower.row_slice (take n rows) st (st + s) = Windower.row_slice rows st (st + s).
Proof.
  intros H. unfold Windower.row_slice.
  replace (st + s - st) with s by lia.
  rewrite !take_drop_commute, take_take. do 2 f_equal. lia.
Qed.

Lemma nth_take_rows (rows : list (list A)) (n i : nat) :
  i < n -> nth i (take n rows) [] = nth i rows [].
Proof. intros H. rewrite !nth_lookup, lookup_take_lt by exact H. reflexivity. Qed.

(** The training windows and labels of the windows of a feature array, cut
    at [train_n - s + 1 >= 0]. *)
Lemma train_part (features : Windower.ndarray2 A) (lab : Windower.ndarray2 A)
    (s fuel train_n : nat) :
  1 <= s -> s <= train_n + 1 -> train_n <= length (Windower.rows features) ->
  length (Windower.rows features) + 1 < fuel ->
  length (Windower.rows features) <= length (Windower.rows lab) ->
  exists X y,
    Windower.generate zero fuel {| Windower.seq_len := s; Windower.stride := 1 |}
      features (Some (Windower.Labels2D lab))
    = Windower.Returned (X, Some y) /\
    X_train (split (Z.of_nat train_n) s X y)
    = map (fun st => Windower.transpose zero (Windower.ncols features)
                       (Windower.row_slice (take train_n (Windower.rows features))
                          st (st + s)))
          (seq 0 (train_n + 1 - s)) /\
    y_train (split (Z.of_nat train_n) s X y)
    = map (fun st => nth (st + s - 1) (take train_n (Windower.rows lab)) [])
          (seq 0 (train_n + 1 - s)).
Proof.
  intros Hs Hk Hn Hfuel Hlab.
  rewrite (generate_returns zero features (Some (Windower.Labels2D lab)) s 1 fuel)
    by (try assumption; try lia; intros l [= <-]; exact Hlab).
  cbn [option_map Windower.as_2d].
  eexists _, _. split; [reflexivity|].
  unfold split. cbn [X_train y_train].
  set (T := length (Windower.rows features)) in *.
  assert (Hwc : train_n + 1 - s <= Windower.window_count T s 1).
  { unfold Windower.window_count. destruct (Nat.leb_spec s T).
    - rewrite Nat.div_1_r. lia.
    - lia. }
  assert (Hcut : forall B (l : list B),
             length l = Windower.window_count T s 1 ->
             upto (Z.of_nat train_n - Z.of_nat s + 1) l = take (train_n + 1 - s) l).
  { intros B l Hl. rewrite upto_cut, cut_nonneg by lia. f_equal. lia. }
  rewrite !Hcut
    by (rewrite length_map; unfold Windower.window_starts;
        rewrite length_map; apply length_seq).
  rewrite !map_fmap_stdpp, <- !fmap_take, (take_window_starts T s) by exact Hwc.
  rewrite <- !map_fmap_stdpp. split.
  - apply map_ext_in. intros st Hin. apply in_seq in Hin.
    rewrite row_slice_take by lia. reflexivity.
  - apply map_ext_in. intros st Hin. apply in_seq in Hin.
    rewrite nth_take_rows by lia. reflexivity.
Qed.

(** X24.  No row of the validation part reaches the training tensors: with
    stride 1, 1 <= seq_len <= train_n + 1 and train_n at most the number of
    rows, two feature and label arrays that agree on their first train_n
    rows give the same X_train and y_train, of train_n - seq_len + 1
    windows, whatever their later rows hold and however many there are. *)
Theorem X24_training_windows_read_training_rows
    (features features' lab lab' : Windower.ndarray2 A) (s fuel train_n : nat)
    (Hs : 1 <= s) (Hk : s <= train_n + 1)
    (Hn : train_n <= length (Windower.rows features))
    (Hn' : train_n <= length (Windower.rows features'))
    (Hfuel : length (Windower.rows features) + 1 < fuel)
    (Hfuel' : length (Windower.rows features') + 1 < fuel)
    (Hlab : length (Windower.rows features) <= length (Windower.rows lab))
    (Hlab' : length (Windower.rows features') <= length (Windower.rows lab'))
    (Hcols : Windower.ncols features = Windower.ncols features')
    (Hrows : take train_n (Windower.rows features)
             = take train_n (Windower.rows features'))
    (Hlabels : take train_n (Windower.rows lab) = take train_n (Windower.rows lab')) :
  exists X y X' y',
    Windower.generate zero fuel {| Windower.seq_len := s; Windower.stride := 1 |}
      features (Some (Windower.Labels2D lab))
    = Windower.Returned (X, Some y) /\
    Windower.generate zero fuel {| Windower.seq_len := s; Windower.stride := 1 |}
      features' (Some (Windower.Labels2D lab'))
    = Windower.Returned (X', Some y') /\
    X_train (split (Z.of_nat train_n) s X y)
    = X_train (split (Z.of_nat train_n) s X' y') /\
    y_train (split (Z.of_nat train_n) s X y)
    = y_train (split (Z.of_nat train_n) s X' y') /\
    length (X_train (split (Z.of_nat train_n) s X y)) = train_n + 1 - s.
Proof.
  destruct (train_part features lab s fuel train_n Hs Hk Hn Hfuel Hlab)
    as (X & y & Hg & HX & Hy).
  destruct (train_part features' lab' s fuel train_n Hs Hk Hn' Hfuel' Hlab')
    as (X' & y' & Hg' & HX' & Hy').
  exists X, y, X', y'. split; [exact Hg|]. split; [exact Hg'|].
  rewrite HX, HX', Hy, Hy', Hrows, Hlabels, Hcols.
  split; [reflexivity|]. split; [reflexivity|].
  rewrite length_map. apply length_seq.
Qed.

(** X25.  With fewer training rows than seq_len - 1 the cut index is
    negative and counts from the end: the training part is then all windows
    but the last seq_len - 1 - train_n, and each of its windows takes its
    label from a row at or after train_n. *)
Theorem X25_short_training_part_reads_later_rows
    (features lab : Windower.ndarray2 A) (s fuel train_n : nat)
    (Hs : 1 <= s) (Hk : train_n + 1 < s)
    (Hfuel : length (Windower.rows features) + 1 < fuel)
    (Hlab : length (Windower.rows features) <= length (Windower.rows lab)) :
  exists X y,
    Windower.generate zero fuel {| Windower.seq_len := s; Windower.stride := 1 |}
      features (Some (Windower.Labels2D lab))
    = Windower.Returned (X, Some y) /\
    X_train (split (Z.of_nat train_n) s X y)
    = take (length X - (s - 1 - train_n)) X /\
    y_train (split (Z.of_nat train_n) s X y)
    = take (length y - (s - 1 - train_n)) y /\
    forall i row, y_train (split (Z.of_nat train_n) s X y) !! i = Some row ->
      train_n <= i + s - 1 /\ row = nth (i + s - 1) (Windower.rows lab) [].
Proof.
  rewrite (generate_returns zero features (Some (Windower.Labels2D lab)) s 1 fuel)
    by (try assumption; try lia; intros l [= <-]; exact Hlab).
  cbn [option_map Windower.as_2d].
  eexists _, _. split; [reflexivity|].
  unfold split. cbn [X_train y_train].
  assert (Hcut : forall B (l : list B),
             upto (Z.of_nat train_n - Z.of_nat s + 1) l
             = take (length l - (s - 1 - train_n)) l).
  { intros B l. rewrite upto_cut, cut_neg by lia. f_equal. lia. }
  rewrite !Hcut. split; [reflexivity|]. split; [reflexivity|].
  intros i row Hi. split; [lia|].
  apply lookup_take_Some in Hi as [Hi _].
  rewrite lookup_map in Hi.
  unfold Windower.window_starts in Hi. rewrite lookup_map in Hi.
  destruct (seq 0 _ !! i) as [j|] eqn:Ej; [|discriminate].
  apply lookup_seq in Ej as [-> _]. cbn in Hi. injection Hi as <-.
  rewrite Nat.mul_1_r. reflexivity.
Qed.

End Windows.

(** Five rows of two features and of one label, and a second pair that
    differs from the first after row 2. *)
Definition lab5 : Windower.ndarray2 nat :=
  {| Windower.ncols := 1; Windower.rows := [[0]; [1]; [2]; [3]; [4]] |}.
Definition features5' : Windower.ndarray2 nat :=
  {| Windower.ncols := 2;
     Windower.rows := [[10; 20]; [11; 21]; [12; 22]; [93; 93]; [94; 94]; [95; 95]] |}.
Definition lab5' : Windower.ndarray2 nat :=
  {| Windower.ncols := 1; Windower.rows := [[0]; [1]; [2]; [7]; [7]; [7]] |}.

Lemma X24_witness :
  take 3 (Windower.rows Windower.features5) = take 3 (Windower.rows features5') /\
  take 3 (Windower.rows lab5) = take 3 (Windower.rows lab5') /\
  exists X y X' y',
    Windower.generate 0 8 {| Windower.seq_len := 2; Windower.stride := 1 |}
      Windower.features5 (Some (Windower.Labels2D lab5))
    = Windower.Returned (X, Some y) /\
    Windower.generate 0 8 {| Windower.seq_len := 2; Windower.stride := 1 |}
      features5' (Some (Windower.Labels2D lab5'))
    = Windower.Returned (X', Some y') /\
    X_train (split 3 2 X y) = X_train (split 3 2 X' y') /\
    y_train (split 3 2 X y) = y_train (split 3 2 X' y') /\
    length (X_train (split 3 2 X y)) = 2.
Proof.
  split; [reflexivity|]. split; [reflexivity|].
  apply (X24_training_windows_read_training_rows 0
           Windower.features5 features5' lab5 lab5' 2 8 3);
    cbn; try reflexivity; lia.
Defined.

Lemma X25_witness :
  exists X y,
    Windower.generate 0 7 {| Windower.seq_len := 3; Windower.stride := 1 |}
      Windower.features5 (Some (Windower.Labels2D lab5))
    = Windower.Returned (X, Some y) /\
    X_train (split 1 3 X y) = take (length X - 1) X /\
    y_train (split 1 3 X y) = take (length y - 1) y /\
    forall i row, y_train (split 1 3 X y) !! i = Some row ->
      1 <= i + 3 - 1 /\ row = nth (i + 3 - 1) (Windower.rows lab5) [].
Proof.
  apply (X25_short_training_part_reads_later_rows 0 Windower.features5 lab5 3 7 1);
    cbn; lia.
Defined.

End TrainSplitProofs.

(** ** fit_transform on the training slice, as [train_model] calls it *)
Module ScalerPipeline.
Import Scaler ListFacts ScalerProofs ScalerMore.
Local Open Scope Q_scope.

(** Two results of [transform] that agree up to row [k]: both raise the same
    exception, or both return frames with the same columns and the same
    first [k] rows. *)
Definition agree_upto (k : nat) (r1 r2 : result (DataFrame (option Q))) : Prop :=
  match r1, r2 with
  | Ok d1, Ok d2 => columns d1 = columns d2 /\ take k (values d1) = take k (values d2)
  | Raise e1, Raise e2 => e1 = e2
  | _, _ => False
  end.

Lemma transform_take (f1 f2 : DataFrame Q) (k : nat) (self : StandardScalerTimeSeries) :
  columns f1 = columns f2 ->
  take k (values f1) = take k (values f2) ->
  agree_upto k (fst (transform f1 self)) (fst (transform f2 self)).
Proof.
  intros Hcols Hrows. unfold transform. rewrite Hcols.
  destruct (mean_ self) as [mean|]; [|reflexivity].
  destruct (std_ self) as [std|]; [|reflexivity].
  destruct (broadcast_width _ (length mean)) as [k1|]; [|reflexivity].
  destruct (broadcast_width k1 (length std)) as [k2|]; [|reflexivity].
  destruct (_ =? k2)%nat; [|reflexivity].
  cbn [fst agree_upto columns values]. split; [reflexivity|].
  rewrite !map_fmap_stdpp, <- !fmap_take, Hrows. reflexivity.
Qed.

(** X26.  The scaled training rows do not depend on the later rows: for two
    frames with the same columns whose first k rows agree,
    fit_transform with train_slice = slice(0, k) raises the same exception
    for both or returns frames with the same columns and the same first k
    rows, and leaves the scaler in the same state. *)
Theorem X26_scaled_training_rows_read_training_rows_only
    (sqrt : Q -> Q) (f1 f2 : DataFrame Q) (k : nat)
    (self1 self2 : StandardScalerTimeSeries)
    (Hcols : columns f1 = columns f2)
    (Hrows : take k (values f1) = take k (values f2)) :
  agree_upto k (fst (fit_transform sqrt f1 (first_rows k) self1))
               (fst (fit_transform sqrt f2 (first_rows k) self2)) /\
  snd (fit_transform sqrt f1 (first_rows k) self1)
  = snd (fit_transform sqrt f2 (first_rows k) self2).
Proof.
  unfold fit_transform, bind. rewrite !fit_overwrites.
  assert (Hst : fitted_state sqrt f1 (first_rows k) = fitted_state sqrt f2 (first_rows k)).
  { unfold fitted_state. rewrite !iloc_first_rows, Hcols, Hrows. reflexivity. }
  rewrite Hst. split.
  - apply transform_take; assumption.
  - rewrite !transform_keeps_state. reflexivity.
Qed.

Lemma X26_witness :
  agree_upto 2
    (fst (fit_transform rational_sqrt (frame1 [1; 3; 100]) (first_rows 2) __init__))
    (fst (fit_transform rational_sqrt (frame1 [1; 3; -7; 8]) (first_rows 2) __init__)) /\
  snd (fit_transform rational_sqrt (frame1 [1; 3; 100]) (first_rows 2) __init__)
  = snd (fit_transform rational_sqrt (frame1 [1; 3; -7; 8]) (first_rows 2) __init__).
Proof.
  apply (X26_scaled_training_rows_read_training_rows_only rational_sqrt
           (frame1 [1; 3; 100]) (frame1 [1; 3; -7; 8]) 2 __init__ __init__);
    reflexivity.
Defined.

End ScalerPipeline.

(** ** features/indicators.py: the strength index and the z-score *)
Module IndicatorsProofs.
Import RollingMetrics Indicators ListFacts RollingMetricsProofs RollingMore.
Local Open Scope Q_scope.

Definition unit_interval (x : Q) : Prop := 0 <= x /\ x <= 1.

Lemma up_length (series : column) : length (up series) = length series.
Proof. unfold up. rewrite length_map. apply diff_length. Qed.

Lemma up_unit (series : column) : Forall unit_interval (up series).
Proof.
  unfold up. rewrite map_fmap_stdpp. apply Forall_fmap, Forall_forall.
  intros d _. unfold unit_interval. cbn.
  destruct d as [v|]; [destruct (Qle_bool v 0)|]; split; discriminate.
Qed.

Lemma up_head (series : column) (v : option Q) (rest : column) :
  series = v :: rest -> exists rest', up series = 0 :: rest'.
Proof.
  intros ->. unfold up, diff. cbn [zip_with map].
  eexists. f_equal. destruct v; reflexivity.
Qed.

Lemma inject_nat_succ (n : nat) :
  inject_Z (Z.of_nat (S n)) == inject_Z (Z.of_nat n) + 1.
Proof.
  rewrite Nat2Z.inj_succ. unfold Z.succ. rewrite inject_Z_plus. reflexivity.
Qed.

Lemma np_sum_unit (l : list Q) :
  Forall unit_interval l ->
  0 <= np_sum l /\ np_sum l <= inject_Z (Z.of_nat (length l)).
Proof.
  induction 1 as [|x l [Hx0 Hx1] _ [IH0 IH1]].
  - unfold np_sum. cbn. split; discriminate.
  - cbn [length]. rewrite rolling_sum_cons, inject_nat_succ. split; lra.
Qed.

Lemma inject_nat_pos (n : nat) : (1 <= n)%nat -> 0 < inject_Z (Z.of_nat n).
Proof. intros H. unfold Qlt. cbn. lia. Qed.

Lemma rolling_mean_lookup (w : nat) (series : column) (i : nat) :
  (i < length series)%nat ->
  rolling_mean w series !! i =
  Some (let obs := observations (window_rows series w i) in
        if ((length obs <? w) || (length obs =? 0))%nat then None
        else Some (np_mean obs)).
Proof.
  intros Hi. unfold rolling_mean.
  rewrite lookup_map, lookup_seq_lt by exact Hi. reflexivity.
Qed.

Lemma rolling_mean_length (w : nat) (series : column) :
  length (rolling_mean w series) = length series.
Proof. unfold rolling_mean. rewrite length_map. apply length_seq. Qed.

(** X27.  The price strength index of a window w >= 1 is not-a-number on
    the rows before w - 1 and a number between 0 and 1 from row w - 1 on,
    whatever the series holds (undefined closes included).  Row 0 never
    counts as an up close, so the first defined value, at row w - 1, is at
    most (w - 1)/w. *)
Theorem X27_price_strength_index_range
    (series : column) (w i : nat)
    (Hw : (1 <= w)%nat) (Hi : (i < length series)%nat) :
  ((i + 1 < w)%nat -> price_strength_index series w !! i = Some None) /\
  ((w <= i + 1)%nat ->
   exists v, price_strength_index series w !! i = Some (Some v) /\
             0 <= v /\ v <= 1 /\
             ((i + 1 = w)%nat ->
              v * inject_Z (Z.of_nat w) <= inject_Z (Z.of_nat w) - 1)).
Proof.
  unfold price_strength_index.
  rewrite rolling_mean_lookup by (rewrite length_map, up_length; exact Hi).
  cbv zeta. rewrite window_rows_map_Some.
  set (obs := take (i + 1 - (i + 1 - w)) (drop (i + 1 - w) (up series))).
  assert (Hlen : length obs = Nat.min w (i + 1)).
  { subst obs. rewrite length_take, length_drop, up_length. lia. }
  assert (Hunit : Forall unit_interval obs).
  { subst obs. apply Forall_take, Forall_drop, up_unit. }
  split.
  - intros Hlt. rewrite Hlen.
    destruct (Nat.ltb_spec (Nat.min w (i + 1)) w); [reflexivity | lia].
  - intros Hge. rewrite Hlen.
    destruct (Nat.ltb_spec (Nat.min w (i + 1)) w); [lia|].
    destruct (Nat.eqb_spec (Nat.min w (i + 1)) 0); [lia|].
    cbn [orb]. eexists. split; [reflexivity|].
    assert (Hn : length obs = w) by lia.
    pose proof (inject_nat_pos w Hw) as Hpos.
    destruct (np_sum_unit obs Hunit) as [H0 H1]. rewrite Hn in H1.
    unfold np_mean. rewrite Hn.
    split; [apply Qle_shift_div_l; [exact Hpos | lra]|].
    split; [apply Qle_shift_div_r; [exact Hpos | lra]|].
    intros Heq.
    assert (Hmul : np_sum obs / inject_Z (Z.of_nat w) * inject_Z (Z.of_nat w)
                   == np_sum obs) by (field; lra).
    rewrite Hmul.
    destruct series as [|x rest]; [cbn in Hi; lia|].
    destruct (up_head (x :: rest) x rest eq_refl) as [rest' Hup].
    assert (Hunit' : Forall unit_interval (0 :: rest'))
      by (rewrite <- Hup; apply up_unit).
    subst obs. rewrite Hup in *.
    replace (i + 1 - w)%nat with 0%nat in * by lia.
    replace (i + 1 - 0)%nat with (S (w - 1)) in * by lia.
    change (drop 0 (0 :: rest')) with (0 :: rest') in *.
    change (take (S (w - 1)) (0 :: rest')) with (0 :: take (w - 1) rest') in *.
    apply Forall_cons in Hunit as [_ Hrest].
    destruct (np_sum_unit _ Hrest) as [_ Hle].
    assert (Hn' : length (take (w - 1) rest') = (w - 1)%nat)
      by (cbn [length] in Hn; lia).
    rewrite Hn' in Hle.
    rewrite rolling_sum_cons.
    assert (Hw1 : inject_Z (Z.of_nat w) == inject_Z (Z.of_nat (w - 1)) + 1).
    { rewrite <- inject_nat_succ. replace (S (w - 1)) with w by lia. reflexivity. }
    lra.
Qed.

(** Closes 1, 2, 1, 3 and window 2: row 1 is the first defined one. *)
Lemma X27_witness :
  ((1 + 1 < 2)%nat ->
   price_strength_index [Some 1; Some 2; Some 1; Some 3] 2 !! 1%nat = Some None) /\
  ((2 <= 1 + 1)%nat ->
   exists v, price_strength_index [Some 1; Some 2; Some 1; Some 3] 2 !! 1%nat
             = Some (Some v) /\
             0 <= v /\ v <= 1 /\
             ((1 + 1 = 2)%nat ->
              v * inject_Z (Z.of_nat 2) <= inject_Z (Z.of_nat 2) - 1)).
Proof.
  apply (X27_price_strength_index_range [Some 1; Some 2; Some 1; Some 3] 2 1);
    cbn; lia.
Defined.

Section ZScore.
Variable sqrt : Q -> Q.

Lemma rolling_std_lookup (w : nat) (series : column) (i : nat) :
  (i < length series)%nat ->
  rolling_std sqrt w series !! i =
  Some (let obs := observations (window_rows series w i) in
        if ((length obs <? w) || (length obs <=? 1))%nat then None
        else Some (sqrt (var1 obs))).
Proof.
  intros Hi. unfold rolling_std.
  rewrite lookup_map, lookup_seq_lt by exact Hi. reflexivity.
Qed.

Lemma rolling_std_length (w : nat) (series : column) :
  length (rolling_std sqrt w series) = length series.
Proof. unfold rolling_std. rewrite length_map. apply length_seq. Qed.

Lemma rolling_zscore_length (series : column) (w : nat) :
  length (rolling_zscore sqrt series w) = length series.
Proof.
  unfold rolling_zscore, replace_zero_nan.
  rewrite !length_zip_with, length_map, rolling_mean_length, rolling_std_length.
  lia.
Qed.

Lemma rolling_zscore_lookup (series : column) (w i : nat) (x : option Q) :
  series !! i = Some x ->
  rolling_zscore sqrt series w !! i =
  Some (let obs := observations (window_rows series w i) in
        nan_div
          (nan_sub x (if ((length obs <? w) || (length obs =? 0))%nat then None
                      else Some (np_mean obs)))
          (match (if ((length obs <? w) || (length obs <=? 1))%nat then None
                  else Some (sqrt (var1 obs))) with
           | Some s => if Qeq_bool s 0 then None else Some s
           | None => None
           end)).
Proof.
  intros Hx. assert (Hi : (i < length series)%nat) by (eapply lookup_lt_Some; eauto).
  unfold rolling_zscore, replace_zero_nan.
  rewrite !lookup_zip_with, Hx, rolling_mean_lookup, lookup_map,
    rolling_std_lookup by exact Hi.
  reflexivity.
Qed.

(** X28.  The rolling z-score has one row per row of the series.  A row i
    holds a number only when the window has at least two rows, the rows
    i-w+1 .. i exist and are all defined and the standard deviation of the
    window is not 0; it is then (x_i - mean) / std over these rows.  With
    window 0 or 1 the whole column is not-a-number. *)
Theorem X28_zscore_defined_rows (series : column) (w : nat) :
  length (rolling_zscore sqrt series w) = length series /\
  (forall i z, rolling_zscore sqrt series w !! i = Some (Some z) ->
     (2 <= w <= i + 1)%nat /\
     exists x obs,
       series !! i = Some (Some x) /\
       obs = observations (window_rows series w i) /\
       length obs = w /\ Forall defined (window_rows series w i) /\
       ~ sqrt (var1 obs) == 0 /\
       z = (x - np_mean obs) / sqrt (var1 obs)) /\
  ((w <= 1)%nat ->
   forall i, (i < length series)%nat ->
             rolling_zscore sqrt series w !! i = Some None).
Proof.
  split; [apply rolling_zscore_length|]. split.
  - intros i z Hz.
    assert (Hi : (i < length series)%nat).
    { apply lookup_lt_Some in Hz. rewrite rolling_zscore_length in Hz. exact Hz. }
    destruct (lookup_lt_is_Some_2 series i Hi) as [x Hx].
    rewrite (rolling_zscore_lookup series w i x Hx) in Hz. cbv zeta in Hz.
    set (obs := observations (window_rows series w i)) in *.
    pose proof (window_rows_length series w i Hi) as Hwl.
    destruct (observations_length_le (window_rows series w i)) as [Hle Hall].
    fold obs in Hle, Hall.
    destruct (Nat.ltb_spec (length obs) w) as [|Hge]; cbn [orb] in Hz;
      [destruct x; discriminate|].
    destruct (Nat.leb_spec (length obs) 1) as [|Hgt];
      [destruct x as [x|]; [destruct (length obs =? 0)%nat|]; discriminate|].
    destruct (Nat.eqb_spec (length obs) 0) as [|_]; [lia|].
    destruct x as [x|]; [|discriminate]. cbn [nan_sub] in Hz.
    destruct (Qeq_bool (sqrt (var1 obs)) 0) eqn:Es; [discriminate|].
    cbn [nan_div] in Hz. injection Hz as <-.
    split; [lia|]. exists x, obs.
    split; [exact Hx|]. split; [reflexivity|]. split; [lia|].
    split; [apply Hall; lia|].
    split; [|reflexivity].
    intros H0. apply Qeq_bool_iff in H0. congruence.
  - intros Hw i Hi.
    destruct (lookup_lt_is_Some_2 series i Hi) as [x Hx].
    rewrite (rolling_zscore_lookup series w i x Hx). cbv zeta. f_equal.
    set (obs := observations (window_rows series w i)).
    pose proof (window_rows_length series w i Hi) as Hwl.
    destruct (observations_length_le (window_rows series w i)) as [Hle _].
    fold obs in Hle.
    assert (Hone : ((length obs <? w) || (length obs <=? 1))%nat = true).
    { apply orb_true_iff. right. apply Nat.leb_le. lia. }
    rewrite Hone.
    destruct (nan_sub x _); reflexivity.
Qed.

End ZScore.

End IndicatorsProofs.

(** ** A defined z-score *)
Module IndicatorsExamples.
Import RollingMetrics Indicators IndicatorsProofs.
Local Open Scope Q_scope.

(** Closes 0, 1, 2 and window 3: mean 1, standard deviation 1, z-score 1 at
    row 2. *)
Lemma X28_witness :
  rolling_zscore Scaler.rational_sqrt [Some 0; Some 1; Some 2] 3 !! 2%nat
  = Some (Some (3 # 3)) /\
  (2 <= 3 <= 2 + 1)%nat.
Proof.
  assert (H : rolling_zscore Scaler.rational_sqrt [Some 0; Some 1; Some 2] 3 !! 2%nat
              = Some (Some (3 # 3))) by reflexivity.
  split; [exact H|].
  exact (proj1 (proj1 (proj2 (X28_zscore_defined_rows Scaler.rational_sqrt
                                [Some 0; Some 1; Some 2] 3)) 2%nat (3 # 3) H)).
Defined.

End IndicatorsExamples.
